(** * Cursors of the editor: one cursor, the cursor collection, delete operations

    A shallow embedding of
    - [Cursor] (oneCursor.ts),
    - [DeleteOperations] (cursorDeleteOperations.ts),
    - [CursorCollection] (cursorCollection.ts),
    - [CursorContext] (cursorContext.ts),
    followed by the properties the specification states about them and by
    further properties of the code.

    Line numbers, columns and array indices are JavaScript numbers that only
    ever hold integers here: they are [Z].  Arrays are lists, read with
    [!!] and written with [<[ _ := _ ]>]; an access the source would answer
    with [undefined] and then dereference is [None] (the TypeError).
    Cursor objects live in a heap and arrays hold their addresses, so that an
    update through one array is seen through every other array that holds
    the same cursor. *)

From Stdlib Require Import ZArith Lia Sorted.
From stdpp Require Import base option list gmap strings.

Local Open Scope Z_scope.

(** ** Coordinate primitives *)

(** Modelled from the spec: [Position] of core/position.ts is not under src;
    a position is a (line, column) pair with the line-then-column order. *)
Record Position := mkPosition { lineNumber : Z; column : Z }.

Module Position.
Definition equals (a b : Position) : bool :=
  (lineNumber a =? lineNumber b) && (column a =? column b).

Definition isBefore (a b : Position) : bool :=
  if lineNumber a <? lineNumber b then true
  else if lineNumber b <? lineNumber a then false
  else column a <? column b.

Definition isBeforeOrEqual (a b : Position) : bool :=
  if lineNumber a <? lineNumber b then true
  else if lineNumber b <? lineNumber a then false
  else column a <=? column b.

Definition compare (a b : Position) : Z :=
  if lineNumber a =? lineNumber b
  then column a - column b
  else lineNumber a - lineNumber b.

(** [position.with(undefined, newColumn)] *)
Definition with_column (p : Position) (newColumn : Z) : Position :=
  mkPosition (lineNumber p) newColumn.
End Position.

(** Modelled from the spec: [Range] of core/range.ts is not under src; a range
    is an ordered span of positions, its constructor swaps the two ends when
    they are given in the wrong order. *)
Record Range := rawRange {
  startLineNumber : Z;
  startColumn : Z;
  endLineNumber : Z;
  endColumn : Z
}.

Module Range.
(** [new Range(startLineNumber, startColumn, endLineNumber, endColumn)] *)
Definition new (sl sc el ec : Z) : Range :=
  if (sl >? el) || ((sl =? el) && (sc >? ec))
  then rawRange el ec sl sc
  else rawRange sl sc el ec.

Definition isEmpty (r : Range) : bool :=
  (startLineNumber r =? endLineNumber r) && (startColumn r =? endColumn r).

Definition getStartPosition (r : Range) : Position :=
  mkPosition (startLineNumber r) (startColumn r).

Definition getEndPosition (r : Range) : Position :=
  mkPosition (endLineNumber r) (endColumn r).

Definition fromPositions (a b : Position) : Range :=
  new (lineNumber a) (column a) (lineNumber b) (column b).

Definition equalsRange (a b : Range) : bool :=
  (startLineNumber a =? startLineNumber b) && (startColumn a =? startColumn b)
  && (endLineNumber a =? endLineNumber b) && (endColumn a =? endColumn b).

(** The smallest range that covers both. *)
Definition plusRange (a b : Range) : Range :=
  let '(sl, sc) :=
    if startLineNumber b <? startLineNumber a
    then (startLineNumber b, startColumn b)
    else if startLineNumber b =? startLineNumber a
    then (startLineNumber b, Z.min (startColumn b) (startColumn a))
    else (startLineNumber a, startColumn a) in
  let '(el, ec) :=
    if endLineNumber b >? endLineNumber a
    then (endLineNumber b, endColumn b)
    else if endLineNumber b =? endLineNumber a
    then (endLineNumber b, Z.max (endColumn b) (endColumn a))
    else (endLineNumber a, endColumn a) in
  new sl sc el ec.

(** Order by start position, then by end position. *)
Definition compareRangesUsingStarts (a b : Range) : Z :=
  if startLineNumber a =? startLineNumber b then
    if startColumn a =? startColumn b then
      if endLineNumber a =? endLineNumber b
      then endColumn a - endColumn b
      else endLineNumber a - endLineNumber b
    else startColumn a - startColumn b
  else startLineNumber a - startLineNumber b.

Definition collapseToEnd (r : Range) : Range :=
  new (endLineNumber r) (endColumn r) (endLineNumber r) (endColumn r).

(** The class invariant: the start is at or before the end. *)
Definition ordered (r : Range) : Prop :=
  Position.isBeforeOrEqual (getStartPosition r) (getEndPosition r) = true.
End Range.

(** Modelled from the spec: [Selection] of core/selection.ts is not under src;
    a selection is a range that remembers on which side it was anchored.  The
    record keeps the anchor and the caret; the inherited range is computed
    from them the way the constructor does. *)
Record Selection := mkSelection {
  selectionStartLineNumber : Z;
  selectionStartColumn : Z;
  positionLineNumber : Z;
  positionColumn : Z
}.

Inductive SelectionDirection := LTR | RTL.

Module Selection.
(** [new Selection(selectionStartLineNumber, selectionStartColumn,
    positionLineNumber, positionColumn)] *)
Definition new := mkSelection.

(** The [Range] a selection extends. *)
Definition toRange (s : Selection) : Range :=
  Range.new (selectionStartLineNumber s) (selectionStartColumn s)
            (positionLineNumber s) (positionColumn s).

Definition isEmpty (s : Selection) : bool := Range.isEmpty (toRange s).
Definition getStartPosition (s : Selection) : Position :=
  Range.getStartPosition (toRange s).
Definition getEndPosition (s : Selection) : Position :=
  Range.getEndPosition (toRange s).

Definition getPosition (s : Selection) : Position :=
  mkPosition (positionLineNumber s) (positionColumn s).

Definition getSelectionStart (s : Selection) : Position :=
  mkPosition (selectionStartLineNumber s) (selectionStartColumn s).

Definition equalsSelection (a b : Selection) : bool :=
  (selectionStartLineNumber a =? selectionStartLineNumber b)
  && (selectionStartColumn a =? selectionStartColumn b)
  && (positionLineNumber a =? positionLineNumber b)
  && (positionColumn a =? positionColumn b).

Definition getDirection (s : Selection) : SelectionDirection :=
  if (selectionStartLineNumber s =? startLineNumber (toRange s))
     && (selectionStartColumn s =? startColumn (toRange s))
  then LTR else RTL.

Definition fromPositions (a b : Position) : Selection :=
  new (lineNumber a) (column a) (lineNumber b) (column b).

Definition fromRange (r : Range) (d : SelectionDirection) : Selection :=
  match d with
  | LTR => new (startLineNumber r) (startColumn r) (endLineNumber r) (endColumn r)
  | RTL => new (endLineNumber r) (endColumn r) (startLineNumber r) (startColumn r)
  end.

Definition plusRange (a b : Selection) : Range :=
  Range.plusRange (toRange a) (toRange b).
End Selection.

Coercion Selection.toRange : Selection >-> Range.

(** ** Cursor states (cursorCommon.ts) *)

Inductive SelectionStartKind := Simple | Word | Line.

(** Modelled from the spec: [SingleCursorState] of cursorCommon.ts is not under
    src; the state of a cursor in one coordinate space: the selection-start
    range, its kind, its leftover columns, the position and its leftover
    columns.  The [selection] of a state runs from the selection start to the
    position. *)
Record SingleCursorState := mkSingleCursorState {
  selectionStart : Range;
  selectionStartKind : SelectionStartKind;
  selectionStartLeftoverVisibleColumns : Z;
  position : Position;
  leftoverVisibleColumns : Z
}.

Module SingleCursorState.
Definition new := mkSingleCursorState.

Definition selection (s : SingleCursorState) : Selection :=
  if Range.isEmpty (selectionStart s)
     || negb (Position.isBeforeOrEqual (position s)
                (Range.getStartPosition (selectionStart s)))
  then Selection.fromPositions (Range.getStartPosition (selectionStart s)) (position s)
  else Selection.fromPositions (Range.getEndPosition (selectionStart s)) (position s).
End SingleCursorState.

(** A state of which one side may be missing ([PartialCursorState]). *)
Record PartialCursorState := mkPartialCursorState {
  p_modelState : option SingleCursorState;
  p_viewState : option SingleCursorState
}.

Record CursorState := mkCursorState {
  cs_modelState : SingleCursorState;
  cs_viewState : SingleCursorState
}.

Module CursorState.
Definition fromModelState (modelState : SingleCursorState) : PartialCursorState :=
  mkPartialCursorState (Some modelState) None.

Definition fromModelSelection (s : Selection) : PartialCursorState :=
  fromModelState
    (SingleCursorState.new
       (Range.fromPositions (Selection.getSelectionStart s) (Selection.getSelectionStart s))
       Simple 0
       (Selection.getPosition s) 0).

Definition fromModelSelections (l : list Selection) : list PartialCursorState :=
  fromModelSelection <$> l.
End CursorState.

(** ** The collaborators a cursor works against *)

Inductive PositionAffinity :=
  | AffinityLeft | AffinityRight | AffinityNone | AffinityLeftOfInjectedText
  | AffinityRightOfInjectedText.

Inductive TrackedRangeStickiness :=
  | AlwaysGrowsWhenTypingAtEdges | NeverGrowsWhenTypingAtEdges
  | GrowsOnlyWhenTypingBefore | GrowsOnlyWhenTypingAfter.

(** The part of the simple model ([ICursorSimpleModel]) the code reads: the
    interface is implemented outside src and is taken as given. *)
Record ICursorSimpleModel := mkSimpleModel {
  getLineCount : Z;
  getLineContent : Z -> string;
  getLineMaxColumn : Z -> Z;
  normalizePosition : Position -> PositionAffinity -> Position
}.

(** The validating part of the text model ([ITextModel]). *)
Record ITextModel := mkTextModel {
  validatePosition : Position -> Position;
  validateRange : Range -> Range
}.

Record ICoordinatesConverter := mkCoordinatesConverter {
  convertViewPositionToModelPosition : Position -> Position;
  convertViewRangeToModelRange : Range -> Range;
  convertModelPositionToViewPosition : Position -> Position;
  validateViewPosition : Position -> Position -> Position;
  validateViewRange : Range -> Range -> Range
}.

Inductive EditorAutoClosingStrategy :=
  | ClosingAlways | ClosingLanguageDefined | ClosingBeforeWhitespace | ClosingNever.

Inductive EditorAutoClosingEditStrategy :=
  | EditAlways | EditAuto | EditNever.

Record StandardAutoClosingPairConditional := mkPair {
  pair_open : string;
  pair_close : string
}.

(** The part of [CursorConfiguration] the code reads; its two column
    conversions are methods of the configuration object. *)
Record CursorConfiguration := mkCursorConfiguration {
  useTabStops : bool;
  indentSize : Z;
  emptySelectionClipboard : bool;
  multiCursorMergeOverlapping : bool;
  autoClosingDelete : EditorAutoClosingEditStrategy;
  autoClosingBrackets : EditorAutoClosingStrategy;
  autoClosingQuotes : EditorAutoClosingStrategy;
  autoClosingPairsOpenByEnd : gmap string (list StandardAutoClosingPairConditional);
  visibleColumnFromColumn : ICursorSimpleModel -> Position -> Z;
  columnFromVisibleColumn : ICursorSimpleModel -> Z -> Z -> Z
}.

(** [CursorContext] (cursorContext.ts): the four collaborators, read only. *)
Record CursorContext := mkCursorContext {
  model : ITextModel;
  viewModel : ICursorSimpleModel;
  coordinatesConverter : ICoordinatesConverter;
  cursorConfig : CursorConfiguration
}.

(** ** The store: tracked ranges and cursor objects *)

(** Modelled from the spec: the tracked-range table of the document
    ([_setTrackedRange] and [_getTrackedRange] of the text model, not under
    src): [setTrackedRange(existingId|null, newRange|null, stickiness)] gives
    a new id to a range when there is none, moves the range of an existing id,
    releases the id when the new range is null, and answers the id or null. *)
Record TrackedRanges := mkTrackedRanges {
  tr_table : gmap nat Range;
  tr_next : nat
}.

Definition _setTrackedRange (t : TrackedRanges) (id : option nat)
    (newRange : option Range) (s : TrackedRangeStickiness)
  : TrackedRanges * option nat :=
  match id ≫= (λ i, const i <$> tr_table t !! i), newRange with
  | None, None => (t, None)
  | None, Some r =>
      (mkTrackedRanges (<[tr_next t := r]> (tr_table t)) (S (tr_next t)),
       Some (tr_next t))
  | Some i, None => (mkTrackedRanges (delete i (tr_table t)) (tr_next t), None)
  | Some i, Some r => (mkTrackedRanges (<[i := r]> (tr_table t)) (tr_next t), Some i)
  end.

Definition _getTrackedRange (t : TrackedRanges) (id : nat) : option Range :=
  tr_table t !! id.

(** A cursor object ([class Cursor]). *)
Record Cursor := mkCursor {
  modelState : SingleCursorState;
  viewState : SingleCursorState;
  _selTrackedRange : option nat;
  _trackSelection : bool
}.

(** Addresses of cursor objects. *)
Abbreviation loc := nat (only parsing).

(** What the code shares by reference: the cursor objects, the document's
    tracked ranges, and a record of the secondary cursors removed so far, each
    with the array index it was removed from (kept for the proofs only). *)
Record Store := mkStore {
  heap : list Cursor;
  tracked : TrackedRanges;
  removed : list (Z * loc)
}.

(** ** One cursor (oneCursor.ts) *)

Module Cursor.

Definition _validatePositionWithCache (viewModel : ICursorSimpleModel)
    (position cacheInput cacheOutput : Position) : Position :=
  if Position.equals position cacheInput then cacheOutput
  else normalizePosition viewModel position AffinityNone.

Definition _validateViewState (viewModel : ICursorSimpleModel)
    (viewState : SingleCursorState) : SingleCursorState :=
  let position := position viewState in
  let sStartPosition := Range.getStartPosition (selectionStart viewState) in
  let sEndPosition := Range.getEndPosition (selectionStart viewState) in
  let validPosition := normalizePosition viewModel position AffinityNone in
  let validSStartPosition :=
    _validatePositionWithCache viewModel sStartPosition position validPosition in
  let validSEndPosition :=
    _validatePositionWithCache viewModel sEndPosition sStartPosition validSStartPosition in
  if Position.equals position validPosition
     && Position.equals sStartPosition validSStartPosition
     && Position.equals sEndPosition validSEndPosition
  then viewState
  else
    SingleCursorState.new
      (Range.fromPositions validSStartPosition validSEndPosition)
      (selectionStartKind viewState)
      (selectionStartLeftoverVisibleColumns viewState
       + column sStartPosition - column validSStartPosition)
      validPosition
      (leftoverVisibleColumns viewState + column position - column validPosition).

(** The two states [_setState] assigns, or [None] when it returns early
    because neither state was given. *)
Definition _computeStates (context : CursorContext)
    (modelState viewState : option SingleCursorState)
  : option (SingleCursorState * SingleCursorState) :=
  let viewState := _validateViewState (viewModel context) <$> viewState in
  let modelState' :=
    match modelState with
    | None =>
        match viewState with
        | None => None
        | Some viewState =>
            (* We only have the view state => compute the model state *)
            let selectionStart :=
              validateRange (model context)
                (convertViewRangeToModelRange (coordinatesConverter context)
                   (selectionStart viewState)) in
            let position :=
              validatePosition (model context)
                (convertViewPositionToModelPosition (coordinatesConverter context)
                   (position viewState)) in
            Some (SingleCursorState.new selectionStart (selectionStartKind viewState)
                    (selectionStartLeftoverVisibleColumns viewState)
                    position (leftoverVisibleColumns viewState))
        end
    | Some modelState =>
        (* Validate new model state *)
        let selectionStart' := validateRange (model context) (selectionStart modelState) in
        let selectionStartLeftoverVisibleColumns' :=
          if Range.equalsRange (selectionStart modelState) selectionStart'
          then selectionStartLeftoverVisibleColumns modelState else 0 in
        let position' := validatePosition (model context) (position modelState) in
        let leftoverVisibleColumns' :=
          if Position.equals (position modelState) position'
          then leftoverVisibleColumns modelState else 0 in
        Some (SingleCursorState.new selectionStart' (selectionStartKind modelState)
                selectionStartLeftoverVisibleColumns' position' leftoverVisibleColumns')
    end in
  match modelState' with
  | None => None
  | Some modelState =>
      let viewState' :=
        match viewState with
        | None =>
            (* We only have the model state => compute the view state *)
            let viewSelectionStart1 :=
              convertModelPositionToViewPosition (coordinatesConverter context)
                (mkPosition (startLineNumber (selectionStart modelState))
                            (startColumn (selectionStart modelState))) in
            let viewSelectionStart2 :=
              convertModelPositionToViewPosition (coordinatesConverter context)
                (mkPosition (endLineNumber (selectionStart modelState))
                            (endColumn (selectionStart modelState))) in
            let viewSelectionStart :=
              Range.new (lineNumber viewSelectionStart1) (column viewSelectionStart1)
                        (lineNumber viewSelectionStart2) (column viewSelectionStart2) in
            let viewPosition :=
              convertModelPositionToViewPosition (coordinatesConverter context)
                (position modelState) in
            SingleCursorState.new viewSelectionStart (selectionStartKind modelState)
              (selectionStartLeftoverVisibleColumns modelState)
              viewPosition (leftoverVisibleColumns modelState)
        | Some viewState =>
            (* Validate new view state *)
            let viewSelectionStart :=
              validateViewRange (coordinatesConverter context)
                (selectionStart viewState) (selectionStart modelState) in
            let viewPosition :=
              validateViewPosition (coordinatesConverter context)
                (position viewState) (position modelState) in
            SingleCursorState.new viewSelectionStart (selectionStartKind modelState)
              (selectionStartLeftoverVisibleColumns modelState)
              viewPosition (leftoverVisibleColumns modelState)
        end in
      Some (modelState, viewState')
  end.

Definition _updateTrackedRange (t : TrackedRanges) (c : Cursor)
  : TrackedRanges * Cursor :=
  if negb (_trackSelection c) then (t, c)
  else
    let '(t', id) :=
      _setTrackedRange t (_selTrackedRange c)
        (Some (Selection.toRange (SingleCursorState.selection (modelState c))))
        AlwaysGrowsWhenTypingAtEdges in
    (t', mkCursor (modelState c) (viewState c) id (_trackSelection c)).

Definition _removeTrackedRange (t : TrackedRanges) (c : Cursor)
  : TrackedRanges * Cursor :=
  let '(t', id) :=
    _setTrackedRange t (_selTrackedRange c) None AlwaysGrowsWhenTypingAtEdges in
  (t', mkCursor (modelState c) (viewState c) id (_trackSelection c)).

(** [_setState] on the cursor object itself. *)
Definition _setState_obj (context : CursorContext) (t : TrackedRanges) (c : Cursor)
    (modelState viewState : option SingleCursorState) : TrackedRanges * Cursor :=
  match _computeStates context modelState viewState with
  | None => (t, c)
  | Some (m, v) =>
      _updateTrackedRange t (mkCursor m v (_selTrackedRange c) (_trackSelection c))
  end.

(** Running a method of the cursor at address [this]. *)
Definition on_cursor (f : TrackedRanges -> Cursor -> TrackedRanges * Cursor)
    (s : Store) (this : loc) : option Store :=
  c ← heap s !! this;
  let '(t', c') := f (tracked s) c in
  Some (mkStore (<[this := c']> (heap s)) t' (removed s)).

Definition _setState (context : CursorContext) (s : Store) (this : loc)
    (modelState viewState : option SingleCursorState) : option Store :=
  on_cursor (λ t c, _setState_obj context t c modelState viewState) s this.

Definition setState := _setState.

Definition ensureValidState (context : CursorContext) (s : Store) (this : loc)
  : option Store :=
  on_cursor (λ t c, _setState_obj context t c (Some (modelState c)) (Some (viewState c)))
    s this.

Definition dispose (context : CursorContext) (s : Store) (this : loc) : option Store :=
  on_cursor _removeTrackedRange s this.

Definition startTrackingSelection (context : CursorContext) (s : Store) (this : loc)
  : option Store :=
  on_cursor (λ t c,
    _updateTrackedRange t (mkCursor (modelState c) (viewState c) (_selTrackedRange c) true))
    s this.

Definition stopTrackingSelection (context : CursorContext) (s : Store) (this : loc)
  : option Store :=
  on_cursor (λ t c,
    _removeTrackedRange t (mkCursor (modelState c) (viewState c) (_selTrackedRange c) false))
    s this.

Definition asCursorState (c : Cursor) : CursorState :=
  mkCursorState (modelState c) (viewState c).

(** [None] when the cursor has no tracked range or the document does not
    know it (the source dereferences null there). *)
Definition readSelectionFromMarkers (context : CursorContext) (s : Store) (this : loc)
  : option Selection :=
  c ← heap s !! this;
  id ← _selTrackedRange c;
  range ← _getTrackedRange (tracked s) id;
  let direction := Selection.getDirection (SingleCursorState.selection (modelState c)) in
  if Selection.isEmpty (SingleCursorState.selection (modelState c))
     && negb (Range.isEmpty range)
  then
    (* Avoid selecting text when recovering from markers *)
    Some (Selection.fromRange (Range.collapseToEnd range) direction)
  else Some (Selection.fromRange range direction).

(** [new Cursor(context)]: a cursor at the start of the document, allocated
    at the next free address. *)
Definition new (context : CursorContext) (s : Store) : Store * loc :=
  let init :=
    SingleCursorState.new (Range.new 1 1 1 1) Simple 0 (mkPosition 1 1) 0 in
  let '(t', c) :=
    _setState_obj context (tracked s) (mkCursor init init None true)
      (Some init) (Some init) in
  (mkStore (heap s ++ [c]) t' (removed s), length (heap s)).

End Cursor.

(** ** Arrays *)

Module Array.
(** [Array.prototype.sort(compareFn)].  The sort is stable; it is modelled as
    an insertion sort that takes the elements in index order and puts each
    one before the first already placed element it compares strictly below,
    the comparator being called with the later element first.  For a
    comparator that is a consistent order every stable sort gives this
    result. *)
Fixpoint sort_insert {A} (compareFn : A -> A -> Z) (x : A) (sorted : list A) : list A :=
  match sorted with
  | [] => [x]
  | y :: rest =>
      if compareFn x y <? 0 then x :: y :: rest
      else y :: sort_insert compareFn x rest
  end.

Definition sort {A} (compareFn : A -> A -> Z) (l : list A) : list A :=
  foldl (λ sorted x, sort_insert compareFn x sorted) [] l.

(** [a[i]] for a number [i]: [None] is [undefined]. *)
Definition get {A} (a : list A) (i : Z) : option A :=
  if i <? 0 then None else a !! Z.to_nat i.

(** [a.splice(start, 1)]: a negative start counts from the end. *)
Definition splice1 {A} (a : list A) (start : Z) : list A :=
  let len := Z.of_nat (length a) in
  let k := if start <? 0 then Z.max (len + start) 0 else Z.min start len in
  delete (Z.to_nat k) a.

(** [a[i] = x] for an index inside the array. *)
Definition set {A} (a : list A) (i : Z) (x : A) : list A :=
  if i <? 0 then a else <[Z.to_nat i := x]> a.
End Array.

(** [compareBy(selector, comparator)] of base/common/arrays.ts. *)
Definition compareBy {A B} (selector : A -> B) (comparator : B -> B -> Z)
  : A -> A -> Z :=
  λ a b, comparator (selector a) (selector b).

(** ** Delete operations (cursorDeleteOperations.ts) *)

Inductive EditOperationType :=
  | Other | TypingOther | DeletingLeft | DeletingRight
  | TypingFirstSpace | TypingConsecutiveSpace.

Definition EditOperationType_eqb (a b : EditOperationType) : bool :=
  match a, b with
  | Other, Other | TypingOther, TypingOther | DeletingLeft, DeletingLeft
  | DeletingRight, DeletingRight | TypingFirstSpace, TypingFirstSpace
  | TypingConsecutiveSpace, TypingConsecutiveSpace => true
  | _, _ => false
  end.

(** [new ReplaceCommand(range, text)] *)
Record ReplaceCommand := mkReplaceCommand {
  _range : Range;
  _text : string
}.

Abbreviation ICommand := ReplaceCommand.

Record EditOperationResult := mkEditOperationResult {
  type : EditOperationType;
  commands : list (option ICommand);
  shouldPushStackElementBefore : bool;
  shouldPushStackElementAfter : bool
}.

(** JavaScript strings: [s.length] and [s.charAt(i)] (the empty string
    outside the string). *)
Definition str_length (s : string) : Z := Z.of_nat (String.length s).

Definition charAt (s : string) (i : Z) : string :=
  if i <? 0 then EmptyString else String.substring (Z.to_nat i) 1 s.

Module strings.
(** Modelled from the spec: [firstNonWhitespaceIndex] of base/common/strings.ts
    is not under src; the index of the first character that is neither a
    space nor a tab (the end of the leading indentation), or -1 when the whole
    string is whitespace. *)
Fixpoint firstNonWhitespaceIndex_from (i : Z) (str : string) : Z :=
  match str with
  | EmptyString => -1
  | String c rest =>
      if Ascii.eqb c (Ascii.ascii_of_nat 32) || Ascii.eqb c (Ascii.ascii_of_nat 9)
      then firstNonWhitespaceIndex_from (i + 1) rest
      else i
  end.

Definition firstNonWhitespaceIndex (str : string) : Z :=
  firstNonWhitespaceIndex_from 0 str.
End strings.

Module CursorColumns.
(** Modelled from the spec: [prevIndentTabStop] of core/cursorColumns.ts is
    not under src; the previous indent stop of a visible column, computed
    from the configured indent size: the largest multiple of the indent size
    strictly below the column, and 0 at column 0.  ([Z.rem] is the remainder
    of JavaScript's [%].) *)
Definition prevIndentTabStop (column indentSize : Z) : Z :=
  Z.max 0 (column - 1 - Z.rem (column - 1) indentSize).
End CursorColumns.

Module DeleteOperations.
Section Imports.

(** Functions of modules that are not under src, taken as given:
    [MoveOperations.right] (one step to the right, aware of graphemes and of
    line ends), [strings.getLeftDeleteOffset] (the offset one grapheme to the
    left) and [isQuote] of cursorCommon.ts. *)
Context (MoveOperations_right :
           CursorConfiguration -> ICursorSimpleModel -> Position -> Position).
Context (strings_getLeftDeleteOffset : Z -> string -> Z).
Context (isQuote : string -> bool).

(** The range forward-delete removes for one selection. *)
Definition deleteRight_range (config : CursorConfiguration)
    (model : ICursorSimpleModel) (selection : Selection) : Range :=
  if Selection.isEmpty selection then
    let position := Selection.getPosition selection in
    let rightOfPosition := MoveOperations_right config model position in
    Range.new (lineNumber rightOfPosition) (column rightOfPosition)
              (lineNumber position) (column position)
  else Selection.toRange selection.

(** The body of the loops of [deleteRight] and [deleteLeft] once the delete
    range of a selection is known: the flag and the commands from index [i]
    on. *)
Fixpoint delete_loop (range_of : Selection -> Range) (selections : list Selection)
    (shouldPushStackElementBefore : bool) : bool * list (option ICommand) :=
  match selections with
  | [] => (shouldPushStackElementBefore, [])
  | selection :: rest =>
      let deleteSelection := range_of selection in
      if Range.isEmpty deleteSelection then
        (* commands[i] = null; continue *)
        let '(b, cs) := delete_loop range_of rest shouldPushStackElementBefore in
        (b, None :: cs)
      else
        let shouldPushStackElementBefore :=
          if negb (startLineNumber deleteSelection =? endLineNumber deleteSelection)
          then true else shouldPushStackElementBefore in
        let '(b, cs) := delete_loop range_of rest shouldPushStackElementBefore in
        (b, Some (mkReplaceCommand deleteSelection EmptyString) :: cs)
  end.

Definition deleteRight (prevEditOperationType : EditOperationType)
    (config : CursorConfiguration) (model : ICursorSimpleModel)
    (selections : list Selection) : bool * list (option ICommand) :=
  delete_loop (deleteRight_range config model) selections
    (negb (EditOperationType_eqb prevEditOperationType DeletingRight)).

(** One round of the loop of [isAutoClosingPairDelete]: [true] when the
    selection passes every test. *)
Definition isAutoClosingPairDelete_one
    (autoClosingDelete : EditorAutoClosingEditStrategy)
    (autoClosingBrackets autoClosingQuotes : EditorAutoClosingStrategy)
    (autoClosingPairsOpen : gmap string (list StandardAutoClosingPairConditional))
    (model : ICursorSimpleModel) (autoClosedCharacters : list Range)
    (selection : Selection) : bool :=
  let position := Selection.getPosition selection in
  if negb (Selection.isEmpty selection) then false else
  let lineText := getLineContent model (lineNumber position) in
  if (column position <? 2) || (column position >=? str_length lineText + 1)
  then false else
  let character := charAt lineText (column position - 2) in
  match autoClosingPairsOpen !! character with
  | None => false
  | Some autoClosingPairCandidates =>
      if (if isQuote character
          then match autoClosingQuotes with ClosingNever => true | _ => false end
          else match autoClosingBrackets with ClosingNever => true | _ => false end)
      then false else
      let afterCharacter := charAt lineText (column position - 1) in
      let foundAutoClosingPair :=
        existsb (λ autoClosingPairCandidate,
                   String.eqb (pair_open autoClosingPairCandidate) character
                   && String.eqb (pair_close autoClosingPairCandidate) afterCharacter)
                autoClosingPairCandidates in
      if negb foundAutoClosingPair then false else
      (* Must delete the pair only if it was automatically inserted by the editor *)
      match autoClosingDelete with
      | EditAuto =>
          existsb (λ autoClosedCharacter,
                     (lineNumber position =? startLineNumber autoClosedCharacter)
                     && (column position =? startColumn autoClosedCharacter))
                  autoClosedCharacters
      | _ => true
      end
  end.

Definition isAutoClosingPairDelete
    (autoClosingDelete : EditorAutoClosingEditStrategy)
    (autoClosingBrackets autoClosingQuotes : EditorAutoClosingStrategy)
    (autoClosingPairsOpen : gmap string (list StandardAutoClosingPairConditional))
    (model : ICursorSimpleModel) (selections : list Selection)
    (autoClosedCharacters : list Range) : bool :=
  match autoClosingBrackets, autoClosingQuotes with
  | ClosingNever, ClosingNever => false
  | _, _ =>
      match autoClosingDelete with
      | EditNever => false
      | _ =>
          forallb (isAutoClosingPairDelete_one autoClosingDelete autoClosingBrackets
                     autoClosingQuotes autoClosingPairsOpen model autoClosedCharacters)
                  selections
      end
  end.

Definition _runAutoClosingPairDelete (config : CursorConfiguration)
    (model : ICursorSimpleModel) (selections : list Selection)
  : bool * list (option ICommand) :=
  (true,
   (λ selection,
      let position := Selection.getPosition selection in
      let deleteSelection :=
        Range.new (lineNumber position) (column position - 1)
                  (lineNumber position) (column position + 1) in
      Some (mkReplaceCommand deleteSelection EmptyString)) <$> selections).

Definition getPositionAfterDeleteLeft (position : Position)
    (model : ICursorSimpleModel) : Position :=
  if column position >? 1 then
    (* Convert 1-based columns to 0-based offsets and back. *)
    let idx :=
      strings_getLeftDeleteOffset (column position - 1)
        (getLineContent model (lineNumber position)) in
    Position.with_column position (idx + 1)
  else if lineNumber position >? 1 then
    let newLine := lineNumber position - 1 in
    mkPosition newLine (getLineMaxColumn model newLine)
  else position.

Definition getDeleteRange (selection : Selection) (model : ICursorSimpleModel)
    (config : CursorConfiguration) : Range :=
  if negb (Selection.isEmpty selection) then Selection.toRange selection else
  let position := Selection.getPosition selection in
  let oneToTheLeft :=
    Range.fromPositions (getPositionAfterDeleteLeft position model) position in
  (* Unintend when using tab stops and cursor is within indentation *)
  if useTabStops config && (column position >? 1) then
    let lineContent := getLineContent model (lineNumber position) in
    let firstNonWhitespaceIndex := strings.firstNonWhitespaceIndex lineContent in
    let lastIndentationColumn :=
      if firstNonWhitespaceIndex =? -1
      then (* entire string is whitespace *) str_length lineContent + 1
      else firstNonWhitespaceIndex + 1 in
    if column position <=? lastIndentationColumn then
      let fromVisibleColumn := visibleColumnFromColumn config model position in
      let toVisibleColumn :=
        CursorColumns.prevIndentTabStop fromVisibleColumn (indentSize config) in
      let toColumn :=
        columnFromVisibleColumn config model (lineNumber position) toVisibleColumn in
      Range.new (lineNumber position) toColumn (lineNumber position) (column position)
    else oneToTheLeft
  else oneToTheLeft.

Definition deleteLeft (prevEditOperationType : EditOperationType)
    (config : CursorConfiguration) (model : ICursorSimpleModel)
    (selections : list Selection) (autoClosedCharacters : list Range)
  : bool * list (option ICommand) :=
  if isAutoClosingPairDelete (autoClosingDelete config) (autoClosingBrackets config)
       (autoClosingQuotes config) (autoClosingPairsOpenByEnd config) model selections
       autoClosedCharacters
  then _runAutoClosingPairDelete config model selections
  else
    delete_loop (λ selection, getDeleteRange selection model config) selections
      (negb (EditOperationType_eqb prevEditOperationType DeletingLeft)).

(** The comparator [cut] sorts with:
    [(a, b) => Position.compare(a.getStartPosition(), b.getEndPosition())]. *)
Definition cut_compare (a b : Selection) : Z :=
  Position.compare (Selection.getStartPosition a) (Selection.getEndPosition b).

(** The order in which [cut] takes the selections: [selections.sort] with
    that comparator, by the insertion of [Array.sort].  The comparator orders
    selections that lie apart (carets, and selections that do not overlap):
    for these the result is the one order by position, whatever way the
    engine sorts.  On selections that overlap the comparator is not a
    consistent order, and the order an engine returns may differ from the one
    computed here: the properties below fix the order of the commands of
    [cut] for selections that lie apart only, and state for the other
    selections only what holds in every order. *)
Definition cut_sort (selections : list Selection) : list Selection :=
  Array.sort cut_compare selections.

Fixpoint cut_loop (config : CursorConfiguration) (model : ICursorSimpleModel)
    (selections : list Selection) (lastCutRange : option Range)
  : list (option ICommand) :=
  match selections with
  | [] => []
  | selection :: rest =>
      if Selection.isEmpty selection then
        if emptySelectionClipboard config then
          (* This is a full line cut *)
          let position := Selection.getPosition selection in
          let '(startLineNumber', startColumn', endLineNumber', endColumn') :=
            if lineNumber position <? getLineCount model then
              (* Cutting a line in the middle of the model *)
              (lineNumber position, 1, lineNumber position + 1, 1)
            else if (lineNumber position >? 1)
                    && negb (match lastCutRange with
                             | Some r => endLineNumber r =? lineNumber position
                             | None => false
                             end) then
              (* Cutting the last line & there are more than 1 lines in the model
                 & a previous cut operation does not touch the current cut operation *)
              (lineNumber position - 1, getLineMaxColumn model (lineNumber position - 1),
               lineNumber position, getLineMaxColumn model (lineNumber position))
            else
              (* Cutting the single line that the model contains *)
              (lineNumber position, 1,
               lineNumber position, getLineMaxColumn model (lineNumber position)) in
          let deleteSelection :=
            Range.new startLineNumber' startColumn' endLineNumber' endColumn' in
          (if negb (Range.isEmpty deleteSelection)
           then Some (mkReplaceCommand deleteSelection EmptyString)
           else None)
          :: cut_loop config model rest (Some deleteSelection)
        else
          (* Cannot cut empty selection *)
          None :: cut_loop config model rest lastCutRange
      else
        Some (mkReplaceCommand (Selection.toRange selection) EmptyString)
        :: cut_loop config model rest lastCutRange
  end.

Definition cut (config : CursorConfiguration) (model : ICursorSimpleModel)
    (selections : list Selection) : EditOperationResult :=
  mkEditOperationResult Other
    (cut_loop config model (cut_sort selections) None) true true.

End Imports.
End DeleteOperations.

(** ** The cursor collection (cursorCollection.ts) *)

(** The collection object: [cursors] holds the addresses of its cursor
    objects, the primary cursor first. *)
Record CursorCollection := mkCursorCollection {
  context : CursorContext;
  cursors : list loc;
  lastAddedCursorIndex : Z
}.

(** An entry of the snapshot [normalize] sorts. *)
Record SortedCursor := mkSortedCursor {
  index : Z;
  selection : Selection
}.

(** The variables of the loop of [normalize]: the store and the collection,
    the local copy [cursors] of the array, the snapshot and the loop index. *)
Record NormalizeState := mkNormalizeState {
  n_store : Store;
  n_this : CursorCollection;
  n_cursors : list loc;
  n_sortedCursors : list SortedCursor;
  n_sortedCursorIndex : Z
}.

(** [n] rounds of a loop whose body may throw. *)
Fixpoint repeatM {S : Type} (n : nat) (body : S -> option S) (s : S) : option S :=
  match n with
  | O => Some s
  | S n' => s' ← body s; repeatM n' body s'
  end.

Module CursorCollection.

Definition new (context : CursorContext) (s : Store) : Store * CursorCollection :=
  let '(s', c) := Cursor.new context s in
  (s', mkCursorCollection context [c] 0).

Definition updateContext (this : CursorCollection) (context : CursorContext)
  : CursorCollection :=
  mkCursorCollection context (cursors this) (lastAddedCursorIndex this).

Definition getSelections (s : Store) (this : CursorCollection) : option (list Selection) :=
  mapM (λ c, (λ o, SingleCursorState.selection (modelState o)) <$> heap s !! c)
       (cursors this).

Definition getViewSelections (s : Store) (this : CursorCollection)
  : option (list Selection) :=
  mapM (λ c, (λ o, SingleCursorState.selection (viewState o)) <$> heap s !! c)
       (cursors this).

Definition getAll (s : Store) (this : CursorCollection) : option (list CursorState) :=
  mapM (λ c, Cursor.asCursorState <$> heap s !! c) (cursors this).

Definition getPrimaryCursor (s : Store) (this : CursorCollection) : option CursorState :=
  c ← Array.get (cursors this) 0;
  Cursor.asCursorState <$> heap s !! c.

Definition _addSecondaryCursor (st : Store * CursorCollection)
  : Store * CursorCollection :=
  let '(s, this) := st in
  let '(s', c) := Cursor.new (context this) s in
  let cursors' := cursors this ++ [c] in
  (s', mkCursorCollection (context this) cursors' (Z.of_nat (length cursors') - 1)).

Definition getLastAddedCursorIndex (this : CursorCollection) : Z :=
  if (Z.of_nat (length (cursors this)) =? 1) || (lastAddedCursorIndex this =? 0)
  then 0 else lastAddedCursorIndex this.

Definition _removeSecondaryCursor (st : Store * CursorCollection) (removeIndex : Z)
  : option (Store * CursorCollection) :=
  let '(s, this) := st in
  let lastAddedCursorIndex' :=
    if lastAddedCursorIndex this >=? removeIndex + 1
    then lastAddedCursorIndex this - 1 else lastAddedCursorIndex this in
  c ← Array.get (cursors this) (removeIndex + 1);
  s' ← Cursor.dispose (context this) s c;
  Some (mkStore (heap s') (tracked s') (removed s' ++ [(removeIndex + 1, c)]),
        mkCursorCollection (context this)
          (Array.splice1 (cursors this) (removeIndex + 1))
          lastAddedCursorIndex').

(** The last loop of [_setSecondaryStates], from index [i] on. *)
Fixpoint _setSecondaryStates_assign (s : Store) (this : CursorCollection) (i : Z)
    (secondaryStates : list PartialCursorState) : option Store :=
  match secondaryStates with
  | [] => Some s
  | state :: rest =>
      c ← Array.get (cursors this) (i + 1);
      s' ← Cursor.setState (context this) s c (p_modelState state) (p_viewState state);
      _setSecondaryStates_assign s' this (i + 1) rest
  end.

Definition _setSecondaryStates (st : Store * CursorCollection)
    (secondaryStates : list PartialCursorState) : option (Store * CursorCollection) :=
  let secondaryCursorsLength := Z.of_nat (length (cursors st.2)) - 1 in
  let secondaryStatesLength := Z.of_nat (length secondaryStates) in
  st' ←
    (if secondaryCursorsLength <? secondaryStatesLength then
       let createCnt := secondaryStatesLength - secondaryCursorsLength in
       repeatM (Z.to_nat createCnt) (λ st, Some (_addSecondaryCursor st)) st
     else if secondaryCursorsLength >? secondaryStatesLength then
       let removeCnt := secondaryCursorsLength - secondaryStatesLength in
       repeatM (Z.to_nat removeCnt)
         (λ st, _removeSecondaryCursor st (Z.of_nat (length (cursors st.2)) - 2)) st
     else Some st);
  s' ← _setSecondaryStates_assign st'.1 st'.2 0 secondaryStates;
  Some (s', st'.2).

Definition setStates (st : Store * CursorCollection)
    (states : option (list PartialCursorState)) : option (Store * CursorCollection) :=
  match states with
  | None => Some st
  | Some states =>
      c ← Array.get (cursors st.2) 0;
      state0 ← Array.get states 0;
      s' ← Cursor.setState (context st.2) st.1 c (p_modelState state0) (p_viewState state0);
      _setSecondaryStates (s', st.2) (drop 1 states)
  end.

Definition setSelections (st : Store * CursorCollection) (selections : list Selection)
  : option (Store * CursorCollection) :=
  setStates st (Some (CursorState.fromModelSelections selections)).

Definition killSecondaryCursors (st : Store * CursorCollection)
  : option (Store * CursorCollection) :=
  _setSecondaryStates st [].

(** The snapshot of [normalize] before it is sorted, from index [i] on. *)
Fixpoint snapshot (s : Store) (i : Z) (cursors : list loc) : option (list SortedCursor) :=
  match cursors with
  | [] => Some []
  | c :: rest =>
      o ← heap s !! c;
      tail ← snapshot s (i + 1) rest;
      Some (mkSortedCursor i (SingleCursorState.selection (modelState o)) :: tail)
  end.

(** The value the loop of [normalize] gives to [shouldMergeCursors]. *)
Definition shouldMergeCursors (currentSelection nextSelection : Selection) : bool :=
  if Selection.isEmpty nextSelection || Selection.isEmpty currentSelection then
    (* Merge touching cursors if one of them is collapsed *)
    Position.isBeforeOrEqual (Selection.getStartPosition nextSelection)
                             (Selection.getEndPosition currentSelection)
  else
    (* Merge only overlapping cursors (i.e. allow touching ranges) *)
    Position.isBefore (Selection.getStartPosition nextSelection)
                      (Selection.getEndPosition currentSelection).

(** The merge of the looser into the winner, for two selections that differ:
    the store, the collection and the snapshot after it. *)
Definition merge_selections (st : NormalizeState)
    (looserIndex winnerIndex winnerSortedCursorIndex : Z)
    (looserSelection winnerSelection : Selection) : option NormalizeState :=
  let this := n_this st in
  let resultingRange := Selection.plusRange looserSelection winnerSelection in
  let looserSelectionIsLTR :=
    (selectionStartLineNumber looserSelection =? startLineNumber looserSelection)
    && (selectionStartColumn looserSelection =? startColumn looserSelection) in
  let winnerSelectionIsLTR :=
    (selectionStartLineNumber winnerSelection =? startLineNumber winnerSelection)
    && (selectionStartColumn winnerSelection =? startColumn winnerSelection) in
  (* Give more importance to the last added cursor *)
  let '(resultingSelectionIsLTR, lastAddedCursorIndex') :=
    if looserIndex =? lastAddedCursorIndex this
    then (looserSelectionIsLTR, winnerIndex)
    else (* Winner takes it all *) (winnerSelectionIsLTR, lastAddedCursorIndex this) in
  let resultingSelection :=
    if resultingSelectionIsLTR : bool
    then Selection.new (startLineNumber resultingRange) (startColumn resultingRange)
                       (endLineNumber resultingRange) (endColumn resultingRange)
    else Selection.new (endLineNumber resultingRange) (endColumn resultingRange)
                       (startLineNumber resultingRange) (startColumn resultingRange) in
  let sortedCursors' :=
    Array.set (n_sortedCursors st) winnerSortedCursorIndex
      (mkSortedCursor winnerIndex resultingSelection) in
  let resultingState := CursorState.fromModelSelection resultingSelection in
  c ← Array.get (n_cursors st) winnerIndex;
  s' ← Cursor.setState (context this) (n_store st) c
         (p_modelState resultingState) (p_viewState resultingState);
  Some (mkNormalizeState s'
          (mkCursorCollection (context this) (cursors this) lastAddedCursorIndex')
          (n_cursors st) sortedCursors' (n_sortedCursorIndex st)).

(** The body of [if (shouldMergeCursors)] once the places of the winner and
    of the looser in the snapshot are known. *)
Definition normalize_merge (st : NormalizeState)
    (winnerSortedCursorIndex looserSortedCursorIndex : Z) : option NormalizeState :=
  looser ← Array.get (n_sortedCursors st) looserSortedCursorIndex;
  winner ← Array.get (n_sortedCursors st) winnerSortedCursorIndex;
  let looserIndex := index looser in
  let winnerIndex := index winner in
  let looserSelection := selection looser in
  let winnerSelection := selection winner in
  st1 ←
    (if negb (Selection.equalsSelection looserSelection winnerSelection)
     then merge_selections st looserIndex winnerIndex winnerSortedCursorIndex
            looserSelection winnerSelection
     else Some st);
  let renumbered :=
    (λ sortedCursor,
       if index sortedCursor >? looserIndex
       then mkSortedCursor (index sortedCursor - 1) (selection sortedCursor)
       else sortedCursor) <$> n_sortedCursors st1 in
  let cursors' := Array.splice1 (n_cursors st1) looserIndex in
  let sortedCursors' := Array.splice1 renumbered looserSortedCursorIndex in
  '(s', this') ← _removeSecondaryCursor (n_store st1, n_this st1) (looserIndex - 1);
  Some (mkNormalizeState s' this' cursors' sortedCursors'
          (n_sortedCursorIndex st - 1 + 1)).

(** One round of the loop of [normalize], the increment of the loop index
    included. *)
Definition normalize_step (st : NormalizeState) : option NormalizeState :=
  let sortedCursorIndex := n_sortedCursorIndex st in
  current ← Array.get (n_sortedCursors st) sortedCursorIndex;
  next ← Array.get (n_sortedCursors st) (sortedCursorIndex + 1);
  let currentSelection := selection current in
  let nextSelection := selection next in
  let continue :=
    mkNormalizeState (n_store st) (n_this st) (n_cursors st) (n_sortedCursors st)
      (sortedCursorIndex + 1) in
  if negb (multiCursorMergeOverlapping (cursorConfig (context (n_this st))))
  then Some continue
  else if shouldMergeCursors currentSelection nextSelection then
    let winnerSortedCursorIndex :=
      if index current <? index next then sortedCursorIndex else sortedCursorIndex + 1 in
    let looserSortedCursorIndex :=
      if index current <? index next then sortedCursorIndex + 1 else sortedCursorIndex in
    normalize_merge st winnerSortedCursorIndex looserSortedCursorIndex
  else Some continue.

(** The loop of [normalize]; every round uses one unit of [fuel], and [None]
    is also the answer when the fuel runs out before the loop ends. *)
Fixpoint normalize_loop (fuel : nat) (st : NormalizeState) : option NormalizeState :=
  if n_sortedCursorIndex st <? Z.of_nat (length (n_sortedCursors st)) - 1 then
    match fuel with
    | O => None
    | S fuel' => st' ← normalize_step st; normalize_loop fuel' st'
    end
  else Some st.

Definition normalize (st : Store * CursorCollection) : option (Store * CursorCollection) :=
  let '(s, this) := st in
  if Z.of_nat (length (cursors this)) =? 1 then Some st else
  let cursors := cursors this in
  sortedCursors ← snapshot s 0 cursors;
  let sortedCursors :=
    Array.sort (compareBy (λ s, Selection.toRange (selection s))
                  Range.compareRangesUsingStarts) sortedCursors in
  st' ← normalize_loop (2 * length cursors)
          (mkNormalizeState s this cursors sortedCursors 0);
  Some (n_store st', n_this st').

(** [for (const cursor of this.cursors) { body(cursor) }] *)
Fixpoint forEachCursor (body : Store -> loc -> option Store) (s : Store)
    (cursors : list loc) : option Store :=
  match cursors with
  | [] => Some s
  | cursor :: rest => s' ← body s cursor; forEachCursor body s' rest
  end.

Definition dispose (st : Store * CursorCollection) : option Store :=
  forEachCursor (Cursor.dispose (context st.2)) st.1 (cursors st.2).

Definition startTrackingSelections (st : Store * CursorCollection) : option Store :=
  forEachCursor (Cursor.startTrackingSelection (context st.2)) st.1 (cursors st.2).

Definition stopTrackingSelections (st : Store * CursorCollection) : option Store :=
  forEachCursor (Cursor.stopTrackingSelection (context st.2)) st.1 (cursors st.2).

Definition ensureValidState (st : Store * CursorCollection) : option Store :=
  forEachCursor (Cursor.ensureValidState (context st.2)) st.1 (cursors st.2).

Definition readSelectionFromMarkers (st : Store * CursorCollection)
  : option (list Selection) :=
  mapM (Cursor.readSelectionFromMarkers (context st.2) st.1) (cursors st.2).

Definition getViewPositions (s : Store) (this : CursorCollection)
  : option (list Position) :=
  mapM (λ c, (λ o, position (viewState o)) <$> heap s !! c) (cursors this).

End CursorCollection.

(** ** Definitions used to state the properties *)

(** View-state validation as the specification words it, without the cache:
    the view model is asked for the position, for the start and for the end
    of the selection start. *)
Definition _validateViewState_direct (viewModel : ICursorSimpleModel)
    (viewState : SingleCursorState) : SingleCursorState :=
  let position := position viewState in
  let sStartPosition := Range.getStartPosition (selectionStart viewState) in
  let sEndPosition := Range.getEndPosition (selectionStart viewState) in
  let validPosition := normalizePosition viewModel position AffinityNone in
  let validSStartPosition := normalizePosition viewModel sStartPosition AffinityNone in
  let validSEndPosition := normalizePosition viewModel sEndPosition AffinityNone in
  if Position.equals position validPosition
     && Position.equals sStartPosition validSStartPosition
     && Position.equals sEndPosition validSEndPosition
  then viewState
  else
    SingleCursorState.new
      (Range.fromPositions validSStartPosition validSEndPosition)
      (selectionStartKind viewState)
      (selectionStartLeftoverVisibleColumns viewState
       + column sStartPosition - column validSStartPosition)
      validPosition
      (leftoverVisibleColumns viewState + column position - column validPosition).

(** The document state a cursor ends with when it is given a document state
    only and then the view state it derived from it, only. *)
Definition roundTrip (context : CursorContext) (modelState : SingleCursorState)
  : option SingleCursorState :=
  '(_, viewState) ← Cursor._computeStates context (Some modelState) None;
  '(modelState', _) ← Cursor._computeStates context None (Some viewState);
  Some modelState'.

(** A document state is valid when its selection start is an ordered range
    and validation against the document changes nothing. *)
Definition validModelState (context : CursorContext) (s : SingleCursorState) : Prop :=
  Range.ordered (selectionStart s)
  /\ validateRange (model context) (selectionStart s) = selectionStart s
  /\ validatePosition (model context) (position s) = position s.

(** A document position survives the trip through the view: the converter
    maps it to a view position that the view model leaves alone and that
    converts back to it. *)
Definition survivesView (context : CursorContext) (p : Position) : Prop :=
  let v := convertModelPositionToViewPosition (coordinatesConverter context) p in
  normalizePosition (viewModel context) v AffinityNone = v
  /\ convertViewPositionToModelPosition (coordinatesConverter context) v = p.

(** The converter converts a view range end by end. *)
Definition convertsRangesByEnds (context : CursorContext) : Prop :=
  forall r : Range,
    convertViewRangeToModelRange (coordinatesConverter context) r
    = Range.fromPositions
        (convertViewPositionToModelPosition (coordinatesConverter context)
           (Range.getStartPosition r))
        (convertViewPositionToModelPosition (coordinatesConverter context)
           (Range.getEndPosition r)).

(** The command of a delete range: none for an empty range. *)
Definition commandOf (r : Range) : option ICommand :=
  if Range.isEmpty r then None else Some (mkReplaceCommand r EmptyString).

(** One selection ends at or before the start of the other. *)
Definition endsBefore (a b : Selection) : Prop :=
  Position.isBeforeOrEqual (Selection.getEndPosition a) (Selection.getStartPosition b)
  = true.

(** Two selections do not overlap. *)
Definition apart (a b : Selection) : Prop := endsBefore a b \/ endsBefore b a.

(** The (start, end) order of two selections. *)
Definition startEndOrdered (a b : Selection) : Prop :=
  Range.compareRangesUsingStarts (Selection.toRange a) (Selection.toRange b) <= 0.

(** The invariant of a collection and its store: there is a primary cursor,
    no cursor object is held twice, and every cursor held is an object of the
    heap. *)
Definition wf (st : Store * CursorCollection) : Prop :=
  cursors st.2 <> []
  /\ NoDup (cursors st.2)
  /\ Forall (λ c, (c < length (heap st.1))%nat) (cursors st.2).

(** From [st] to [st'] the collection kept its primary cursor: there still is
    at least one cursor, the cursor at index 0 is the same object, and every
    cursor removed in between was removed from an index of 1 or more and is
    not the primary cursor. *)
Definition keepsPrimary (st st' : Store * CursorCollection) : Prop :=
  (1 <= length (cursors st'.2))%nat
  /\ cursors st'.2 !! 0%nat = cursors st.2 !! 0%nat
  /\ exists new,
       removed st'.1 = removed st.1 ++ new
       /\ Forall (λ r, 1 <= r.1 /\ cursors st.2 !! 0%nat <> Some r.2) new.

(** The invariant of the loop of [normalize], for a call that started in
    [st0]: the local copy of the array is the array of the collection, the
    collection is well formed and kept its primary cursor, the snapshot holds
    distinct indices into the array, and the loop index is not negative. *)
Definition NInv (st0 : Store * CursorCollection) (n : NormalizeState) : Prop :=
  n_cursors n = cursors (n_this n)
  /\ wf (n_store n, n_this n)
  /\ keepsPrimary st0 (n_store n, n_this n)
  /\ Forall (λ i, 0 <= i < Z.of_nat (length (n_cursors n))) (index <$> n_sortedCursors n)
  /\ NoDup (index <$> n_sortedCursors n)
  /\ 0 <= n_sortedCursorIndex n
  /\ context (n_this n) = context st0.2.

(** *** Example collaborators *)

(** A document whose validation changes nothing, seen through a view that
    shows it as it is. *)
Definition plainTextModel : ITextModel := mkTextModel (λ p, p) (λ r, r).

Definition plainConverter : ICoordinatesConverter :=
  mkCoordinatesConverter (λ p, p) (λ r, Range.fromPositions
                                          (Range.getStartPosition r)
                                          (Range.getEndPosition r))
                         (λ p, p) (λ p _, p) (λ r _, r).

(** A line of indentation followed by text, and the same line everywhere. *)
Definition plainSimpleModel (line : string) : ICursorSimpleModel :=
  mkSimpleModel 3 (λ _, line) (λ _, str_length line + 1) (λ p _, p).

(** A view model that moves every position right of column 5 to column 5. *)
Definition clampingSimpleModel : ICursorSimpleModel :=
  mkSimpleModel 3 (λ _, "abcd"%string) (λ _, 5)
    (λ p _, if column p >? 5 then mkPosition (lineNumber p) 5 else p).

(** A converter for a view in which line 2 is hidden (folded away): the
    positions of line 2 are shown at the end of line 1, and the lines below
    move up by one. *)
Definition foldedConverter : ICoordinatesConverter :=
  mkCoordinatesConverter
    (λ p, if lineNumber p >=? 2 then mkPosition (lineNumber p + 1) (column p) else p)
    (λ r, let toModel :=
            λ p, if lineNumber p >=? 2 then mkPosition (lineNumber p + 1) (column p)
                 else p in
          Range.fromPositions (toModel (Range.getStartPosition r))
                              (toModel (Range.getEndPosition r)))
    (λ p, if lineNumber p =? 2 then mkPosition 1 5
          else if lineNumber p >? 2 then mkPosition (lineNumber p - 1) (column p)
          else p)
    (λ p _, p) (λ r _, r).

(** The quote characters: the single quote, the double quote and the
    backtick. *)
Definition quoteCharacter (ch : string) : bool :=
  String.eqb ch (String (Ascii.ascii_of_nat 39) EmptyString)
  || String.eqb ch (String (Ascii.ascii_of_nat 34) EmptyString)
  || String.eqb ch (String (Ascii.ascii_of_nat 96) EmptyString).

(** One space is one visible column, and back: enough for lines without
    tabs and wide characters. *)
Definition plainConfiguration : CursorConfiguration :=
  mkCursorConfiguration true 4 true true EditAlways ClosingAlways ClosingAlways
    {[ "("%string := [mkPair "(" ")"] ]}
    (λ _ p, column p - 1) (λ _ _ visibleColumn, visibleColumn + 1).

Definition plainContext : CursorContext :=
  mkCursorContext plainTextModel (plainSimpleModel "abcdefghij") plainConverter
    plainConfiguration.

Definition clampingContext : CursorContext :=
  mkCursorContext plainTextModel clampingSimpleModel plainConverter plainConfiguration.

Definition foldedContext : CursorContext :=
  mkCursorContext plainTextModel (plainSimpleModel "abcd") foldedConverter
    plainConfiguration.

Definition caretState (line col leftover : Z) : SingleCursorState :=
  SingleCursorState.new (Range.new line col line col) Simple 0
    (mkPosition line col) leftover.

(** A cursor object whose two states are those of a selection. *)
Definition cursorAt (s : Selection) (id : nat) : Cursor :=
  let state :=
    SingleCursorState.new
      (Range.fromPositions (Selection.getSelectionStart s) (Selection.getSelectionStart s))
      Simple 0 (Selection.getPosition s) 0 in
  mkCursor state state (Some id) true.

(** A collection of two cursors whose selections overlap, in a document that
    validation leaves alone. *)
Definition overlappingPair : Store * CursorCollection :=
  (mkStore [cursorAt (Selection.new 1 1 1 5) 0; cursorAt (Selection.new 1 3 1 8) 1]
     (mkTrackedRanges {[ 0%nat := rawRange 1 1 1 5; 1%nat := rawRange 1 3 1 8 ]} 2) [],
   mkCursorCollection plainContext [0%nat; 1%nat] 1).

(** Positions in coordinates: at or before, and strictly before. *)
Definition atOrBefore (p q : Position) : Prop :=
  lineNumber p < lineNumber q \/ (lineNumber p = lineNumber q /\ column p <= column q).

Definition strictlyBefore (p q : Position) : Prop :=
  lineNumber p < lineNumber q \/ (lineNumber p = lineNumber q /\ column p < column q).

(** *** Definitions for the further properties *)

(** A document state is settled when validation against the document leaves
    its selection start and its position alone. *)
Definition settled (context : CursorContext) (m : SingleCursorState) : Prop :=
  validateRange (model context) (selectionStart m) = selectionStart m
  /\ validatePosition (model context) (position m) = position m.

(** The two states of the cursor object at an address. *)
Definition statesAt (s : Store) (c : nat) : option (SingleCursorState * SingleCursorState) :=
  (λ o, (modelState o, viewState o)) <$> heap s !! c.

(** The cursor at [c] carries the states [setState] derives from [state]. *)
Definition assigned (context : CursorContext) (s : Store) (c : nat)
    (state : PartialCursorState) : Prop :=
  statesAt s c = Cursor._computeStates context (p_modelState state) (p_viewState state).

(** What the loops of [_setSecondaryStates] that add and remove cursors keep:
    no cursor object disappears from the heap, and the states of the objects
    that were there stay. *)
Definition keepsStates (st st' : Store * CursorCollection) : Prop :=
  (length (heap st.1) <= length (heap st'.1))%nat
  /\ context st'.2 = context st.2
  /\ forall c, (c < length (heap st.1))%nat -> statesAt st'.1 c = statesAt st.1 c.

(** A state that gives [setState] something to do: one side at least. *)
Definition hasSide (state : PartialCursorState) : Prop :=
  p_modelState state <> None \/ p_viewState state <> None.

(** No two neighbours of the snapshot meet the merge condition of the loop of
    [normalize]. *)
Definition neighboursApart (sortedCursors : list SortedCursor) : Prop :=
  forall i current next,
    sortedCursors !! i = Some current -> sortedCursors !! S i = Some next ->
    CursorCollection.shouldMergeCursors (selection current) (selection next) = false.

(** [lastAddedCursorIndex] is an index of the array of cursors. *)
Definition lastAddedInRange (this : CursorCollection) : Prop :=
  0 <= lastAddedCursorIndex this < Z.of_nat (length (cursors this)).

(** A method that releases the tracked range of its cursor and registers
    none. *)
Definition releasing (f : TrackedRanges -> Cursor -> TrackedRanges * Cursor) : Prop :=
  forall t o,
    _selTrackedRange (f t o).2 = None
    /\ (forall id, _selTrackedRange o = Some id -> tr_table (f t o).1 !! id = None)
    /\ (forall id, tr_table t !! id = None -> tr_table (f t o).1 !! id = None).

(** What [dispose] and [stopTrackingSelections] leave of a collection in the
    store [s1]: every cursor is in the state it had, the document no longer
    tracks the range any of them held, and none of them holds one. *)
Definition released (st : Store * CursorCollection) (s1 : Store) : Prop :=
  CursorCollection.getAll s1 st.2 = CursorCollection.getAll st.1 st.2
  /\ forall c o, c ∈ cursors st.2 -> heap st.1 !! c = Some o ->
       (forall id, _selTrackedRange o = Some id -> tr_table (tracked s1) !! id = None)
       /\ Cursor.readSelectionFromMarkers (context st.2) s1 c = None.

(** The selections of a snapshot do not start earlier along the snapshot. *)
Definition startSorted (sortedCursors : list SortedCursor) : Prop :=
  forall i current next,
    sortedCursors !! i = Some current -> sortedCursors !! S i = Some next ->
    Position.isBeforeOrEqual (Selection.getStartPosition (selection current))
                             (Selection.getStartPosition (selection next)) = true.

(** The entry of the snapshot of [normalize] agrees with the collection: its
    index is the index of a cursor, whose document state selects the
    selection of the entry. *)
Definition held (s : Store) (cursors : list nat) (sortedCursor : SortedCursor) : Prop :=
  exists c m v,
    cursors !! Z.to_nat (index sortedCursor) = Some c
    /\ statesAt s c = Some (m, v)
    /\ SingleCursorState.selection m = selection sortedCursor.

(** No two neighbours of the snapshot before index [k] are left to merge. *)
Definition apartBefore (k : Z) (sortedCursors : list SortedCursor) : Prop :=
  forall j current next,
    Z.of_nat j < k ->
    sortedCursors !! j = Some current -> sortedCursors !! S j = Some next ->
    CursorCollection.shouldMergeCursors (selection current) (selection next) = false.

(** The document accepts a position as it is: validation returns it
    unchanged, alone and as the empty range at that position. *)
Definition accepts (context : CursorContext) (p : Position) : Prop :=
  validatePosition (model context) p = p
  /\ validateRange (model context) (Range.fromPositions p p) = Range.fromPositions p p.

(** The document accepts the two ends of a selection. *)
Definition acceptsSelection (context : CursorContext) (selection : Selection) : Prop :=
  accepts context (Selection.getStartPosition selection)
  /\ accepts context (Selection.getEndPosition selection).

(** The document accepts the two ends of the selection of the cursor at
    [c]: the cursor stands at valid positions of the document. *)
Definition acceptsCursor (context : CursorContext) (s : Store) (c : nat) : Prop :=
  forall o, heap s !! c = Some o ->
    acceptsSelection context (SingleCursorState.selection (modelState o)).

(** The variables of the loop of [normalize] at the start of a round, in a
    call of [normalize] on [st]; there are rounds only when the collection
    does not hold exactly one cursor, [normalize] returning at once when it
    does.  The first round
    starts on the snapshot of the cursors sorted with
    [compareBy(s => s.selection, Range.compareRangesUsingStarts)] at index 0,
    and every round whose loop test holds is followed by the round
    [normalize_step] leads to. *)
Inductive normalizeRound (st : Store * CursorCollection) : NormalizeState -> Prop :=
  | round_first (l : list SortedCursor) :
      length (cursors st.2) <> 1%nat ->
      CursorCollection.snapshot st.1 0 (cursors st.2) = Some l ->
      normalizeRound st
        (mkNormalizeState st.1 st.2 (cursors st.2)
           (Array.sort (compareBy (λ s, Selection.toRange (selection s))
                          Range.compareRangesUsingStarts) l) 0)
  | round_next (n n' : NormalizeState) :
      normalizeRound st n ->
      n_sortedCursorIndex n < Z.of_nat (length (n_sortedCursors n)) - 1 ->
      CursorCollection.normalize_step n = Some n' ->
      normalizeRound st n'.

(** What the loop of [normalize] keeps of its snapshot, round after round:
    there is an entry for every cursor, the entries are sorted by the start
    of their selections, and no two neighbours before the loop index are left
    to merge. *)
Definition NSorted (n : NormalizeState) : Prop :=
  length (n_sortedCursors n) = length (n_cursors n)
  /\ startSorted (n_sortedCursors n)
  /\ apartBefore (n_sortedCursorIndex n) (n_sortedCursors n).

(** The snapshot agrees with the cursors, on selections whose ends the
    document accepts. *)
Definition NHeld (context : CursorContext) (n : NormalizeState) : Prop :=
  Forall (held (n_store n) (n_cursors n)) (n_sortedCursors n)
  /\ Forall (λ sortedCursor, acceptsSelection context (selection sortedCursor))
       (n_sortedCursors n).

(** A round of the loop of [normalize] that merges the neighbours [current]
    and [next] of the snapshot, leading from [n] to [n'].  The winner is the
    one of the two with the smaller index in the array of cursors, the looser
    the other one.  The winner's cursor [cw] is given, by [setState], the
    selection of the new entry [W], which covers the smallest range that
    covers both selections (or nothing is assigned, if the two selections are
    equal); every other cursor keeps its states; the looser's cursor is taken
    out of the array of cursors of the collection; in the snapshot, [W] takes
    the place of the two entries, and the indices above the looser's are
    lowered by one; the loop index stays, so that [W] is compared with the
    entry after it next. *)
Definition mergedRound (n n' : NormalizeState) (current next : SortedCursor) : Prop :=
  let winner := if index current <? index next then current else next in
  let looser := if index current <? index next then next else current in
  let i := Z.to_nat (n_sortedCursorIndex n) in
  exists W cw,
    n_cursors n !! Z.to_nat (index winner) = Some cw
    /\ index W = index winner
    /\ (if Selection.equalsSelection (selection looser) (selection winner)
        then W = winner /\ statesAt (n_store n') cw = statesAt (n_store n) cw
        else Selection.toRange (selection W)
             = Selection.plusRange (selection looser) (selection winner)
             /\ assigned (context (n_this n)) (n_store n') cw
                  (CursorState.fromModelSelection (selection W)))
    /\ (forall c, c <> cw -> statesAt (n_store n') c = statesAt (n_store n) c)
    /\ cursors (n_this n') = delete (Z.to_nat (index looser)) (cursors (n_this n))
    /\ n_cursors n' = cursors (n_this n')
    /\ n_sortedCursors n'
       = (λ sortedCursor,
            if index sortedCursor >? index looser
            then mkSortedCursor (index sortedCursor - 1) (selection sortedCursor)
            else sortedCursor)
           <$> (take i (n_sortedCursors n) ++ W :: drop (S (S i)) (n_sortedCursors n))
    /\ n_sortedCursorIndex n' = n_sortedCursorIndex n.

(** A document of three lines of ten characters: validation moves a position
    to the nearest line and column of the document. *)
Definition boundedTextModel : ITextModel :=
  let validate :=
    λ p, mkPosition (Z.max 1 (Z.min 3 (lineNumber p))) (Z.max 1 (Z.min 11 (column p))) in
  mkTextModel validate
    (λ r, Range.fromPositions (validate (Range.getStartPosition r))
                              (validate (Range.getEndPosition r))).

Definition boundedContext : CursorContext :=
  mkCursorContext boundedTextModel (plainSimpleModel "abcdefghij") plainConverter
    plainConfiguration.

(** A collection of three cursors in that document, not in the order of
    their starts; the second and the third overlap. *)
Definition scatteredCursors : Store * CursorCollection :=
  (mkStore [cursorAt (Selection.new 2 1 2 4) 0; cursorAt (Selection.new 1 3 1 8) 1;
            cursorAt (Selection.new 1 1 1 5) 2]
     (mkTrackedRanges {[ 0%nat := rawRange 2 1 2 4; 1%nat := rawRange 1 3 1 8;
                         2%nat := rawRange 1 1 1 5 ]} 3) [],
   mkCursorCollection boundedContext [0%nat; 1%nat; 2%nat] 2).

(** The variables of the loop of [normalize] when it starts on that
    collection: the snapshot of the three cursors, sorted by start. *)
Definition scatteredCursors_start : NormalizeState :=
  mkNormalizeState scatteredCursors.1 scatteredCursors.2 [0%nat; 1%nat; 2%nat]
    [mkSortedCursor 2 (Selection.new 1 1 1 5); mkSortedCursor 1 (Selection.new 1 3 1 8);
     mkSortedCursor 0 (Selection.new 2 1 2 4)]
    0.

(** * Properties *)

(** ** Positions and ranges *)

Lemma Position_equals_eq (a b : Position) :
  Position.equals a b = true <-> a = b.
Proof.
  destruct a, b; unfold Position.equals; simpl.
  rewrite andb_true_iff, !Z.eqb_eq. split; [intros [-> ->]; done | by inversion 1].
Qed.

Lemma Position_equals_refl (a : Position) : Position.equals a a = true.
Proof. by apply Position_equals_eq. Qed.

Lemma Range_equalsRange_eq (a b : Range) :
  Range.equalsRange a b = true <-> a = b.
Proof.
  destruct a, b; unfold Range.equalsRange; simpl.
  rewrite !andb_true_iff, !Z.eqb_eq.
  split; [intros [[[-> ->] ->] ->]; done | by inversion 1].
Qed.

Lemma Range_new_ordered (r : Range) :
  Range.ordered r ->
  Range.new (startLineNumber r) (startColumn r) (endLineNumber r) (endColumn r) = r.
Proof.
  destruct r as [sl sc el ec]. unfold Range.ordered, Range.new, Position.isBeforeOrEqual.
  simpl. intros H.
  destruct (sl <? el) eqn:E1; [|destruct (el <? sl) eqn:E2; [done|]].
  - replace (sl >? el) with false by lia. replace (sl =? el) with false by lia. done.
  - replace (sl >? el) with false by lia. replace (sc >? ec) with false by lia.
    by rewrite andb_false_r.
Qed.

Lemma Range_new_swap (sl sc el ec : Z) :
  Range.new sl sc el ec = Range.new el ec sl sc.
Proof.
  unfold Range.new.
  destruct (sl >? el) eqn:E1, (sl =? el) eqn:E2, (sc >? ec) eqn:E3,
    (el >? sl) eqn:E4, (el =? sl) eqn:E5, (ec >? sc) eqn:E6; simpl;
    try lia; try done; f_equal; lia.
Qed.

Lemma Range_new_is_ordered (sl sc el ec : Z) : Range.ordered (Range.new sl sc el ec).
Proof.
  unfold Range.ordered, Range.new, Position.isBeforeOrEqual.
  destruct (sl >? el) eqn:E1, (sl =? el) eqn:E2, (sc >? ec) eqn:E3; simpl;
    repeat match goal with |- context [?a <? ?b] => destruct (Z.ltb_spec a b) end;
    try done; lia.
Qed.

Lemma Range_new_point (line col : Z) :
  Range.new line col line col = rawRange line col line col.
Proof.
  unfold Range.new. replace (line >? line) with false by lia.
  replace (col >? col) with false by lia. by rewrite andb_false_r.
Qed.

Lemma Selection_toRange_caret (line col : Z) :
  Selection.toRange (Selection.new line col line col) = rawRange line col line col.
Proof. apply Range_new_point. Qed.

Lemma Selection_isEmpty_caret (line col : Z) :
  Selection.isEmpty (Selection.new line col line col) = true.
Proof.
  unfold Selection.isEmpty. rewrite Selection_toRange_caret.
  unfold Range.isEmpty. simpl. by rewrite !Z.eqb_refl.
Qed.

(** ** One cursor *)

(** The cache of view-state validation only ever answers with what the view
    model would answer. *)
Lemma validatePositionWithCache_direct (viewModel : ICursorSimpleModel)
    (position cacheInput : Position) :
  Cursor._validatePositionWithCache viewModel position cacheInput
    (normalizePosition viewModel cacheInput AffinityNone)
  = normalizePosition viewModel position AffinityNone.
Proof.
  unfold Cursor._validatePositionWithCache.
  destruct (Position.equals position cacheInput) eqn:Heq; [|done].
  apply Position_equals_eq in Heq. by rewrite Heq.
Qed.

Lemma validateViewState_direct_eq (viewModel : ICursorSimpleModel)
    (viewState : SingleCursorState) :
  Cursor._validateViewState viewModel viewState
  = _validateViewState_direct viewModel viewState.
Proof.
  unfold Cursor._validateViewState, _validateViewState_direct.
  cbv zeta. by rewrite !validatePositionWithCache_direct.
Qed.

(** C9: view-state validation with its one-entry cache returns the same state
    as validation that asks the view model for the primary position, the
    start and the end of the selection start, each directly. *)
Theorem validateViewState_cache_refines (viewModel : ICursorSimpleModel)
    (viewState : SingleCursorState) :
  Cursor._validateViewState viewModel viewState
  = _validateViewState_direct viewModel viewState.
Proof.
  unfold Cursor._validateViewState, _validateViewState_direct.
  cbv zeta. by rewrite !validatePositionWithCache_direct.
Qed.

Lemma validateViewState_leftovers (viewModel : ICursorSimpleModel)
    (viewState : SingleCursorState) :
  let v := Cursor._validateViewState viewModel viewState in
  leftoverVisibleColumns v
  = leftoverVisibleColumns viewState + column (position viewState)
    - column (normalizePosition viewModel (position viewState) AffinityNone)
  /\ selectionStartLeftoverVisibleColumns v
     = selectionStartLeftoverVisibleColumns viewState
       + column (Range.getStartPosition (selectionStart viewState))
       - column (normalizePosition viewModel
                   (Range.getStartPosition (selectionStart viewState)) AffinityNone).
Proof.
  intros v. subst v. rewrite validateViewState_direct_eq.
  unfold _validateViewState_direct.
  destruct (Position.equals (position viewState) _) eqn:Hp; simpl.
  - destruct (Position.equals (Range.getStartPosition _) _) eqn:Hs; simpl.
    + destruct (Position.equals (Range.getEndPosition _) _) eqn:He; simpl; [|done].
      apply Position_equals_eq in Hp, Hs. rewrite <- Hp, <- Hs. simpl. lia.
    + done.
  - done.
Qed.

(** C4 (as amended): with a document state supplied, each leftover-columns
    field of the states [setState] assigns is the supplied one when validation
    against the document leaves the position (for the other field, the
    selection-start range) unchanged, and zero otherwise.  With a view state
    only, each field is the supplied one plus the column shift of the view
    validation (the supplied column minus the validated column): it is the
    supplied value when validation keeps the column, and is not reset to
    zero when it does not.  In both cases the two assigned states carry the
    same leftover columns. *)
Theorem setState_leftover_columns (context : CursorContext) :
  (forall modelState viewState, exists m v,
     Cursor._computeStates context (Some modelState) viewState = Some (m, v)
     /\ leftoverVisibleColumns m
        = (if Position.equals (position modelState)
                (validatePosition (model context) (position modelState))
           then leftoverVisibleColumns modelState else 0)
     /\ selectionStartLeftoverVisibleColumns m
        = (if Range.equalsRange (selectionStart modelState)
                (validateRange (model context) (selectionStart modelState))
           then selectionStartLeftoverVisibleColumns modelState else 0)
     /\ leftoverVisibleColumns v = leftoverVisibleColumns m
     /\ selectionStartLeftoverVisibleColumns v = selectionStartLeftoverVisibleColumns m)
  /\ (forall viewState, exists m v,
        Cursor._computeStates context None (Some viewState) = Some (m, v)
        /\ leftoverVisibleColumns m
           = leftoverVisibleColumns viewState + column (position viewState)
             - column (normalizePosition (viewModel context) (position viewState)
                         AffinityNone)
        /\ selectionStartLeftoverVisibleColumns m
           = selectionStartLeftoverVisibleColumns viewState
             + column (Range.getStartPosition (selectionStart viewState))
             - column (normalizePosition (viewModel context)
                         (Range.getStartPosition (selectionStart viewState))
                         AffinityNone)
        /\ leftoverVisibleColumns v = leftoverVisibleColumns m
        /\ selectionStartLeftoverVisibleColumns v
           = selectionStartLeftoverVisibleColumns m).
Proof.
  split.
  - intros modelState [viewState|]; unfold Cursor._computeStates; simpl;
      eexists _, _; (split; [reflexivity|]); simpl; done.
  - intros viewState. unfold Cursor._computeStates; simpl.
    eexists _, _; split; [reflexivity|]; simpl.
    destruct (validateViewState_leftovers (viewModel context) viewState) as [H1 H2].
    done.
Qed.

(** C4, the claim as stated fails on the view-state path: the view model moves
    the position (1,10) to (1,5), and the leftover columns 3 of the supplied
    view state become 3 + 10 - 5 = 8 rather than 0. *)
Lemma setState_leftover_view_counterexample :
  Position.equals (position (caretState 1 10 3))
    (normalizePosition (viewModel clampingContext) (position (caretState 1 10 3))
       AffinityNone) = false
  /\ (λ r, leftoverVisibleColumns r.1)
       <$> Cursor._computeStates clampingContext None (Some (caretState 1 10 3))
     = Some 8.
Proof. split; reflexivity. Qed.

Lemma Range_new_ends (a b : Position) :
  let r := Range.new (lineNumber a) (column a) (lineNumber b) (column b) in
  (Range.getStartPosition r = a /\ Range.getEndPosition r = b)
  \/ (Range.getStartPosition r = b /\ Range.getEndPosition r = a).
Proof.
  destruct a, b. simpl. unfold Range.new.
  destruct (_ || _); [right|left]; done.
Qed.

(** C5 (as amended): for a valid document state whose position and whose two
    selection-start ends survive the trip through the view, with a converter
    that converts view ranges end by end, deriving the view state from the
    document state and the document state back from that view state gives the
    original state. *)
Theorem roundTrip_valid (context : CursorContext) (s : SingleCursorState) :
  validModelState context s ->
  convertsRangesByEnds context ->
  survivesView context (position s) ->
  survivesView context (Range.getStartPosition (selectionStart s)) ->
  survivesView context (Range.getEndPosition (selectionStart s)) ->
  roundTrip context s = Some s.
Proof.
  intros (Hord & HvR & HvP) Hconv [HnP HcP] [HnS HcS] [HnE HcE].
  unfold roundTrip, Cursor._computeStates. simpl.
  rewrite validateViewState_direct_eq. unfold _validateViewState_direct.
  cbn [position selectionStart selectionStartKind leftoverVisibleColumns
       selectionStartLeftoverVisibleColumns SingleCursorState.new].
  rewrite HvR, HvP.
  change (mkPosition (startLineNumber (selectionStart s)) (startColumn (selectionStart s)))
    with (Range.getStartPosition (selectionStart s)).
  change (mkPosition (endLineNumber (selectionStart s)) (endColumn (selectionStart s)))
    with (Range.getEndPosition (selectionStart s)).
  set (cc := coordinatesConverter context) in *.
  set (v1 := convertModelPositionToViewPosition cc (Range.getStartPosition _)) in *.
  set (v2 := convertModelPositionToViewPosition cc (Range.getEndPosition _)) in *.
  set (vp := convertModelPositionToViewPosition cc (position s)) in *.
  set (R := Range.new (lineNumber v1) (column v1) (lineNumber v2) (column v2)).
  assert (HR : validateRange (model context) (convertViewRangeToModelRange cc R)
               = selectionStart s).
  { rewrite Hconv. fold cc.
    destruct (Range_new_ends v1 v2) as [[H1 H2]|[H1 H2]]; fold R in H1, H2;
      rewrite H1, H2, HcS, HcE; unfold Range.fromPositions; simpl.
    - by rewrite Range_new_ordered.
    - by rewrite Range_new_swap, Range_new_ordered. }
  assert (Hfast : Position.equals vp (normalizePosition (viewModel context) vp AffinityNone)
                  && Position.equals (Range.getStartPosition R)
                       (normalizePosition (viewModel context) (Range.getStartPosition R)
                          AffinityNone)
                  && Position.equals (Range.getEndPosition R)
                       (normalizePosition (viewModel context) (Range.getEndPosition R)
                          AffinityNone) = true).
  { rewrite HnP, Position_equals_refl. simpl.
    destruct (Range_new_ends v1 v2) as [[H1 H2]|[H1 H2]]; fold R in H1, H2;
      rewrite H1, H2, HnS, HnE, !Position_equals_refl; done. }
  rewrite Hfast. simpl. rewrite HR, HcP, HvP.
  rewrite !Position_equals_refl.
  replace (Range.equalsRange (selectionStart s) (selectionStart s)) with true
    by (symmetry; by apply Range_equalsRange_eq).
  by destruct s.
Qed.

Lemma roundTrip_valid_witness :
  roundTrip plainContext (caretState 1 3 2) = Some (caretState 1 3 2).
Proof.
  apply roundTrip_valid.
  - repeat split; reflexivity.
  - intros r. reflexivity.
  - split; reflexivity.
  - split; reflexivity.
  - split; reflexivity.
Defined.

(** C5, the claim as stated fails when a line is hidden: the document state
    on line 2 is valid, its view state lies at the end of line 1, and the
    document state derived back from it lies there as well. *)
Lemma roundTrip_hidden_line_counterexample :
  validModelState foldedContext (caretState 2 1 0)
  /\ roundTrip foldedContext (caretState 2 1 0) = Some (caretState 1 5 0)
  /\ caretState 1 5 0 <> caretState 2 1 0.
Proof. repeat split; done. Qed.

(** ** Delete operations *)

Lemma Range_isEmpty_one_line (r : Range) :
  Range.isEmpty r = true -> (startLineNumber r =? endLineNumber r) = true.
Proof. unfold Range.isEmpty. by intros [? ?]%andb_true_iff. Qed.

Lemma delete_loop_commands (range_of : Selection -> Range) (selections : list Selection)
    (b : bool) :
  (DeleteOperations.delete_loop range_of selections b).2
  = (λ selection, commandOf (range_of selection)) <$> selections.
Proof.
  revert b. induction selections as [|selection rest IH]; intros b; simpl; [done|].
  unfold commandOf at 1.
  destruct (Range.isEmpty (range_of selection)).
  - specialize (IH b). destruct (DeleteOperations.delete_loop range_of rest b).
    simpl in *. by rewrite IH.
  - match goal with
    | |- context [DeleteOperations.delete_loop range_of rest ?b'] =>
        specialize (IH b'); destruct (DeleteOperations.delete_loop range_of rest b')
    end.
    simpl in *. by rewrite IH.
Qed.

Lemma delete_loop_flag (range_of : Selection -> Range) (selections : list Selection)
    (b : bool) :
  (DeleteOperations.delete_loop range_of selections b).1
  = b || existsb (λ selection,
                    negb (startLineNumber (range_of selection)
                          =? endLineNumber (range_of selection))) selections.
Proof.
  revert b. induction selections as [|selection rest IH]; intros b; simpl.
  - by rewrite orb_false_r.
  - destruct (Range.isEmpty (range_of selection)) eqn:He.
    + rewrite (Range_isEmpty_one_line _ He). simpl.
      specialize (IH b). by destruct (DeleteOperations.delete_loop range_of rest b).
    + match goal with
      | |- context [DeleteOperations.delete_loop range_of rest ?b'] =>
          specialize (IH b'); destruct (DeleteOperations.delete_loop range_of rest b')
      end.
      simpl in *. rewrite IH.
      destruct (startLineNumber (range_of selection) =? endLineNumber (range_of selection));
        simpl; [done|]. by rewrite orb_true_r.
Qed.

(** C6: [deleteRight] gives every cursor the command of its span, which for an
    empty selection runs from the caret to one step to its right and for any
    other selection is the selection; an empty span gives no command; and the
    flag is set exactly when the previous operation was not a forward delete
    or some span does not lie on one line. *)
Theorem deleteRight_spec
    (MoveOperations_right : CursorConfiguration -> ICursorSimpleModel -> Position -> Position)
    (prevEditOperationType : EditOperationType) (config : CursorConfiguration)
    (model : ICursorSimpleModel) (selections : list Selection) :
  let span (selection : Selection) : Range :=
    if Selection.isEmpty selection
    then Range.fromPositions (Selection.getPosition selection)
           (MoveOperations_right config model (Selection.getPosition selection))
    else Selection.toRange selection in
  let result :=
    DeleteOperations.deleteRight MoveOperations_right prevEditOperationType config model
      selections in
  result.2
  = (λ selection,
       if Range.isEmpty (span selection) then None
       else Some (mkReplaceCommand (span selection) EmptyString)) <$> selections
  /\ (result.1 = true
      <-> prevEditOperationType <> DeletingRight
          \/ exists selection,
               selection ∈ selections
               /\ startLineNumber (span selection) <> endLineNumber (span selection)).
Proof.
  intros span result.
  assert (Hspan : forall selection,
            DeleteOperations.deleteRight_range MoveOperations_right config model selection
            = span selection).
  { intros selection. unfold DeleteOperations.deleteRight_range, span.
    destruct (Selection.isEmpty selection); [|done].
    unfold Range.fromPositions. apply Range_new_swap. }
  subst result. unfold DeleteOperations.deleteRight. split.
  - rewrite delete_loop_commands. apply list_fmap_ext. intros i selection _.
    by rewrite Hspan.
  - rewrite delete_loop_flag, orb_true_iff, negb_true_iff.
    apply or_iff_compat_l || idtac.
    assert (Hprev : EditOperationType_eqb prevEditOperationType DeletingRight = false
                    <-> prevEditOperationType <> DeletingRight)
      by (destruct prevEditOperationType; simpl; split; congruence).
    rewrite Hprev, existsb_exists.
    split; (intros [H|(selection & Hin & H)]; [by left|right; exists selection]).
    + rewrite Hspan in H. split; [by apply list_elem_of_In|].
      apply negb_true_iff in H. lia.
    + split; [by apply list_elem_of_In|]. rewrite Hspan. apply negb_true_iff. lia.
Qed.

Lemma Range_new_pair (line col : Z) :
  Range.new line (col - 1) line (col + 1) = rawRange line (col - 1) line (col + 1).
Proof.
  unfold Range.new. replace (line >? line) with false by lia.
  replace (col - 1 >? col + 1) with false by lia. by rewrite andb_false_r.
Qed.

(** C7: when [isAutoClosingPairDelete] holds, [deleteLeft] sets the flag and
    gives every cursor the command that deletes the two characters around its
    caret, columns column-1 to column+1 of the caret's line; and for one caret
    between the two characters of the line "()", with auto-closing of brackets
    not switched off, the delete policy "always" and "(" configured to open
    the pair "(" ")", [deleteLeft] gives that one command. *)
Theorem deleteLeft_autoClosingPair
    (strings_getLeftDeleteOffset : Z -> string -> Z) (isQuote : string -> bool)
    (prevEditOperationType : EditOperationType) (config : CursorConfiguration)
    (model : ICursorSimpleModel) (autoClosedCharacters : list Range) :
  (forall selections : list Selection,
     DeleteOperations.isAutoClosingPairDelete isQuote (autoClosingDelete config)
       (autoClosingBrackets config) (autoClosingQuotes config)
       (autoClosingPairsOpenByEnd config) model selections autoClosedCharacters = true ->
     DeleteOperations.deleteLeft strings_getLeftDeleteOffset isQuote prevEditOperationType
       config model selections autoClosedCharacters
     = (true,
        (λ selection,
           Some (mkReplaceCommand
                   (rawRange (positionLineNumber selection) (positionColumn selection - 1)
                             (positionLineNumber selection) (positionColumn selection + 1))
                   EmptyString)) <$> selections))
  /\ (forall (line : Z) (pairs : list StandardAutoClosingPairConditional),
        getLineContent model line = "()"%string ->
        autoClosingDelete config = EditAlways ->
        autoClosingBrackets config <> ClosingNever ->
        isQuote "("%string = false ->
        autoClosingPairsOpenByEnd config !! "("%string = Some pairs ->
        mkPair "(" ")" ∈ pairs ->
        DeleteOperations.deleteLeft strings_getLeftDeleteOffset isQuote prevEditOperationType
          config model [Selection.new line 2 line 2] autoClosedCharacters
        = (true, [Some (mkReplaceCommand (rawRange line 1 line 3) EmptyString)])).
Proof.
  assert (Hgen : forall selections : list Selection,
     DeleteOperations.isAutoClosingPairDelete isQuote (autoClosingDelete config)
       (autoClosingBrackets config) (autoClosingQuotes config)
       (autoClosingPairsOpenByEnd config) model selections autoClosedCharacters = true ->
     DeleteOperations.deleteLeft strings_getLeftDeleteOffset isQuote prevEditOperationType
       config model selections autoClosedCharacters
     = (true,
        (λ selection,
           Some (mkReplaceCommand
                   (rawRange (positionLineNumber selection) (positionColumn selection - 1)
                             (positionLineNumber selection) (positionColumn selection + 1))
                   EmptyString)) <$> selections)).
  { intros selections H. unfold DeleteOperations.deleteLeft. rewrite H.
    unfold DeleteOperations._runAutoClosingPairDelete. f_equal.
    apply list_fmap_ext. intros i selection _. simpl. by rewrite Range_new_pair. }
  split; [exact Hgen|].
  intros line pairs Hline Hdel Hbr Hq Hpairs Hin.
  rewrite Hgen; [done|].
  unfold DeleteOperations.isAutoClosingPairDelete. rewrite Hdel.
  assert (Hone : DeleteOperations.isAutoClosingPairDelete_one isQuote EditAlways
                   (autoClosingBrackets config) (autoClosingQuotes config)
                   (autoClosingPairsOpenByEnd config) model autoClosedCharacters
                   (Selection.new line 2 line 2) = true).
  { unfold DeleteOperations.isAutoClosingPairDelete_one.
    rewrite Selection_isEmpty_caret. simpl. rewrite Hline. simpl.
    change (charAt "()" (2 - 2)) with "("%string.
    change (charAt "()" (2 - 1)) with ")"%string.
    rewrite Hpairs, Hq.
    destruct (autoClosingBrackets config); try done.
    all: replace (existsb _ pairs) with true; [done|].
    all: symmetry; apply existsb_exists; exists (mkPair "(" ")");
      split; [by apply list_elem_of_In|done]. }
  simpl. rewrite Hone.
  destruct (autoClosingBrackets config), (autoClosingQuotes config); done.
Qed.

Lemma deleteLeft_autoClosingPair_witness :
  DeleteOperations.deleteLeft (λ offset _, offset - 1)
    quoteCharacter Other plainConfiguration (plainSimpleModel "()") [Selection.new 1 2 1 2] []
  = (true, [Some (mkReplaceCommand (rawRange 1 1 1 3) EmptyString)]).
Proof.
  apply (proj2 (deleteLeft_autoClosingPair (λ offset _, offset - 1) quoteCharacter
                  Other plainConfiguration (plainSimpleModel "()") []) 1
               [mkPair "(" ")"]).
  - reflexivity.
  - reflexivity.
  - discriminate.
  - reflexivity.
  - reflexivity.
  - apply list_elem_of_In. simpl. by left.
Defined.

Lemma firstNonWhitespaceIndex_from_bound (str : string) (i : Z) :
  strings.firstNonWhitespaceIndex_from i str = -1
  \/ i <= strings.firstNonWhitespaceIndex_from i str.
Proof.
  revert i. induction str as [|c rest IH]; intros i; simpl; [by left|].
  destruct (_ || _); [|right; lia].
  destruct (IH (i + 1)) as [H|H]; [by left|right; lia].
Qed.

Lemma firstNonWhitespaceIndex_from_space (rest : string) (i : Z) :
  strings.firstNonWhitespaceIndex_from i (String (Ascii.ascii_of_nat 32) rest)
  = strings.firstNonWhitespaceIndex_from (i + 1) rest.
Proof. reflexivity. Qed.

(** The last column of the leading indentation of a line that begins with
    four spaces is column 5 or later. *)
Lemma lastIndentationColumn_four_spaces (rest : string) :
  let lineContent := String.append "    " rest in
  let firstNonWhitespaceIndex := strings.firstNonWhitespaceIndex lineContent in
  5 <= (if firstNonWhitespaceIndex =? -1 then str_length lineContent + 1
        else firstNonWhitespaceIndex + 1).
Proof.
  intros lineContent firstNonWhitespaceIndex.
  subst firstNonWhitespaceIndex lineContent.
  change (String.append "    " rest)
    with (String (Ascii.ascii_of_nat 32) (String (Ascii.ascii_of_nat 32)
             (String (Ascii.ascii_of_nat 32) (String (Ascii.ascii_of_nat 32) rest)))).
  unfold strings.firstNonWhitespaceIndex.
  rewrite !firstNonWhitespaceIndex_from_space.
  destruct (Z.eqb_spec
              (strings.firstNonWhitespaceIndex_from (0 + 1 + 1 + 1 + 1) rest) (-1)).
  - unfold str_length. cbn [String.length]. lia.
  - destruct (firstNonWhitespaceIndex_from_bound rest (0 + 1 + 1 + 1 + 1)); lia.
Qed.

(** C8: with tab stops in use, indent size 4 and a caret at column 5 of a line
    that begins with four spaces (visible column 4, and visible column 0 is
    column 1), the delete range of [deleteLeft] is columns 1 to 5 of that
    line, one whole indent, and outside the auto-closing-pair case this is
    the range of the command [deleteLeft] gives. *)
Theorem deleteLeft_tabStop_indent
    (strings_getLeftDeleteOffset : Z -> string -> Z) (isQuote : string -> bool)
    (prevEditOperationType : EditOperationType) (config : CursorConfiguration)
    (model : ICursorSimpleModel) (autoClosedCharacters : list Range)
    (line : Z) (rest : string) :
  useTabStops config = true ->
  indentSize config = 4 ->
  getLineContent model line = String.append "    " rest ->
  visibleColumnFromColumn config model (mkPosition line 5) = 4 ->
  columnFromVisibleColumn config model line 0 = 1 ->
  DeleteOperations.getDeleteRange strings_getLeftDeleteOffset
    (Selection.new line 5 line 5) model config
  = rawRange line 1 line 5
  /\ (DeleteOperations.isAutoClosingPairDelete isQuote (autoClosingDelete config)
        (autoClosingBrackets config) (autoClosingQuotes config)
        (autoClosingPairsOpenByEnd config) model [Selection.new line 5 line 5]
        autoClosedCharacters = false ->
      DeleteOperations.deleteLeft strings_getLeftDeleteOffset isQuote prevEditOperationType
        config model [Selection.new line 5 line 5] autoClosedCharacters
      = (negb (EditOperationType_eqb prevEditOperationType DeletingLeft),
         [Some (mkReplaceCommand (rawRange line 1 line 5) EmptyString)])).
Proof.
  intros Htab Hindent Hline Hvis Hcol.
  assert (Hrange : DeleteOperations.getDeleteRange strings_getLeftDeleteOffset
                     (Selection.new line 5 line 5) model config
                   = rawRange line 1 line 5).
  { unfold DeleteOperations.getDeleteRange.
    rewrite Selection_isEmpty_caret. cbn [negb].
    cbn [Selection.getPosition Selection.new positionLineNumber positionColumn
         lineNumber column].
    rewrite Htab, Hline. cbn [andb]. replace (5 >? 1) with true by done.
    pose proof (lastIndentationColumn_four_spaces rest) as Hlast. cbv zeta in Hlast.
    destruct (5 <=? _) eqn:Hle; [|lia].
    change (Selection.getPosition (Selection.new line 5 line 5))
      with (mkPosition line 5).
    rewrite Hvis, Hindent.
    change (CursorColumns.prevIndentTabStop 4 4) with 0. rewrite Hcol.
    unfold Range.new. replace (line >? line) with false by lia.
    rewrite Z.eqb_refl. done. }
  split; [exact Hrange|].
  intros Hno. unfold DeleteOperations.deleteLeft. rewrite Hno.
  cbn [DeleteOperations.delete_loop]. rewrite Hrange.
  unfold Range.isEmpty. cbn [startLineNumber endLineNumber startColumn endColumn].
  rewrite Z.eqb_refl. done.
Qed.

Lemma deleteLeft_tabStop_indent_witness :
  DeleteOperations.getDeleteRange (λ offset _, offset - 1)
    (Selection.new 1 5 1 5) (plainSimpleModel "    x") plainConfiguration
  = rawRange 1 1 1 5
  /\ DeleteOperations.deleteLeft (λ offset _, offset - 1) (λ _, false) DeletingLeft
       plainConfiguration (plainSimpleModel "    x") [Selection.new 1 5 1 5] []
     = (false, [Some (mkReplaceCommand (rawRange 1 1 1 5) EmptyString)]).
Proof.
  destruct (deleteLeft_tabStop_indent (λ offset _, offset - 1) (λ _, false) DeletingLeft
              plainConfiguration (plainSimpleModel "    x") [] 1 "x")
    as [Hrange Hleft]; try reflexivity.
  split; [exact Hrange|]. apply Hleft. reflexivity.
Defined.

(** ** Sorting *)

Lemma sort_insert_perm {A} (compareFn : A -> A -> Z) (x : A) (sorted : list A) :
  Array.sort_insert compareFn x sorted ≡ₚ x :: sorted.
Proof.
  induction sorted as [|y rest IH]; simpl; [done|].
  destruct (compareFn x y <? 0); [done|].
  rewrite IH. apply Permutation_swap.
Qed.

Lemma sort_foldl_perm {A} (compareFn : A -> A -> Z) (l sorted : list A) :
  foldl (λ sorted x, Array.sort_insert compareFn x sorted) sorted l ≡ₚ sorted ++ l.
Proof.
  revert sorted. induction l as [|x l IH]; intros sorted; simpl.
  - by rewrite app_nil_r.
  - rewrite IH, sort_insert_perm. simpl. apply Permutation_middle.
Qed.

Lemma sort_perm {A} (compareFn : A -> A -> Z) (l : list A) :
  Array.sort compareFn l ≡ₚ l.
Proof. unfold Array.sort. by rewrite sort_foldl_perm. Qed.

Lemma sort_length {A} (compareFn : A -> A -> Z) (l : list A) :
  length (Array.sort compareFn l) = length l.
Proof. by rewrite sort_perm. Qed.

(** Positions in their line-then-column order. *)
Ltac position_order :=
  repeat match goal with
    | p : Position |- _ => destruct p
    | r : Range |- _ => destruct r
    end;
  unfold Position.isBeforeOrEqual, Position.isBefore, Position.compare,
    Range.getStartPosition, Range.getEndPosition in *;
  simpl in *;
  repeat match goal with
    | H : context [?a <? ?b] |- _ => destruct (Z.ltb_spec a b)
    | |- context [?a <? ?b] => destruct (Z.ltb_spec a b)
    | H : context [?a <=? ?b] |- _ => destruct (Z.leb_spec a b)
    | |- context [?a <=? ?b] => destruct (Z.leb_spec a b)
    | H : context [?a =? ?b] |- _ => destruct (Z.eqb_spec a b)
    | |- context [?a =? ?b] => destruct (Z.eqb_spec a b)
    end;
  try done; try lia.

Lemma isBeforeOrEqual_trans (a b c : Position) :
  Position.isBeforeOrEqual a b = true -> Position.isBeforeOrEqual b c = true ->
  Position.isBeforeOrEqual a c = true.
Proof. intros. position_order. Qed.

Lemma compare_neg_not_before (a b : Position) :
  Position.compare a b < 0 -> Position.isBeforeOrEqual b a = false.
Proof. intros. position_order. Qed.

Lemma compare_nonneg_before (a b : Position) :
  ~ Position.compare a b < 0 -> Position.isBeforeOrEqual b a = true.
Proof. intros. position_order. Qed.

Lemma Selection_start_before_end (s : Selection) :
  Position.isBeforeOrEqual (Selection.getStartPosition s) (Selection.getEndPosition s)
  = true.
Proof. apply Range_new_is_ordered. Qed.

Lemma endsBefore_trans (a b c : Selection) :
  endsBefore a b -> endsBefore b c -> endsBefore a c.
Proof.
  unfold endsBefore. intros Hab Hbc.
  eapply isBeforeOrEqual_trans; [exact Hab|].
  eapply isBeforeOrEqual_trans; [apply Selection_start_before_end|exact Hbc].
Qed.

Lemma endsBefore_startEndOrdered (a b : Selection) :
  endsBefore a b -> startEndOrdered a b.
Proof.
  unfold endsBefore, startEndOrdered. intros Hab.
  pose proof (Selection_start_before_end a) as Ha.
  pose proof (Selection_start_before_end b) as Hb.
  unfold Selection.getStartPosition, Selection.getEndPosition in *.
  destruct (Selection.toRange a), (Selection.toRange b).
  unfold Range.compareRangesUsingStarts. position_order.
Qed.

Lemma cut_insert_sorted (x : Selection) (sorted : list Selection) :
  StronglySorted endsBefore sorted ->
  Forall (apart x) sorted ->
  StronglySorted endsBefore (Array.sort_insert DeleteOperations.cut_compare x sorted).
Proof.
  induction sorted as [|y rest IH]; intros Hsorted Hapart; simpl.
  - repeat constructor.
  - apply StronglySorted_inv in Hsorted as [Hrest Hy].
    apply Forall_cons in Hapart as [Hxy Hxrest].
    destruct (Z.ltb_spec (DeleteOperations.cut_compare x y) 0) as [Hlt|Hge];
      unfold DeleteOperations.cut_compare in *.
    + assert (Hx : endsBefore x y).
      { destruct Hxy as [H|H]; [done|].
        apply compare_neg_not_before in Hlt. unfold endsBefore in H. congruence. }
      constructor; [by constructor|].
      constructor; [done|].
      eapply Forall_impl; [exact Hy|]. intros z Hz. by eapply endsBefore_trans.
    + assert (Hx : endsBefore y x) by (apply compare_nonneg_before; lia).
      constructor; [by apply IH|].
      rewrite sort_insert_perm. by constructor.
Qed.

Lemma cut_foldl_sorted (l sorted : list Selection) :
  StronglySorted endsBefore sorted ->
  ForallOrdPairs apart l ->
  Forall (λ x, Forall (apart x) sorted) l ->
  StronglySorted endsBefore
    (foldl (λ sorted x, Array.sort_insert DeleteOperations.cut_compare x sorted) sorted l).
Proof.
  revert sorted. induction l as [|x l IH]; intros sorted Hsorted Hl Hboth; simpl; [done|].
  inversion Hl as [|? ? Hx Hl']; subst.
  apply Forall_cons in Hboth as [Hxs Hboth].
  apply IH; [by apply cut_insert_sorted|done|].
  apply Forall_forall. intros z Hz.
  rewrite sort_insert_perm. constructor.
  - rewrite Forall_forall in Hx. destruct (Hx z Hz) as [H|H]; [by right|by left].
  - rewrite Forall_forall in Hboth. by apply Hboth.
Qed.

(** C3 (as amended): [cut] rearranges the selections it is given, and when no
    two of them overlap it takes them in the order of their positions: each
    one ends at or before the start of every later one, which is also their
    (start, end) order. *)
Theorem cut_sort_apart (selections : list Selection) :
  DeleteOperations.cut_sort selections ≡ₚ selections
  /\ (ForallOrdPairs apart selections ->
      StronglySorted endsBefore (DeleteOperations.cut_sort selections)
      /\ StronglySorted startEndOrdered (DeleteOperations.cut_sort selections)).
Proof.
  split; [apply sort_perm|]. intros Hapart.
  assert (Hs : StronglySorted endsBefore (DeleteOperations.cut_sort selections)).
  { apply cut_foldl_sorted; [constructor|done|].
    apply Forall_forall. intros; constructor. }
  split; [done|].
  induction Hs as [|a l Hl IH Ha]; constructor; [done|].
  eapply Forall_impl; [exact Ha|]. apply endsBefore_startEndOrdered.
Qed.

Lemma cut_sort_apart_witness :
  StronglySorted endsBefore
    (DeleteOperations.cut_sort
       [Selection.new 2 1 2 4; Selection.new 1 3 1 1; Selection.new 1 3 1 3])
  /\ StronglySorted startEndOrdered
       (DeleteOperations.cut_sort
          [Selection.new 2 1 2 4; Selection.new 1 3 1 1; Selection.new 1 3 1 3]).
Proof.
  apply (proj2 (cut_sort_apart
                  [Selection.new 2 1 2 4; Selection.new 1 3 1 1; Selection.new 1 3 1 3])).
  repeat match goal with
    | |- ForallOrdPairs _ _ => constructor
    | |- Forall _ _ => constructor
    | |- apart _ _ => first [left; reflexivity | right; reflexivity]
    end.
Defined.

(** C3, the claim as stated fails when selections overlap: the comparator of
    [cut] compares the start of one selection with the end of the other, and
    two overlapping selections given in (start, end) order come out in the
    opposite order. *)
Lemma cut_sort_overlap_counterexample :
  DeleteOperations.cut_sort [Selection.new 1 1 1 5; Selection.new 1 3 1 8]
  = [Selection.new 1 3 1 8; Selection.new 1 1 1 5]
  /\ Range.compareRangesUsingStarts
       (Selection.toRange (Selection.new 1 3 1 8))
       (Selection.toRange (Selection.new 1 1 1 5)) = 2.
Proof. split; reflexivity. Qed.

(** ** Arrays *)

Lemma Array_get_Some {A} (a : list A) (i : Z) :
  0 <= i < Z.of_nat (length a) -> exists x, Array.get a i = Some x /\ a !! Z.to_nat i = Some x.
Proof.
  intros Hi. unfold Array.get. replace (i <? 0) with false by lia.
  destruct (lookup_lt_is_Some_2 a (Z.to_nat i)) as [x Hx]; [lia|]. eauto.
Qed.

Lemma Array_get_inv {A} (a : list A) (i : Z) (x : A) :
  Array.get a i = Some x -> 0 <= i < Z.of_nat (length a) /\ a !! Z.to_nat i = Some x.
Proof.
  unfold Array.get. destruct (Z.ltb_spec i 0); [done|]. intros Hx.
  split; [|done]. apply lookup_lt_Some in Hx. lia.
Qed.

Lemma Array_splice1_in_range {A} (a : list A) (i : Z) :
  0 <= i < Z.of_nat (length a) -> Array.splice1 a i = delete (Z.to_nat i) a.
Proof.
  intros Hi. unfold Array.splice1. replace (i <? 0) with false by lia.
  by replace (Z.min i (Z.of_nat (length a))) with i by lia.
Qed.

Lemma Array_set_in_range {A} (a : list A) (i : Z) (x : A) :
  0 <= i -> Array.set a i x = <[Z.to_nat i := x]> a.
Proof. intros Hi. unfold Array.set. by replace (i <? 0) with false by lia. Qed.

Lemma delete_lookup_0 {A} (l : list A) (i : nat) :
  (1 <= i)%nat -> delete i l !! 0%nat = l !! 0%nat.
Proof. destruct l, i; simpl; try done; lia. Qed.

Lemma delete_NoDup {A} (l : list A) (i : nat) : NoDup l -> NoDup (delete i l).
Proof. intros H. eapply sublist_NoDup; [done|apply sublist_delete]. Qed.

Lemma delete_Forall {A} (P : A -> Prop) (l : list A) (i : nat) :
  Forall P l -> Forall P (delete i l).
Proof.
  rewrite !Forall_forall. intros H x Hx. apply H.
  eapply elem_of_sublist; [done|apply sublist_delete].
Qed.

Lemma delete_length_lt {A} (l : list A) (i : nat) :
  (i < length l)%nat -> length (delete i l) = (length l - 1)%nat.
Proof. intros Hi. apply length_delete. by apply lookup_lt_is_Some_2. Qed.

(** Removing the entry with index [k] from a list of distinct indices below
    [n] and lowering every larger index by one leaves distinct indices below
    [n - 1]. *)
Lemma renumber_indices (l : list Z) (j : nat) (k n : Z) :
  NoDup l ->
  Forall (λ i, 0 <= i < n) l ->
  l !! j = Some k ->
  let f := λ i, if i >? k then i - 1 else i in
  NoDup (delete j (f <$> l)) /\ Forall (λ i, 0 <= i < n - 1) (delete j (f <$> l)).
Proof.
  intros Hnd Hrange Hj f. rewrite <- list_fmap_delete.
  pose proof (delete_Permutation l j k Hj) as Hperm.
  assert (Hnd' : NoDup (k :: delete j l)) by by rewrite <- Hperm.
  apply NoDup_cons in Hnd' as [Hk Hnd'].
  assert (Hrange' : Forall (λ i, 0 <= i < n) (k :: delete j l)) by by rewrite <- Hperm.
  apply Forall_cons in Hrange' as [Hkn Hrange'].
  split.
  - apply NoDup_fmap_2_strong; [|done].
    intros x y Hx Hy. unfold f.
    assert (x <> k) by (intros ->; done). assert (y <> k) by (intros ->; done).
    destruct (Z.gtb_spec x k), (Z.gtb_spec y k); lia.
  - apply Forall_fmap. apply Forall_forall. intros x Hx.
    assert (x <> k) by (intros ->; done).
    rewrite Forall_forall in Hrange'. specialize (Hrange' x Hx).
    unfold f. simpl. destruct (Z.gtb_spec x k); lia.
Qed.

(** ** The store *)

#[local] Arguments Cursor.new : simpl never.
#[local] Arguments Cursor.on_cursor : simpl never.
#[local] Arguments Cursor._setState_obj : simpl never.
#[local] Arguments Cursor._computeStates : simpl never.
#[local] Arguments Array.splice1 : simpl never.
#[local] Arguments Array.get : simpl never.
#[local] Arguments Array.set : simpl never.

Lemma on_cursor_inv (f : TrackedRanges -> Cursor -> TrackedRanges * Cursor)
    (s s' : Store) (this : nat) :
  Cursor.on_cursor f s this = Some s' ->
  (this < length (heap s))%nat
  /\ length (heap s') = length (heap s)
  /\ removed s' = removed s.
Proof.
  unfold Cursor.on_cursor. destruct (heap s !! this) as [c|] eqn:Hc; simpl; [|done].
  destruct (f (tracked s) c) as [t' c']. intros [= <-]. simpl.
  split; [by eapply lookup_lt_Some|]. by rewrite length_insert.
Qed.

Lemma on_cursor_Some (f : TrackedRanges -> Cursor -> TrackedRanges * Cursor)
    (s : Store) (this : nat) :
  (this < length (heap s))%nat ->
  exists s', Cursor.on_cursor f s this = Some s'.
Proof.
  intros Hthis. unfold Cursor.on_cursor.
  destruct (lookup_lt_is_Some_2 (heap s) this Hthis) as [c ->]. simpl.
  destruct (f (tracked s) c) as [t' c']. eauto.
Qed.

Lemma Cursor_new_spec (context : CursorContext) (s : Store) :
  (Cursor.new context s).2 = length (heap s)
  /\ length (heap (Cursor.new context s).1) = S (length (heap s))
  /\ removed (Cursor.new context s).1 = removed s.
Proof.
  unfold Cursor.new.
  destruct (Cursor._setState_obj _ _ _ _ _) as [t' c]. simpl.
  rewrite length_app. simpl. repeat split; lia.
Qed.

(** ** The invariant of the collection *)

Lemma keepsPrimary_refl (st : Store * CursorCollection) :
  cursors st.2 <> [] -> keepsPrimary st st.
Proof.
  intros Hne. split; [|split; [done|]].
  - destruct (cursors st.2); [done|simpl; lia].
  - exists []. by rewrite app_nil_r.
Qed.

Lemma keepsPrimary_trans (st1 st2 st3 : Store * CursorCollection) :
  keepsPrimary st1 st2 -> keepsPrimary st2 st3 -> keepsPrimary st1 st3.
Proof.
  intros (_ & H0 & new1 & Hr1 & Hn1) (Hlen & H0' & new2 & Hr2 & Hn2).
  split; [done|]. split; [congruence|].
  exists (new1 ++ new2). split; [by rewrite Hr2, Hr1, app_assoc|].
  apply Forall_app. split; [done|].
  eapply Forall_impl; [exact Hn2|]. intros r [? ?]. by rewrite <- H0.
Qed.

(** A change of the store that keeps the size of the heap and the record of
    removals keeps the invariant. *)
Lemma wf_store_change (s s' : Store) (this : CursorCollection) :
  length (heap s') = length (heap s) ->
  wf (s, this) -> wf (s', this).
Proof. intros Hlen (Hne & Hnd & Hheap). unfold wf. simpl in *. by rewrite Hlen. Qed.

Lemma keepsPrimary_store_change (st : Store * CursorCollection) (s s' : Store)
    (this this' : CursorCollection) :
  removed s' = removed s ->
  cursors this' = cursors this ->
  keepsPrimary st (s, this) -> keepsPrimary st (s', this').
Proof.
  intros Hr Hc (Hlen & H0 & new & Hnew & Hall). unfold keepsPrimary. simpl in *.
  rewrite Hr, Hc. eauto.
Qed.

Lemma addSecondaryCursor_spec (st : Store * CursorCollection) :
  wf st ->
  let st' := CursorCollection._addSecondaryCursor st in
  wf st' /\ keepsPrimary st st'
  /\ length (cursors st'.2) = S (length (cursors st.2)).
Proof.
  destruct st as [s this]. intros (Hne & Hnd & Hheap). cbn [fst snd] in *.
  unfold CursorCollection._addSecondaryCursor.
  pose proof (Cursor_new_spec (context this) s) as (Hc & Hlen & Hr).
  destruct (Cursor.new (context this) s) as [s' c]. cbn [fst snd] in *. subst c.
  split; [|split].
  - unfold wf. simpl. split; [by destruct (cursors this)|]. split.
    + apply NoDup_app. split; [done|]. split; [|apply NoDup_singleton].
      intros x Hx ->%list_elem_of_singleton.
      rewrite Forall_forall in Hheap. specialize (Hheap _ Hx). simpl in Hheap. lia.
    + apply Forall_app. split; [|constructor; [simpl; lia|constructor]].
      eapply Forall_impl; [exact Hheap|]. simpl. lia.
  - unfold keepsPrimary. simpl. split; [rewrite length_app; simpl; lia|]. split.
    + destruct (cursors this); done.
    + exists []. by rewrite app_nil_r.
  - simpl. rewrite length_app. simpl. lia.
Qed.

Lemma removeSecondaryCursor_spec (st : Store * CursorCollection) (removeIndex : Z) :
  wf st ->
  0 <= removeIndex ->
  removeIndex + 1 < Z.of_nat (length (cursors st.2)) ->
  exists st', CursorCollection._removeSecondaryCursor st removeIndex = Some st'
    /\ wf st' /\ keepsPrimary st st'
    /\ cursors st'.2 = delete (Z.to_nat (removeIndex + 1)) (cursors st.2)
    /\ context st'.2 = context st.2
    /\ length (heap st'.1) = length (heap st.1).
Proof.
  destruct st as [s this]. intros (Hne & Hnd & Hheap) H0 Hlt. simpl in *.
  unfold CursorCollection._removeSecondaryCursor.
  destruct (Array_get_Some (cursors this) (removeIndex + 1)) as (c & -> & Hc); [lia|].
  simpl.
  assert (Hcheap : (c < length (heap s))%nat).
  { rewrite Forall_forall in Hheap. apply Hheap. by eapply list_elem_of_lookup_2. }
  unfold Cursor.dispose.
  destruct (on_cursor_Some Cursor._removeTrackedRange s c Hcheap) as [s' Hs'].
  rewrite Hs'. simpl. apply on_cursor_inv in Hs' as (_ & Hlen & Hr).
  eexists. split; [reflexivity|]. simpl.
  rewrite Array_splice1_in_range by lia.
  assert (Hlen' : length (delete (Z.to_nat (removeIndex + 1)) (cursors this))
                 = (length (cursors this) - 1)%nat) by (apply delete_length_lt; lia).
  split; [|split; [|done]].
  - unfold wf. simpl. split; [|split].
    + intros Hnil. rewrite Hnil in Hlen'. simpl in Hlen'. lia.
    + by apply delete_NoDup.
    + rewrite Hlen. by apply delete_Forall.
  - unfold keepsPrimary. simpl. split; [lia|]. split.
    + apply delete_lookup_0. lia.
    + exists [(removeIndex + 1, c)]. rewrite Hr. split; [done|].
      constructor; [|constructor]. simpl. split; [lia|].
      intros H0c. rewrite NoDup_alt in Hnd.
      specialize (Hnd _ _ _ H0c Hc). lia.
Qed.

Lemma repeat_addSecondaryCursor_spec (n : nat) (st : Store * CursorCollection) :
  wf st ->
  exists st',
    repeatM n (λ st, Some (CursorCollection._addSecondaryCursor st)) st = Some st'
    /\ wf st' /\ keepsPrimary st st'
    /\ length (cursors st'.2) = (length (cursors st.2) + n)%nat.
Proof.
  revert st. induction n as [|n IH]; intros st Hwf; simpl.
  - exists st. split; [done|]. split; [done|].
    split; [apply keepsPrimary_refl; apply Hwf|lia].
  - destruct (addSecondaryCursor_spec st Hwf) as (Hwf1 & Hk1 & Hlen1).
    destruct (IH _ Hwf1) as (st' & Hst' & Hwf' & Hk' & Hlen').
    exists st'. split; [done|]. split; [done|].
    split; [by eapply keepsPrimary_trans|lia].
Qed.

Lemma repeat_removeSecondaryCursor_spec (n : nat) (st : Store * CursorCollection) :
  wf st ->
  (n < length (cursors st.2))%nat ->
  exists st',
    repeatM n
      (λ st, CursorCollection._removeSecondaryCursor st
               (Z.of_nat (length (cursors st.2)) - 2)) st = Some st'
    /\ wf st' /\ keepsPrimary st st'
    /\ length (cursors st'.2) = (length (cursors st.2) - n)%nat.
Proof.
  revert st. induction n as [|n IH]; intros st Hwf Hn; simpl.
  - exists st. split; [done|]. split; [done|].
    split; [apply keepsPrimary_refl; apply Hwf|lia].
  - destruct (removeSecondaryCursor_spec st (Z.of_nat (length (cursors st.2)) - 2))
      as (st1 & -> & Hwf1 & Hk1 & Hc1 & _); [done|lia|lia|]. simpl.
    assert (Hlen1 : length (cursors st1.2) = (length (cursors st.2) - 1)%nat).
    { rewrite Hc1. apply delete_length_lt. lia. }
    destruct (IH st1 Hwf1) as (st' & Hst' & Hwf' & Hk' & Hlen'); [lia|].
    exists st'. split; [done|]. split; [done|].
    split; [by eapply keepsPrimary_trans|lia].
Qed.

Lemma setSecondaryStates_assign_spec (secondaryStates : list PartialCursorState)
    (s : Store) (this : CursorCollection) (i : Z) :
  Forall (λ c, (c < length (heap s))%nat) (cursors this) ->
  0 <= i ->
  i + Z.of_nat (length secondaryStates) < Z.of_nat (length (cursors this)) ->
  exists s',
    CursorCollection._setSecondaryStates_assign s this i secondaryStates = Some s'
    /\ length (heap s') = length (heap s)
    /\ removed s' = removed s.
Proof.
  revert s i. induction secondaryStates as [|state rest IH]; intros s i Hheap Hi Hlen;
    simpl.
  - by exists s.
  - simpl in Hlen.
    destruct (Array_get_Some (cursors this) (i + 1)) as (c & -> & Hc); [lia|]. simpl.
    assert (Hcheap : (c < length (heap s))%nat).
    { rewrite Forall_forall in Hheap. apply Hheap. by eapply list_elem_of_lookup_2. }
    unfold Cursor.setState, Cursor._setState.
    destruct (on_cursor_Some
                (λ t o, Cursor._setState_obj (context this) t o
                          (p_modelState state) (p_viewState state)) s c Hcheap)
      as [s1 Hs1].
    rewrite Hs1. simpl. apply on_cursor_inv in Hs1 as (_ & Hlen1 & Hr1).
    destruct (IH s1 (i + 1)) as (s' & Hs' & Hlen' & Hr'); [by rewrite Hlen1|lia|lia|].
    exists s'. split; [done|]. split; congruence.
Qed.

Lemma setSecondaryStates_spec (st : Store * CursorCollection)
    (secondaryStates : list PartialCursorState) :
  wf st ->
  exists st',
    CursorCollection._setSecondaryStates st secondaryStates = Some st'
    /\ wf st' /\ keepsPrimary st st'
    /\ length (cursors st'.2) = S (length secondaryStates).
Proof.
  intros Hwf. unfold CursorCollection._setSecondaryStates.
  assert (Hne : (1 <= length (cursors st.2))%nat).
  { destruct Hwf as (Hne & _). destruct (cursors st.2); [done|simpl; lia]. }
  assert (Hloops : exists st1,
    (if Z.of_nat (length (cursors st.2)) - 1 <? Z.of_nat (length secondaryStates) then
       repeatM (Z.to_nat (Z.of_nat (length secondaryStates)
                          - (Z.of_nat (length (cursors st.2)) - 1)))
         (λ st, Some (CursorCollection._addSecondaryCursor st)) st
     else if Z.of_nat (length (cursors st.2)) - 1 >? Z.of_nat (length secondaryStates) then
       repeatM (Z.to_nat (Z.of_nat (length (cursors st.2)) - 1
                          - Z.of_nat (length secondaryStates)))
         (λ st, CursorCollection._removeSecondaryCursor st
                  (Z.of_nat (length (cursors st.2)) - 2)) st
     else Some st) = Some st1
    /\ wf st1 /\ keepsPrimary st st1
    /\ length (cursors st1.2) = S (length secondaryStates)).
  { destruct (Z.ltb_spec (Z.of_nat (length (cursors st.2)) - 1)
                (Z.of_nat (length secondaryStates))) as [Hlt|Hge].
    - destruct (repeat_addSecondaryCursor_spec
                  (Z.to_nat (Z.of_nat (length secondaryStates)
                             - (Z.of_nat (length (cursors st.2)) - 1))) st Hwf)
        as (st1 & H1 & Hwf1 & Hk1 & Hlen1).
      exists st1. split; [done|]. split; [done|]. split; [done|lia].
    - destruct (Z.gtb_spec (Z.of_nat (length (cursors st.2)) - 1)
                  (Z.of_nat (length secondaryStates))) as [Hgt|Hle].
      + destruct (repeat_removeSecondaryCursor_spec
                    (Z.to_nat (Z.of_nat (length (cursors st.2)) - 1
                               - Z.of_nat (length secondaryStates))) st Hwf)
          as (st1 & H1 & Hwf1 & Hk1 & Hlen1); [lia|].
        exists st1. split; [done|]. split; [done|]. split; [done|lia].
      + exists st. split; [done|]. split; [done|].
        split; [apply keepsPrimary_refl, Hwf|lia]. }
  destruct Hloops as (st1 & -> & Hwf1 & Hk1 & Hlen1). simpl.
  destruct (setSecondaryStates_assign_spec secondaryStates st1.1 st1.2 0)
    as (s' & -> & Hlen' & Hr'); [apply Hwf1|lia|lia|]. simpl.
  eexists. split; [reflexivity|]. split; [|split; [|done]].
  - destruct st1 as [s1 this1]. by eapply wf_store_change.
  - destruct st1 as [s1 this1]. by eapply keepsPrimary_store_change.
Qed.

Lemma setStates_spec (st : Store * CursorCollection)
    (state0 : PartialCursorState) (rest : list PartialCursorState) :
  wf st ->
  exists st',
    CursorCollection.setStates st (Some (state0 :: rest)) = Some st'
    /\ wf st' /\ keepsPrimary st st'
    /\ length (cursors st'.2) = length (state0 :: rest).
Proof.
  intros Hwf. destruct st as [s this]. unfold CursorCollection.setStates.
  cbn [fst snd].
  destruct (cursors this) as [|c cs] eqn:Hcs; [by destruct Hwf|].
  change (Array.get (c :: cs) 0) with (Some c).
  change (Array.get (state0 :: rest) 0) with (Some state0).
  cbn [mbind option_bind drop].
  assert (Hcheap : (c < length (heap s))%nat).
  { destruct Hwf as (_ & _ & Hheap). simpl in Hheap. rewrite Hcs in Hheap.
    by apply Forall_cons in Hheap as [? _]. }
  unfold Cursor.setState, Cursor._setState.
  destruct (on_cursor_Some
              (λ t o, Cursor._setState_obj (context this) t o
                        (p_modelState state0) (p_viewState state0)) s c Hcheap)
    as [s1 Hs1].
  rewrite Hs1. cbn [mbind option_bind].
  apply on_cursor_inv in Hs1 as (_ & Hlen1 & Hr1).
  assert (Hwf1 : wf (s1, this)) by by eapply wf_store_change.
  change (drop 0 rest) with rest.
  destruct (setSecondaryStates_spec (s1, this) rest Hwf1) as (st' & -> & Hwf' & Hk' & Hlen').
  exists st'. split; [done|]. split; [done|]. split; [|done].
  eapply keepsPrimary_trans; [|exact Hk'].
  eapply keepsPrimary_store_change; [exact Hr1|reflexivity|].
  apply keepsPrimary_refl. apply Hwf.
Qed.

(** ** The loop of normalize *)

Lemma merge_selections_spec (st0 : Store * CursorCollection) (n : NormalizeState)
    (looserIndex winnerIndex winnerSortedCursorIndex : Z)
    (looserSelection winnerSelection : Selection) :
  NInv st0 n ->
  0 <= winnerSortedCursorIndex ->
  (index <$> n_sortedCursors n) !! Z.to_nat winnerSortedCursorIndex = Some winnerIndex ->
  exists n1,
    CursorCollection.merge_selections n looserIndex winnerIndex winnerSortedCursorIndex
      looserSelection winnerSelection = Some n1
    /\ NInv st0 n1
    /\ index <$> n_sortedCursors n1 = index <$> n_sortedCursors n
    /\ n_cursors n1 = n_cursors n
    /\ n_sortedCursorIndex n1 = n_sortedCursorIndex n.
Proof.
  intros (Hcopy & Hwf & Hkeep & Hrange & Hnd & Hidx & Hctx) Hw0 Hw.
  unfold CursorCollection.merge_selections.
  set (resultingRange := Selection.plusRange looserSelection winnerSelection).
  destruct (if looserIndex =? lastAddedCursorIndex (n_this n) then _ else _)
    as [resultingSelectionIsLTR lastAddedCursorIndex'].
  set (resultingSelection := if resultingSelectionIsLTR then _ else _).
  assert (Hwrange : 0 <= winnerIndex < Z.of_nat (length (n_cursors n))).
  { rewrite Forall_forall in Hrange. apply Hrange. by eapply list_elem_of_lookup_2. }
  destruct (Array_get_Some (n_cursors n) winnerIndex Hwrange) as (c & -> & Hc).
  cbn [mbind option_bind].
  assert (Hcheap : (c < length (heap (n_store n)))%nat).
  { destruct Hwf as (_ & _ & Hheap). cbn [fst snd] in Hheap.
    rewrite Forall_forall in Hheap. apply Hheap. rewrite <- Hcopy.
    by eapply list_elem_of_lookup_2. }
  unfold Cursor.setState, Cursor._setState.
  match goal with
  | |- context [Cursor.on_cursor ?f (n_store n) c] =>
      destruct (on_cursor_Some f (n_store n) c Hcheap) as [s1 Hs1]
  end.
  rewrite Hs1. cbn [mbind option_bind].
  apply on_cursor_inv in Hs1 as (_ & Hlen1 & Hr1).
  eexists. split; [reflexivity|].
  assert (Hsame : index <$> Array.set (n_sortedCursors n) winnerSortedCursorIndex
                              (mkSortedCursor winnerIndex resultingSelection)
                  = index <$> n_sortedCursors n).
  { rewrite Array_set_in_range by done. rewrite list_fmap_insert. simpl.
    by apply list_insert_id. }
  split; [|by split].
  unfold NInv. cbn [n_cursors n_this n_store n_sortedCursors n_sortedCursorIndex
                    cursors context].
  rewrite Hsame. repeat split; try done.
  - apply Hwf.
  - apply Hwf.
  - cbn [fst snd heap cursors]. rewrite Hlen1. apply Hwf.
  - apply Hkeep.
  - cbn [fst snd cursors]. apply Hkeep.
  - cbn [fst snd cursors removed]. rewrite Hr1. apply Hkeep.
Qed.

Lemma index_renumbered (l : list SortedCursor) (k : Z) :
  index <$> ((λ sortedCursor,
                if index sortedCursor >? k
                then mkSortedCursor (index sortedCursor - 1) (selection sortedCursor)
                else sortedCursor) <$> l)
  = (λ i, if i >? k then i - 1 else i) <$> (index <$> l).
Proof.
  rewrite <- !list_fmap_compose. apply list_fmap_ext. intros i x _. simpl.
  by destruct (index x >? k).
Qed.

Lemma normalize_merge_spec (st0 : Store * CursorCollection) (n : NormalizeState)
    (winnerSortedCursorIndex looserSortedCursorIndex : Z) (winner looser : SortedCursor) :
  NInv st0 n ->
  0 <= winnerSortedCursorIndex ->
  0 <= looserSortedCursorIndex ->
  n_sortedCursors n !! Z.to_nat winnerSortedCursorIndex = Some winner ->
  n_sortedCursors n !! Z.to_nat looserSortedCursorIndex = Some looser ->
  index winner < index looser ->
  exists n',
    CursorCollection.normalize_merge n winnerSortedCursorIndex looserSortedCursorIndex
    = Some n'
    /\ NInv st0 n'
    /\ length (n_sortedCursors n') = (length (n_sortedCursors n) - 1)%nat
    /\ length (cursors (n_this n')) = (length (cursors (n_this n)) - 1)%nat
    /\ n_sortedCursorIndex n' = n_sortedCursorIndex n.
Proof.
  intros HInv Hw0 Hl0 Hw Hl Hlt.
  unfold CursorCollection.normalize_merge.
  assert (Hllen : (Z.to_nat looserSortedCursorIndex < length (n_sortedCursors n))%nat)
    by by eapply lookup_lt_Some.
  assert (Hwlen : (Z.to_nat winnerSortedCursorIndex < length (n_sortedCursors n))%nat)
    by by eapply lookup_lt_Some.
  destruct (Array_get_Some (n_sortedCursors n) looserSortedCursorIndex)
    as (looser' & -> & Hl'); [lia|].
  destruct (Array_get_Some (n_sortedCursors n) winnerSortedCursorIndex)
    as (winner' & -> & Hw'); [lia|].
  assert (looser' = looser) as -> by congruence.
  assert (winner' = winner) as -> by congruence.
  cbn [mbind option_bind].
  assert (Hwi : (index <$> n_sortedCursors n) !! Z.to_nat winnerSortedCursorIndex
                = Some (index winner)) by by rewrite list_lookup_fmap, Hw.
  assert (Hli : (index <$> n_sortedCursors n) !! Z.to_nat looserSortedCursorIndex
                = Some (index looser)) by by rewrite list_lookup_fmap, Hl.
  assert (Hst1 : exists n1,
    (if negb (Selection.equalsSelection (selection looser) (selection winner))
     then CursorCollection.merge_selections n (index looser) (index winner)
            winnerSortedCursorIndex (selection looser) (selection winner)
     else Some n) = Some n1
    /\ NInv st0 n1
    /\ index <$> n_sortedCursors n1 = index <$> n_sortedCursors n
    /\ n_cursors n1 = n_cursors n
    /\ n_sortedCursorIndex n1 = n_sortedCursorIndex n).
  { destruct (negb _).
    - by apply merge_selections_spec.
    - by exists n. }
  destruct Hst1 as (n1 & -> & HInv1 & Hidxs & Hcs & Hi). cbn [mbind option_bind].
  destruct HInv1 as (Hcopy & Hwf & Hkeep & Hrange & Hnd & Hidx & Hctx).
  assert (Hlrange : 0 <= index looser < Z.of_nat (length (n_cursors n1))).
  { rewrite Forall_forall in Hrange. apply Hrange. rewrite Hidxs.
    by eapply list_elem_of_lookup_2. }
  assert (Hwrange : 0 <= index winner).
  { rewrite Forall_forall in Hrange. apply (Hrange (index winner)). rewrite Hidxs.
    by eapply list_elem_of_lookup_2. }
  destruct (removeSecondaryCursor_spec (n_store n1, n_this n1) (index looser - 1))
    as (st' & -> & Hwf' & Hkeep' & Hcursors' & Hctx' & _); [done|lia|..].
  { cbn [fst snd]. rewrite <- Hcopy. lia. }
  destruct st' as [s' this']. cbn [mbind option_bind fst snd] in *.
  replace (index looser - 1 + 1) with (index looser) in Hcursors' by lia.
  eexists. split; [reflexivity|].
  assert (Hlen_sorted : length (n_sortedCursors n1) = length (n_sortedCursors n)).
  { by rewrite <- (length_fmap index), Hidxs, length_fmap. }
  assert (Hclen : length (cursors this') = (length (cursors (n_this n1)) - 1)%nat).
  { rewrite Hcursors'. apply delete_length_lt. rewrite <- Hcopy. lia. }
  cbn [n_cursors n_this n_store n_sortedCursors n_sortedCursorIndex].
  rewrite !Array_splice1_in_range by (rewrite ?length_fmap; lia).
  destruct (renumber_indices (index <$> n_sortedCursors n1)
              (Z.to_nat looserSortedCursorIndex) (index looser)
              (Z.of_nat (length (n_cursors n1)))) as [Hnd' Hrange'];
    [done|done|by rewrite Hidxs|].
  split; [|split; [|split]].
  - unfold NInv.
    cbn [n_cursors n_this n_store n_sortedCursors n_sortedCursorIndex].
    rewrite list_fmap_delete, index_renumbered.
    split; [by rewrite Hcopy, Hcursors'|]. split; [done|].
    split; [by eapply keepsPrimary_trans|].
    split; [|split; [done|split; [lia|congruence]]].
    rewrite delete_length_lt by lia.
    eapply Forall_impl; [exact Hrange'|]. simpl. lia.
  - rewrite delete_length_lt; rewrite length_fmap; lia.
  - rewrite Hclen. rewrite <- Hcopy, Hcs.
    destruct HInv as (Hcopy0 & _). by rewrite Hcopy0.
  - lia.
Qed.

Lemma normalize_step_spec (st0 : Store * CursorCollection) (n : NormalizeState) :
  NInv st0 n ->
  n_sortedCursorIndex n < Z.of_nat (length (n_sortedCursors n)) - 1 ->
  exists current next n',
    n_sortedCursors n !! Z.to_nat (n_sortedCursorIndex n) = Some current
    /\ n_sortedCursors n !! Z.to_nat (n_sortedCursorIndex n + 1) = Some next
    /\ CursorCollection.normalize_step n = Some n'
    /\ NInv st0 n'
    /\ (if multiCursorMergeOverlapping (cursorConfig (context (n_this n)))
           && CursorCollection.shouldMergeCursors (selection current) (selection next)
        then length (n_sortedCursors n') = (length (n_sortedCursors n) - 1)%nat
             /\ length (cursors (n_this n')) = (length (cursors (n_this n)) - 1)%nat
             /\ n_sortedCursorIndex n' = n_sortedCursorIndex n
        else n_sortedCursors n' = n_sortedCursors n
             /\ (n_store n', n_this n') = (n_store n, n_this n)
             /\ n_sortedCursorIndex n' = n_sortedCursorIndex n + 1).
Proof.
  intros HInv Hlt.
  pose proof HInv as (Hcopy & Hwf & Hkeep & Hrange & Hnd & Hidx & Hctx).
  unfold CursorCollection.normalize_step.
  destruct (Array_get_Some (n_sortedCursors n) (n_sortedCursorIndex n))
    as (current & -> & Hcur); [lia|].
  destruct (Array_get_Some (n_sortedCursors n) (n_sortedCursorIndex n + 1))
    as (next & -> & Hnext); [lia|].
  cbn [mbind option_bind].
  exists current, next.
  assert (Hcontinue :
    NInv st0 (mkNormalizeState (n_store n) (n_this n) (n_cursors n) (n_sortedCursors n)
                (n_sortedCursorIndex n + 1))).
  { unfold NInv. cbn [n_cursors n_this n_store n_sortedCursors n_sortedCursorIndex].
    repeat split; try done; try apply Hwf; try apply Hkeep. lia. }
  destruct (multiCursorMergeOverlapping _); cbn [negb andb];
    [|eexists; split; [exact Hcur|]; split; [exact Hnext|]; split; [reflexivity|];
      split; [exact Hcontinue|]; by repeat split].
  destruct (CursorCollection.shouldMergeCursors _ _);
    [|eexists; split; [exact Hcur|]; split; [exact Hnext|]; split; [reflexivity|];
      split; [exact Hcontinue|]; by repeat split].
  assert (Hne : index current <> index next).
  { intros Heq. rewrite NoDup_alt in Hnd.
    assert (Z.to_nat (n_sortedCursorIndex n) = Z.to_nat (n_sortedCursorIndex n + 1)); [|lia].
    apply (Hnd _ _ (index current)); rewrite list_lookup_fmap.
    - by rewrite Hcur.
    - by rewrite Hnext, Heq. }
  destruct (Z.ltb_spec (index current) (index next)) as [Hcn|Hcn].
  - destruct (normalize_merge_spec st0 n (n_sortedCursorIndex n) (n_sortedCursorIndex n + 1)
                current next) as (n' & Hn' & HInv' & H1 & H2 & H3); try done; try lia.
    exists n'. split; [done|]. split; [done|]. split; [done|]. split; [done|].
    by repeat split.
  - destruct (normalize_merge_spec st0 n (n_sortedCursorIndex n + 1) (n_sortedCursorIndex n)
                next current) as (n' & Hn' & HInv' & H1 & H2 & H3); try done; try lia.
    exists n'. split; [done|]. split; [done|]. split; [done|]. split; [done|].
    by repeat split.
Qed.

Lemma normalize_loop_spec (st0 : Store * CursorCollection) (fuel : nat)
    (n : NormalizeState) :
  NInv st0 n ->
  2 * Z.of_nat (length (n_sortedCursors n)) - n_sortedCursorIndex n <= Z.of_nat fuel ->
  exists n', CursorCollection.normalize_loop fuel n = Some n' /\ NInv st0 n'.
Proof.
  revert n. induction fuel as [|fuel IH]; intros n HInv Hfuel;
    pose proof HInv as (_ & _ & _ & _ & _ & Hidx & _); simpl.
  - destruct (Z.ltb_spec (n_sortedCursorIndex n)
                (Z.of_nat (length (n_sortedCursors n)) - 1)); [lia|]. by exists n.
  - destruct (Z.ltb_spec (n_sortedCursorIndex n)
                (Z.of_nat (length (n_sortedCursors n)) - 1)) as [Hlt|]; [|by exists n].
    destruct (normalize_step_spec st0 n HInv Hlt)
      as (current & next & n1 & _ & _ & -> & HInv1 & Hcase).
    cbn [mbind option_bind]. apply IH; [done|].
    destruct (_ && _).
    + destruct Hcase as (H1 & _ & H3). lia.
    + destruct Hcase as (H1 & _ & H3). rewrite H1, H3. lia.
Qed.

Lemma snapshot_spec (s : Store) (cs : list nat) (i : Z) :
  Forall (λ c, (c < length (heap s))%nat) cs ->
  exists l, CursorCollection.snapshot s i cs = Some l
    /\ index <$> l = seqZ i (Z.of_nat (length cs)).
Proof.
  revert i. induction cs as [|c cs IH]; intros i Hheap; simpl.
  - by exists [].
  - apply Forall_cons in Hheap as [Hc Hheap].
    destruct (lookup_lt_is_Some_2 (heap s) c Hc) as [o ->]. simpl.
    destruct (IH (i + 1) Hheap) as (l & -> & Hl). simpl.
    eexists. split; [reflexivity|]. rewrite fmap_cons. cbn [index]. rewrite Hl.
    rewrite (seqZ_cons i) by (simpl; lia). f_equal. f_equal; simpl; lia.
Qed.

Lemma normalize_spec (st : Store * CursorCollection) :
  wf st ->
  exists st', CursorCollection.normalize st = Some st' /\ wf st' /\ keepsPrimary st st'.
Proof.
  intros Hwf. destruct st as [s this]. unfold CursorCollection.normalize.
  destruct (Z.eqb_spec (Z.of_nat (length (cursors this))) 1).
  { exists (s, this). split; [done|]. split; [done|]. apply keepsPrimary_refl, Hwf. }
  destruct (snapshot_spec s (cursors this) 0) as (l & -> & Hl); [apply Hwf|].
  cbn [mbind option_bind].
  set (sorted := Array.sort _ l).
  assert (Hperm : index <$> sorted ≡ₚ seqZ 0 (Z.of_nat (length (cursors this)))).
  { rewrite <- Hl. apply fmap_Permutation. apply sort_perm. }
  destruct (normalize_loop_spec (s, this) (2 * length (cursors this))
              (mkNormalizeState s this (cursors this) sorted 0))
    as (n' & -> & HInv').
  - unfold NInv. cbn [n_cursors n_this n_store n_sortedCursors n_sortedCursorIndex].
    split; [done|]. split; [done|]. split; [apply keepsPrimary_refl, Hwf|].
    split; [|split; [|done]].
    + rewrite Hperm. apply Forall_forall. intros i Hi.
      apply elem_of_seqZ in Hi. lia.
    + rewrite Hperm. apply NoDup_seqZ.
  - cbn [n_sortedCursors n_sortedCursorIndex].
    assert (length sorted = length (cursors this)).
    { rewrite <- (length_fmap index), Hperm, length_seqZ. lia. }
    lia.
  - cbn [mbind option_bind]. eexists. split; [reflexivity|].
    destruct HInv' as (_ & Hwf' & Hkeep' & _). done.
Qed.

Lemma new_spec (context : CursorContext) (s : Store) :
  wf (CursorCollection.new context s)
  /\ length (cursors (CursorCollection.new context s).2) = 1%nat
  /\ removed (CursorCollection.new context s).1 = removed s.
Proof.
  unfold CursorCollection.new.
  pose proof (Cursor_new_spec context s) as (Hc & Hlen & Hr).
  destruct (Cursor.new context s) as [s' c]. cbn [fst snd] in *. subst c.
  split; [|done]. unfold wf. cbn [fst snd cursors].
  split; [done|]. split; [apply NoDup_singleton|].
  constructor; [lia|constructor].
Qed.

Lemma overlappingPair_wf : wf overlappingPair.
Proof.
  unfold wf, overlappingPair. cbn [fst snd cursors heap length].
  split; [done|]. split.
  - apply NoDup_cons. split; [|apply NoDup_singleton].
    by intros ?%list_elem_of_singleton.
  - repeat constructor.
Qed.

(** ** The cursor collection *)

(** C2: a collection always holds its primary cursor.  A new collection is
    well formed and holds one cursor; from a well-formed collection every
    call of [setStates] that returns, [killSecondaryCursors] and [normalize]
    lead to a well-formed collection with at least one cursor, with the same
    cursor object at index 0, and every cursor removed on the way was removed
    from an index of 1 or more and is not the primary cursor. *)
Theorem collection_keeps_primary :
  (forall (context : CursorContext) (s : Store),
     wf (CursorCollection.new context s)
     /\ length (cursors (CursorCollection.new context s).2) = 1%nat
     /\ removed (CursorCollection.new context s).1 = removed s)
  /\ (forall st : Store * CursorCollection,
        wf st ->
        (forall states st',
           CursorCollection.setStates st states = Some st' ->
           wf st' /\ keepsPrimary st st')
        /\ (exists st',
              CursorCollection.killSecondaryCursors st = Some st'
              /\ wf st' /\ keepsPrimary st st'
              /\ length (cursors st'.2) = 1%nat)
        /\ (exists st',
              CursorCollection.normalize st = Some st'
              /\ wf st' /\ keepsPrimary st st')).
Proof.
  split; [apply new_spec|].
  intros st Hwf. split; [|split].
  - intros [[|state0 rest]|] st' Hst'.
    + unfold CursorCollection.setStates in Hst'.
      destruct (Array.get (cursors st.2) 0); done.
    + destruct (setStates_spec st state0 rest Hwf) as (st'' & Hst'' & Hwf'' & Hk'' & _).
      rewrite Hst'' in Hst'. by injection Hst' as <-.
    + injection Hst' as <-. split; [done|]. apply keepsPrimary_refl, Hwf.
  - unfold CursorCollection.killSecondaryCursors.
    destruct (setSecondaryStates_spec st [] Hwf) as (st' & Hst' & Hwf' & Hk' & Hlen').
    by exists st'.
  - by apply normalize_spec.
Qed.

Lemma collection_keeps_primary_witness :
  (exists st',
     CursorCollection.killSecondaryCursors overlappingPair = Some st'
     /\ wf st' /\ keepsPrimary overlappingPair st'
     /\ length (cursors st'.2) = 1%nat)
  /\ (exists st',
        CursorCollection.normalize overlappingPair = Some st'
        /\ wf st' /\ keepsPrimary overlappingPair st').
Proof.
  apply (proj2 collection_keeps_primary overlappingPair overlappingPair_wf).
Defined.

(** C10: [setStates] returns at once for null and only for null: given an
    empty array it throws on reading [states[0]], and given a non-empty array
    it runs to the end, on a well-formed collection, without reading outside
    an array, and leaves as many cursors as there are states. *)
Theorem setStates_precondition (st : Store * CursorCollection) :
  CursorCollection.setStates st None = Some st
  /\ CursorCollection.setStates st (Some []) = None
  /\ (forall state0 rest,
        wf st ->
        exists st',
          CursorCollection.setStates st (Some (state0 :: rest)) = Some st'
          /\ length (cursors st'.2) = length (state0 :: rest)).
Proof.
  split; [done|]. split.
  - unfold CursorCollection.setStates. destruct (Array.get (cursors st.2) 0); done.
  - intros state0 rest Hwf.
    destruct (setStates_spec st state0 rest Hwf) as (st' & Hst' & _ & _ & Hlen).
    by exists st'.
Qed.

Lemma setStates_precondition_witness :
  exists st',
    CursorCollection.setStates overlappingPair
      (Some [CursorState.fromModelSelection (Selection.new 2 1 2 1)]) = Some st'
    /\ length (cursors st'.2)
       = length [CursorState.fromModelSelection (Selection.new 2 1 2 1)].
Proof.
  apply (proj2 (proj2 (setStates_precondition overlappingPair))).
  apply overlappingPair_wf.
Defined.

(** ** Merging two cursors *)

Lemma on_cursor_eq (f : TrackedRanges -> Cursor -> TrackedRanges * Cursor)
    (s : Store) (this : nat) (o : Cursor) :
  heap s !! this = Some o ->
  Cursor.on_cursor f s this
  = Some (mkStore (<[this := (f (tracked s) o).2]> (heap s)) (f (tracked s) o).1
            (removed s)).
Proof.
  intros Ho. unfold Cursor.on_cursor. rewrite Ho. simpl.
  by destruct (f (tracked s) o).
Qed.

Lemma setState_obj_modelState (context : CursorContext) (t : TrackedRanges) (o : Cursor)
    (modelState' viewState' : option SingleCursorState) (m v : SingleCursorState) :
  Cursor._computeStates context modelState' viewState' = Some (m, v) ->
  modelState (Cursor._setState_obj context t o modelState' viewState').2 = m.
Proof.
  intros H. unfold Cursor._setState_obj. rewrite H.
  unfold Cursor._updateTrackedRange. cbn [_trackSelection _selTrackedRange modelState].
  destruct (negb _); [done|]. by destruct (_setTrackedRange _ _ _ _).
Qed.

Lemma removeTrackedRange_modelState (t : TrackedRanges) (o : Cursor) :
  modelState (Cursor._removeTrackedRange t o).2 = modelState o.
Proof.
  unfold Cursor._removeTrackedRange. by destruct (_setTrackedRange _ _ _ _).
Qed.

Lemma toRange_inv (s : Selection) (sl sc el ec : Z) :
  Selection.toRange s = rawRange sl sc el ec ->
  s = Selection.new sl sc el ec \/ s = Selection.new el ec sl sc.
Proof.
  destruct s as [a b c d]. unfold Selection.toRange, Range.new. simpl.
  destruct (_ || _); intros [= -> -> -> ->]; [by right|by left].
Qed.

Lemma normalize_loop_S (fuel : nat) (n : NormalizeState) :
  n_sortedCursorIndex n < Z.of_nat (length (n_sortedCursors n)) - 1 ->
  CursorCollection.normalize_loop (S fuel) n
  = CursorCollection.normalize_step n ≫= CursorCollection.normalize_loop fuel.
Proof.
  intros H. simpl.
  destruct (Z.ltb_spec (n_sortedCursorIndex n)
              (Z.of_nat (length (n_sortedCursors n)) - 1)); [done|lia].
Qed.

Lemma normalize_loop_done (fuel : nat) (n : NormalizeState) :
  ~ n_sortedCursorIndex n < Z.of_nat (length (n_sortedCursors n)) - 1 ->
  CursorCollection.normalize_loop fuel n = Some n.
Proof.
  intros H.
  destruct fuel; simpl;
    destruct (Z.ltb_spec (n_sortedCursorIndex n)
                (Z.of_nat (length (n_sortedCursors n)) - 1)); done.
Qed.

(** The document state [setState] assigns for the merged selection, in either
    direction. *)
Lemma computeStates_merged (context : CursorContext) (a b : Z) :
  (a = 1 /\ b = 8) \/ (a = 8 /\ b = 1) ->
  validatePosition (model context) (mkPosition 1 1) = mkPosition 1 1 ->
  validatePosition (model context) (mkPosition 1 8) = mkPosition 1 8 ->
  validateRange (model context) (rawRange 1 1 1 1) = rawRange 1 1 1 1 ->
  validateRange (model context) (rawRange 1 8 1 8) = rawRange 1 8 1 8 ->
  exists m v,
    Cursor._computeStates context
      (p_modelState (CursorState.fromModelSelection (Selection.new 1 a 1 b)))
      (p_viewState (CursorState.fromModelSelection (Selection.new 1 a 1 b)))
    = Some (m, v)
    /\ Selection.toRange (SingleCursorState.selection m) = rawRange 1 1 1 8.
Proof.
  intros Hab HvP1 HvP8 HvR1 HvR8.
  unfold Cursor._computeStates, CursorState.fromModelSelection,
    CursorState.fromModelState.
  cbn [p_modelState p_viewState fmap option_fmap option_map].
  eexists _, _. split; [reflexivity|].
  destruct Hab as [[-> ->]|[-> ->]]; cbn.
  - change (Selection.getPosition (Selection.new 1 1 1 8)) with (mkPosition 1 8).
    rewrite HvP8, HvR1. reflexivity.
  - change (Selection.getPosition (Selection.new 1 8 1 1)) with (mkPosition 1 1).
    rewrite HvP1, HvR8. reflexivity.
Qed.

(** Two cursors with the overlapping selections [1,1]-[1,5] and [1,3]-[1,8],
    in a document that validation leaves alone there, are merged into one
    cursor that selects [1,1]-[1,8]. *)
Lemma normalize_example (st : Store * CursorCollection) (s1 s2 : Selection) :
  wf st ->
  multiCursorMergeOverlapping (cursorConfig (context st.2)) = true ->
  validatePosition (model (context st.2)) (mkPosition 1 1) = mkPosition 1 1 ->
  validatePosition (model (context st.2)) (mkPosition 1 8) = mkPosition 1 8 ->
  validateRange (model (context st.2)) (rawRange 1 1 1 1) = rawRange 1 1 1 1 ->
  validateRange (model (context st.2)) (rawRange 1 8 1 8) = rawRange 1 8 1 8 ->
  CursorCollection.getSelections st.1 st.2 = Some [s1; s2] ->
  Selection.toRange s1 = rawRange 1 1 1 5 ->
  Selection.toRange s2 = rawRange 1 3 1 8 ->
  exists st' s,
    CursorCollection.normalize st = Some st'
    /\ CursorCollection.getSelections st'.1 st'.2 = Some [s]
    /\ Selection.toRange s = rawRange 1 1 1 8.
Proof.
  destruct st as [s this]. cbn [fst snd].
  intros (Hne & Hnd & Hheap) Hmulti HvP1 HvP8 HvR1 HvR8 Hsel Hr1 Hr2.
  cbn [fst snd] in *.
  unfold CursorCollection.getSelections in Hsel.
  apply mapM_Some in Hsel.
  pose proof (Forall2_length _ _ _ Hsel) as Hlen.
  destruct (cursors this) as [|c0 [|c1 [|? ?]]] eqn:Hcursors; try done.
  inversion Hsel as [|? ? ? ? H0 Hsel']; subst.
  inversion Hsel' as [|? ? ? ? H1 _]; subst.
  destruct (heap s !! c0) as [o0|] eqn:Ho0; [|done].
  destruct (heap s !! c1) as [o1|] eqn:Ho1; [|done].
  simpl in H0, H1. injection H0 as H0. injection H1 as H1.
  assert (Hc01 : c0 <> c1).
  { apply NoDup_cons in Hnd as [Hnd _]. intros ->. apply Hnd. by left. }
  assert (Hc0 : (c0 < length (heap s))%nat) by by eapply lookup_lt_Some.
  clear Hsel Hsel' Hlen Hne Hnd Hheap.
  unfold CursorCollection.normalize. rewrite Hcursors.
  change (Z.of_nat (length [c0; c1]) =? 1) with false. cbn iota.
  cbn [CursorCollection.snapshot]. rewrite Ho0, Ho1. cbn [mbind option_bind].
  rewrite H0, H1.
  change (2 * length [c0; c1])%nat with 4%nat.
  set (sorted := Array.sort _ _).
  set (n0 := mkNormalizeState s this [c0; c1] sorted 0).
  assert (Hstep : exists n1 o,
    CursorCollection.normalize_step n0 = Some n1
    /\ length (n_sortedCursors n1) = 1%nat
    /\ n_sortedCursorIndex n1 = 0
    /\ cursors (n_this n1) = [c0]
    /\ heap (n_store n1) !! c0 = Some o
    /\ Selection.toRange (SingleCursorState.selection (modelState o)) = rawRange 1 1 1 8).
  { subst n0 sorted.
    destruct (toRange_inv _ _ _ _ _ Hr1) as [Hs1|Hs1];
      destruct (toRange_inv _ _ _ _ _ Hr2) as [Hs2|Hs2]; clear Hr1 Hr2;
      rewrite Hs1, Hs2; clear H0 H1 Hs1 Hs2 s1 s2.
    all: match goal with
         | |- context [Array.sort ?f ?l] =>
             let r := eval vm_compute in (Array.sort f l) in
             change (Array.sort f l) with r
         end.
    all: unfold CursorCollection.normalize_step.
    all: cbn [n_sortedCursorIndex n_sortedCursors n_this n_store n_cursors].
    all: change (Array.get [?a; ?b] 0) with (Some a).
    all: change (Array.get [?a; ?b] (0 + 1)) with (Some b).
    all: cbn [mbind option_bind index selection].
    all: rewrite Hmulti; cbn [negb].
    all: match goal with
         | |- context [CursorCollection.shouldMergeCursors ?a ?b] =>
             change (CursorCollection.shouldMergeCursors a b) with true
         end; cbn iota.
    all: change (0 <? 1) with true; cbn iota.
    all: unfold CursorCollection.normalize_merge.
    all: cbn [n_sortedCursorIndex n_sortedCursors n_this n_store n_cursors].
    all: change (Array.get [?a; ?b] 0) with (Some a).
    all: change (Array.get [?a; ?b] (0 + 1)) with (Some b).
    all: cbn [mbind option_bind index selection].
    all: match goal with
         | |- context [Selection.equalsSelection ?a ?b] =>
             change (Selection.equalsSelection a b) with false
         end; cbn [negb].
    all: unfold CursorCollection.merge_selections.
    all: cbn [n_sortedCursorIndex n_sortedCursors n_this n_store n_cursors].
    all: destruct (1 =? lastAddedCursorIndex this).
    all: match goal with
         | |- context [if ?b then Selection.new ?x1 ?x2 ?x3 ?x4
                       else Selection.new ?y1 ?y2 ?y3 ?y4] =>
             let r := eval vm_compute in
                        (if b then Selection.new x1 x2 x3 x4
                         else Selection.new y1 y2 y3 y4) in
             change (if b then Selection.new x1 x2 x3 x4
                     else Selection.new y1 y2 y3 y4) with r
         end.
    all: change (Array.get [c0; c1] 0) with (Some c0); cbn [mbind option_bind].
    all: unfold Cursor.setState, Cursor._setState.
    all: rewrite (on_cursor_eq _ _ _ _ Ho0); cbn [mbind option_bind].
    all: unfold CursorCollection._removeSecondaryCursor.
    all: cbn [n_sortedCursorIndex n_sortedCursors n_this n_store n_cursors cursors
              context lastAddedCursorIndex].
    all: rewrite Hcursors.
    all: change (1 - 1 + 1) with 1; change (Array.get [c0; c1] 1) with (Some c1).
    all: cbn [mbind option_bind].
    all: unfold Cursor.dispose.
    all: rewrite (on_cursor_eq _ _ _ o1)
           by (cbn [heap]; rewrite list_lookup_insert_ne by done; exact Ho1).
    all: cbn [mbind option_bind heap tracked removed].
    all: eexists _, _; split; [reflexivity|].
    all: cbn [n_sortedCursorIndex n_sortedCursors n_this n_store n_cursors cursors
              context lastAddedCursorIndex heap].
    all: split; [reflexivity|]; split; [reflexivity|]; split; [reflexivity|].
    all: split;
           [rewrite list_lookup_insert_ne by done;
            rewrite list_lookup_insert_eq by done; reflexivity|].
    all: match goal with
         | |- context [Cursor._setState_obj ?ctx ?t ?o
                         (p_modelState (CursorState.fromModelSelection
                                          (mkSelection 1 ?a 1 ?b))) _] =>
             destruct (computeStates_merged ctx a b) as (m & v & Hm & Hrange);
               [auto|done|done|done|done|];
               rewrite (setState_obj_modelState _ _ _ _ _ _ _ Hm); exact Hrange
         end. }
  destruct Hstep as (n1 & o & Hstep & Hlen1 & Hidx1 & Hcs1 & Ho & Hrange).
  rewrite normalize_loop_S
    by (subst n0 sorted; cbn [n_sortedCursorIndex n_sortedCursors];
        rewrite sort_length; simpl; lia).
  rewrite Hstep. cbn [mbind option_bind].
  rewrite normalize_loop_done by lia. cbn [mbind option_bind].
  eexists _, _. split; [reflexivity|]. cbn [fst snd].
  unfold CursorCollection.getSelections. rewrite Hcs1. cbn [mapM].
  rewrite Ho. cbn. split; [reflexivity|exact Hrange].
Qed.

Lemma isBeforeOrEqual_atOrBefore (p q : Position) :
  Position.isBeforeOrEqual p q = true <-> atOrBefore p q.
Proof. unfold atOrBefore. split; intros H; position_order. Qed.

Lemma isBefore_strictlyBefore (p q : Position) :
  Position.isBefore p q = true <-> strictlyBefore p q.
Proof. unfold strictlyBefore. split; intros H; position_order. Qed.

(** * Further properties *)

(** ** Delete operations, further *)

Lemma cut_loop_length (config : CursorConfiguration) (model : ICursorSimpleModel)
    (selections : list Selection) (lastCutRange : option Range) :
  length (DeleteOperations.cut_loop config model selections lastCutRange)
  = length selections.
Proof.
  revert lastCutRange. induction selections as [|selection rest IH]; intros lastCutRange;
    simpl; [done|].
  destruct (Selection.isEmpty selection); [|simpl; by rewrite IH].
  destruct (emptySelectionClipboard config); [|simpl; by rewrite IH].
  destruct (if lineNumber (Selection.getPosition selection) <? getLineCount model
            then _ else _) as [[[? ?] ?] ?].
  simpl. by rewrite IH.
Qed.

(** X1: every delete operation answers with one command slot for each selection
    it was given. *)
Theorem delete_commands_length
    (MoveOperations_right : CursorConfiguration -> ICursorSimpleModel -> Position -> Position)
    (strings_getLeftDeleteOffset : Z -> string -> Z) (isQuote : string -> bool)
    (prevEditOperationType : EditOperationType) (config : CursorConfiguration)
    (model : ICursorSimpleModel) (selections : list Selection)
    (autoClosedCharacters : list Range) :
  length (DeleteOperations.deleteRight MoveOperations_right prevEditOperationType config
            model selections).2 = length selections
  /\ length (DeleteOperations.deleteLeft strings_getLeftDeleteOffset isQuote
               prevEditOperationType config model selections autoClosedCharacters).2
     = length selections
  /\ length (commands (DeleteOperations.cut config model selections)) = length selections.
Proof.
  split; [|split].
  - unfold DeleteOperations.deleteRight. by rewrite delete_loop_commands, length_fmap.
  - unfold DeleteOperations.deleteLeft.
    destruct (DeleteOperations.isAutoClosingPairDelete _ _ _ _ _ _ _ _).
    + unfold DeleteOperations._runAutoClosingPairDelete. cbn [snd]. by rewrite length_fmap.
    + by rewrite delete_loop_commands, length_fmap.
  - unfold DeleteOperations.cut. cbn [commands].
    rewrite cut_loop_length. unfold DeleteOperations.cut_sort. apply sort_length.
Qed.

Lemma isAutoClosingPairDelete_one_false
    (isQuote : string -> bool) (autoClosingDelete : EditorAutoClosingEditStrategy)
    (autoClosingBrackets autoClosingQuotes : EditorAutoClosingStrategy)
    (autoClosingPairsOpen : gmap string (list StandardAutoClosingPairConditional))
    (model : ICursorSimpleModel) (selections : list Selection)
    (autoClosedCharacters : list Range) (selection : Selection) :
  selection ∈ selections ->
  DeleteOperations.isAutoClosingPairDelete_one isQuote autoClosingDelete
    autoClosingBrackets autoClosingQuotes autoClosingPairsOpen model autoClosedCharacters
    selection = false ->
  DeleteOperations.isAutoClosingPairDelete isQuote autoClosingDelete autoClosingBrackets
    autoClosingQuotes autoClosingPairsOpen model selections autoClosedCharacters = false.
Proof.
  intros Hin Hone. unfold DeleteOperations.isAutoClosingPairDelete.
  assert (Hall : forallb (DeleteOperations.isAutoClosingPairDelete_one isQuote
                            autoClosingDelete autoClosingBrackets autoClosingQuotes
                            autoClosingPairsOpen model autoClosedCharacters) selections
                 = false).
  { apply not_true_is_false. intros Hall. rewrite forallb_forall in Hall.
    rewrite Hall in Hone; [done|]. by apply list_elem_of_In. }
  rewrite Hall. destruct autoClosingBrackets, autoClosingQuotes, autoClosingDelete; done.
Qed.

(** A selection whose caret is in column 1 has no character before it: the
    pair delete does not apply to any list that holds one. *)
Lemma isAutoClosingPairDelete_column_1
    (isQuote : string -> bool) (config : CursorConfiguration)
    (model : ICursorSimpleModel) (selections : list Selection)
    (autoClosedCharacters : list Range) (line : Z) :
  Selection.new line 1 line 1 ∈ selections ->
  DeleteOperations.isAutoClosingPairDelete isQuote (autoClosingDelete config)
    (autoClosingBrackets config) (autoClosingQuotes config)
    (autoClosingPairsOpenByEnd config) model selections autoClosedCharacters = false.
Proof.
  intros Hin. eapply isAutoClosingPairDelete_one_false; [exact Hin|].
  unfold DeleteOperations.isAutoClosingPairDelete_one.
  by rewrite Selection_isEmpty_caret.
Qed.

Lemma deleteLeft_no_pair
    (strings_getLeftDeleteOffset : Z -> string -> Z) (isQuote : string -> bool)
    (prevEditOperationType : EditOperationType) (config : CursorConfiguration)
    (model : ICursorSimpleModel) (selections : list Selection)
    (autoClosedCharacters : list Range) :
  DeleteOperations.isAutoClosingPairDelete isQuote (autoClosingDelete config)
    (autoClosingBrackets config) (autoClosingQuotes config)
    (autoClosingPairsOpenByEnd config) model selections autoClosedCharacters = false ->
  let result :=
    DeleteOperations.deleteLeft strings_getLeftDeleteOffset isQuote prevEditOperationType
      config model selections autoClosedCharacters in
  result.2
  = (λ selection,
       commandOf (DeleteOperations.getDeleteRange strings_getLeftDeleteOffset selection
                    model config)) <$> selections
  /\ result.1
     = negb (EditOperationType_eqb prevEditOperationType DeletingLeft)
       || existsb (λ selection,
                     let r := DeleteOperations.getDeleteRange strings_getLeftDeleteOffset
                                selection model config in
                     negb (startLineNumber r =? endLineNumber r)) selections.
Proof.
  intros Hno result. subst result. unfold DeleteOperations.deleteLeft. rewrite Hno.
  by rewrite delete_loop_commands, delete_loop_flag.
Qed.

Lemma getDeleteRange_document_start
    (strings_getLeftDeleteOffset : Z -> string -> Z) (model : ICursorSimpleModel)
    (config : CursorConfiguration) :
  DeleteOperations.getDeleteRange strings_getLeftDeleteOffset (Selection.new 1 1 1 1)
    model config = rawRange 1 1 1 1.
Proof.
  unfold DeleteOperations.getDeleteRange. rewrite Selection_isEmpty_caret.
  cbn. by destruct (useTabStops config).
Qed.

(** X2: at the very start of the document backspace has nothing to delete: the
    caret at (1,1) gets no command, whatever the configuration and the other
    selections are, and alone it leaves the flag to the previous operation. *)
Theorem deleteLeft_document_start
    (strings_getLeftDeleteOffset : Z -> string -> Z) (isQuote : string -> bool)
    (prevEditOperationType : EditOperationType) (config : CursorConfiguration)
    (model : ICursorSimpleModel) (selections : list Selection)
    (autoClosedCharacters : list Range) (i : nat) :
  selections !! i = Some (Selection.new 1 1 1 1) ->
  (DeleteOperations.deleteLeft strings_getLeftDeleteOffset isQuote prevEditOperationType
     config model selections autoClosedCharacters).2 !! i = Some None
  /\ DeleteOperations.deleteLeft strings_getLeftDeleteOffset isQuote prevEditOperationType
       config model [Selection.new 1 1 1 1] autoClosedCharacters
     = (negb (EditOperationType_eqb prevEditOperationType DeletingLeft), [None]).
Proof.
  intros Hi.
  assert (Hgen : forall l j, l !! j = Some (Selection.new 1 1 1 1) ->
    DeleteOperations.isAutoClosingPairDelete isQuote (autoClosingDelete config)
      (autoClosingBrackets config) (autoClosingQuotes config)
      (autoClosingPairsOpenByEnd config) model l autoClosedCharacters = false).
  { intros l j Hj. apply (isAutoClosingPairDelete_column_1 _ _ _ _ _ 1).
    by eapply list_elem_of_lookup_2. }
  split.
  - destruct (deleteLeft_no_pair strings_getLeftDeleteOffset isQuote prevEditOperationType
                config model selections autoClosedCharacters (Hgen _ _ Hi)) as [-> _].
    rewrite list_lookup_fmap, Hi. cbn [fmap option_fmap option_map].
    by rewrite getDeleteRange_document_start.
  - unfold DeleteOperations.deleteLeft.
    rewrite (Hgen [Selection.new 1 1 1 1] 0%nat) by done.
    cbn [DeleteOperations.delete_loop]. by rewrite getDeleteRange_document_start.
Qed.

Lemma deleteLeft_document_start_witness :
  (DeleteOperations.deleteLeft (λ offset _, offset - 1) quoteCharacter DeletingLeft
     plainConfiguration (plainSimpleModel "ab")
     [Selection.new 2 1 2 3; Selection.new 1 1 1 1] []).2 !! 1%nat = Some None
  /\ DeleteOperations.deleteLeft (λ offset _, offset - 1) quoteCharacter DeletingLeft
       plainConfiguration (plainSimpleModel "ab") [Selection.new 1 1 1 1] []
     = (negb (EditOperationType_eqb DeletingLeft DeletingLeft), [None]).
Proof.
  apply (deleteLeft_document_start (λ offset _, offset - 1) quoteCharacter DeletingLeft
           plainConfiguration (plainSimpleModel "ab")
           [Selection.new 2 1 2 3; Selection.new 1 1 1 1] [] 1).
  reflexivity.
Defined.

Lemma getDeleteRange_line_start
    (strings_getLeftDeleteOffset : Z -> string -> Z) (model : ICursorSimpleModel)
    (config : CursorConfiguration) (line : Z) :
  1 < line ->
  DeleteOperations.getDeleteRange strings_getLeftDeleteOffset
    (Selection.new line 1 line 1) model config
  = rawRange (line - 1) (getLineMaxColumn model (line - 1)) line 1.
Proof.
  intros Hline. unfold DeleteOperations.getDeleteRange.
  rewrite Selection_isEmpty_caret. cbn [negb].
  change (Selection.getPosition (Selection.new line 1 line 1)) with (mkPosition line 1).
  cbn [column lineNumber]. change (1 >? 1) with false. rewrite andb_false_r.
  unfold DeleteOperations.getPositionAfterDeleteLeft. cbn [column lineNumber].
  change (1 >? 1) with false. cbn iota.
  replace (line >? 1) with true by lia.
  unfold Range.fromPositions, Range.new. cbn [column lineNumber].
  replace (line - 1 >? line) with false by lia.
  replace (line - 1 =? line) with false by lia. done.
Qed.

(** X3: backspace at the start of a line below the first deletes the line break
    before it, from the end of the previous line, and always starts a new
    undo stop, whatever the previous operation and the other selections. *)
Theorem deleteLeft_line_start
    (strings_getLeftDeleteOffset : Z -> string -> Z) (isQuote : string -> bool)
    (prevEditOperationType : EditOperationType) (config : CursorConfiguration)
    (model : ICursorSimpleModel) (selections : list Selection)
    (autoClosedCharacters : list Range) (i : nat) (line : Z) :
  1 < line ->
  selections !! i = Some (Selection.new line 1 line 1) ->
  let result :=
    DeleteOperations.deleteLeft strings_getLeftDeleteOffset isQuote prevEditOperationType
      config model selections autoClosedCharacters in
  result.1 = true
  /\ result.2 !! i
     = Some (Some (mkReplaceCommand
                     (rawRange (line - 1) (getLineMaxColumn model (line - 1)) line 1)
                     EmptyString)).
Proof.
  intros Hline Hi result. subst result.
  assert (Hin : Selection.new line 1 line 1 ∈ selections)
    by by eapply list_elem_of_lookup_2.
  destruct (deleteLeft_no_pair strings_getLeftDeleteOffset isQuote prevEditOperationType
              config model selections autoClosedCharacters
              (isAutoClosingPairDelete_column_1 _ _ _ _ _ _ Hin)) as [-> ->].
  split.
  - apply orb_true_iff. right. apply existsb_exists.
    exists (Selection.new line 1 line 1). split; [by apply list_elem_of_In|].
    cbv zeta. rewrite getDeleteRange_line_start by done. cbn.
    apply negb_true_iff. lia.
  - rewrite list_lookup_fmap, Hi. cbn [fmap option_fmap option_map].
    rewrite getDeleteRange_line_start by done. unfold commandOf, Range.isEmpty. cbn.
    replace (line - 1 =? line) with false by lia. done.
Qed.

Lemma deleteLeft_line_start_witness :
  (DeleteOperations.deleteLeft (λ offset _, offset - 1) quoteCharacter DeletingLeft
     plainConfiguration (plainSimpleModel "ab") [Selection.new 2 1 2 1] []).1 = true
  /\ (DeleteOperations.deleteLeft (λ offset _, offset - 1) quoteCharacter DeletingLeft
        plainConfiguration (plainSimpleModel "ab") [Selection.new 2 1 2 1] []).2 !! 0%nat
     = Some (Some (mkReplaceCommand
                     (rawRange (2 - 1) (getLineMaxColumn (plainSimpleModel "ab") (2 - 1)) 2 1)
                     EmptyString)).
Proof.
  apply (deleteLeft_line_start (λ offset _, offset - 1) quoteCharacter DeletingLeft
           plainConfiguration (plainSimpleModel "ab") [Selection.new 2 1 2 1] [] 0 2).
  - lia.
  - reflexivity.
Defined.

(** X4: the pair delete is only ever chosen between a configured pair: when
    [isAutoClosingPairDelete] holds, pair deletion and one of the two kinds of
    auto-closing are switched on, and every selection is a caret with a
    character on each side, of which the one before opens, under the
    configuration, a pair that the one after closes; with the policy "auto"
    the caret moreover stands where a recorded auto-closed character
    starts. *)
Theorem isAutoClosingPairDelete_sound
    (isQuote : string -> bool) (autoClosingDelete : EditorAutoClosingEditStrategy)
    (autoClosingBrackets autoClosingQuotes : EditorAutoClosingStrategy)
    (autoClosingPairsOpen : gmap string (list StandardAutoClosingPairConditional))
    (model : ICursorSimpleModel) (selections : list Selection)
    (autoClosedCharacters : list Range) :
  DeleteOperations.isAutoClosingPairDelete isQuote autoClosingDelete autoClosingBrackets
    autoClosingQuotes autoClosingPairsOpen model selections autoClosedCharacters = true ->
  autoClosingDelete <> EditNever
  /\ (autoClosingBrackets <> ClosingNever \/ autoClosingQuotes <> ClosingNever)
  /\ forall selection, selection ∈ selections ->
       let position := Selection.getPosition selection in
       let lineText := getLineContent model (lineNumber position) in
       let character := charAt lineText (column position - 2) in
       Selection.isEmpty selection = true
       /\ 2 <= column position <= str_length lineText
       /\ (if isQuote character then autoClosingQuotes <> ClosingNever
           else autoClosingBrackets <> ClosingNever)
       /\ (exists candidates,
             autoClosingPairsOpen !! character = Some candidates
             /\ mkPair character (charAt lineText (column position - 1)) ∈ candidates)
       /\ (autoClosingDelete = EditAuto ->
           exists autoClosedCharacter,
             autoClosedCharacter ∈ autoClosedCharacters
             /\ startLineNumber autoClosedCharacter = lineNumber position
             /\ startColumn autoClosedCharacter = column position).
Proof.
  intros H. unfold DeleteOperations.isAutoClosingPairDelete in H.
  assert (Hparts : autoClosingDelete <> EditNever
                   /\ (autoClosingBrackets <> ClosingNever
                       \/ autoClosingQuotes <> ClosingNever)
                   /\ forallb (DeleteOperations.isAutoClosingPairDelete_one isQuote
                                 autoClosingDelete autoClosingBrackets autoClosingQuotes
                                 autoClosingPairsOpen model autoClosedCharacters)
                              selections = true).
  { destruct autoClosingBrackets, autoClosingQuotes, autoClosingDelete;
      try done; (split; [done|split; [|done]]); (by left) || (by right). }
  destruct Hparts as (Hdel & Hstr & Hall). split; [done|]. split; [done|].
  intros selection Hin position lineText character.
  rewrite forallb_forall in Hall. specialize (Hall selection).
  rewrite <- list_elem_of_In in Hall. specialize (Hall Hin).
  unfold DeleteOperations.isAutoClosingPairDelete_one in Hall.
  fold position in Hall. fold lineText in Hall. fold character in Hall.
  destruct (Selection.isEmpty selection); [|done]. cbn [negb] in Hall.
  destruct (Z.ltb_spec (column position) 2); [done|].
  destruct (Z.geb_spec (column position) (str_length lineText + 1)); [done|].
  cbn [orb] in Hall.
  destruct (autoClosingPairsOpen !! character) as [candidates|]; [|done].
  split; [done|]. split; [lia|].
  destruct (existsb _ candidates) eqn:Hfound;
    [|by destruct (if isQuote character then _ else _)].
  split; [|split].
  - destruct (isQuote character), autoClosingQuotes, autoClosingBrackets; done.
  - exists candidates. split; [done|].
    apply existsb_exists in Hfound as ([o c] & Hc & Hoc).
    apply andb_true_iff in Hoc as [Ho Hcl]. cbn in Ho, Hcl.
    apply String.eqb_eq in Ho, Hcl. subst. by apply list_elem_of_In.
  - intros ->. destruct (if isQuote character then _ else _); [done|].
    cbn [negb] in Hall. apply existsb_exists in Hall as (r & Hr & Heq).
    apply andb_true_iff in Heq as [Hl Hc].
    exists r. split; [by apply list_elem_of_In|]. lia.
Qed.

Lemma isAutoClosingPairDelete_sound_witness :
  Selection.isEmpty (Selection.new 1 2 1 2) = true
  /\ (exists candidates,
        autoClosingPairsOpenByEnd plainConfiguration
          !! charAt (getLineContent (plainSimpleModel "()") 1) (2 - 2) = Some candidates
        /\ mkPair (charAt (getLineContent (plainSimpleModel "()") 1) (2 - 2))
                  (charAt (getLineContent (plainSimpleModel "()") 1) (2 - 1))
           ∈ candidates).
Proof.
  destruct (isAutoClosingPairDelete_sound quoteCharacter EditAlways ClosingAlways
              ClosingAlways (autoClosingPairsOpenByEnd plainConfiguration)
              (plainSimpleModel "()") [Selection.new 1 2 1 2] [])
    as (_ & _ & Hall); [reflexivity|].
  destruct (Hall (Selection.new 1 2 1 2)) as (H1 & _ & _ & H4 & _).
  - apply list_elem_of_In. by left.
  - split; [exact H1|exact H4].
Defined.

Lemma getDeleteRange_nonempty
    (strings_getLeftDeleteOffset : Z -> string -> Z) (model : ICursorSimpleModel)
    (config : CursorConfiguration) (selection : Selection) :
  Selection.isEmpty selection = false ->
  DeleteOperations.getDeleteRange strings_getLeftDeleteOffset selection model config
  = Selection.toRange selection.
Proof. intros H. unfold DeleteOperations.getDeleteRange. by rewrite H. Qed.

Lemma cut_loop_nonempty (config : CursorConfiguration) (model : ICursorSimpleModel)
    (selections : list Selection) (lastCutRange : option Range) :
  Forall (λ selection, Selection.isEmpty selection = false) selections ->
  DeleteOperations.cut_loop config model selections lastCutRange
  = (λ selection, Some (mkReplaceCommand (Selection.toRange selection) EmptyString))
      <$> selections.
Proof.
  induction 1 as [|selection rest Hs _ IH]; simpl; [done|]. by rewrite Hs, IH.
Qed.

(** X5: when text is selected at every cursor, the three operations delete the
    same thing: each command removes exactly its selection, for [deleteLeft]
    and [deleteRight] in the order given; [cut] gives the same commands in
    the order in which it takes the selections, which is the order of their
    positions when no two of them overlap. *)
Theorem delete_selected_text
    (MoveOperations_right : CursorConfiguration -> ICursorSimpleModel -> Position -> Position)
    (strings_getLeftDeleteOffset : Z -> string -> Z) (isQuote : string -> bool)
    (prevEditOperationType : EditOperationType) (config : CursorConfiguration)
    (model : ICursorSimpleModel) (selections : list Selection)
    (autoClosedCharacters : list Range) :
  Forall (λ selection, Selection.isEmpty selection = false) selections ->
  let deleted (l : list Selection) : list (option ICommand) :=
    (λ selection, Some (mkReplaceCommand (Selection.toRange selection) EmptyString))
      <$> l in
  (DeleteOperations.deleteRight MoveOperations_right prevEditOperationType config model
     selections).2 = deleted selections
  /\ (DeleteOperations.deleteLeft strings_getLeftDeleteOffset isQuote
        prevEditOperationType config model selections autoClosedCharacters).2
     = deleted selections
  /\ commands (DeleteOperations.cut config model selections) ≡ₚ deleted selections
  /\ (ForallOrdPairs apart selections ->
      commands (DeleteOperations.cut config model selections)
      = deleted (DeleteOperations.cut_sort selections)
      /\ StronglySorted endsBefore (DeleteOperations.cut_sort selections)).
Proof.
  intros Hall deleted. subst deleted. cbv beta.
  assert (Hcut : commands (DeleteOperations.cut config model selections)
                 = (λ selection,
                      Some (mkReplaceCommand (Selection.toRange selection) EmptyString))
                     <$> DeleteOperations.cut_sort selections).
  { unfold DeleteOperations.cut. cbn [commands]. apply cut_loop_nonempty.
    unfold DeleteOperations.cut_sort. by rewrite sort_perm. }
  split; [|split; [|split]]; cycle 2.
  { rewrite Hcut. apply fmap_Permutation. apply sort_perm. }
  { intros Hapart. split; [exact Hcut|].
    apply cut_foldl_sorted; [constructor|done|].
    apply Forall_forall. intros; constructor. }
  - unfold DeleteOperations.deleteRight. rewrite delete_loop_commands.
    apply list_fmap_ext. intros i selection Hi.
    rewrite Forall_forall in Hall.
    assert (Hs : Selection.isEmpty selection = false)
      by (apply Hall; by eapply list_elem_of_lookup_2).
    unfold DeleteOperations.deleteRight_range, commandOf. rewrite Hs.
    unfold Selection.isEmpty in Hs. by rewrite Hs.
  - destruct selections as [|selection rest].
    { unfold DeleteOperations.deleteLeft.
      by destruct (DeleteOperations.isAutoClosingPairDelete _ _ _ _ _ _ _ _). }
    assert (Hno : DeleteOperations.isAutoClosingPairDelete isQuote
                    (autoClosingDelete config) (autoClosingBrackets config)
                    (autoClosingQuotes config) (autoClosingPairsOpenByEnd config) model
                    (selection :: rest) autoClosedCharacters = false).
    { apply (isAutoClosingPairDelete_one_false _ _ _ _ _ _ _ _ selection); [by left|].
      apply Forall_cons in Hall as [Hs _].
      unfold DeleteOperations.isAutoClosingPairDelete_one. by rewrite Hs. }
    destruct (deleteLeft_no_pair strings_getLeftDeleteOffset isQuote prevEditOperationType
                config model (selection :: rest) autoClosedCharacters Hno) as [-> _].
    apply list_fmap_ext. intros i s Hi.
    rewrite Forall_forall in Hall.
    assert (Hs : Selection.isEmpty s = false)
      by (apply Hall; by eapply list_elem_of_lookup_2).
    rewrite getDeleteRange_nonempty by done. unfold commandOf.
    unfold Selection.isEmpty in Hs. by rewrite Hs.
Qed.

Lemma delete_selected_text_witness :
  (DeleteOperations.deleteRight (λ _ _ p, p) Other plainConfiguration
     (plainSimpleModel "abcd") [Selection.new 2 2 2 1; Selection.new 1 1 1 3]).2
  = [Some (mkReplaceCommand (rawRange 2 1 2 2) EmptyString);
     Some (mkReplaceCommand (rawRange 1 1 1 3) EmptyString)]
  /\ (DeleteOperations.deleteLeft (λ offset _, offset - 1) quoteCharacter Other
        plainConfiguration (plainSimpleModel "abcd")
        [Selection.new 2 2 2 1; Selection.new 1 1 1 3] []).2
     = [Some (mkReplaceCommand (rawRange 2 1 2 2) EmptyString);
        Some (mkReplaceCommand (rawRange 1 1 1 3) EmptyString)]
  /\ commands (DeleteOperations.cut plainConfiguration (plainSimpleModel "abcd")
                 [Selection.new 2 2 2 1; Selection.new 1 1 1 3])
     = [Some (mkReplaceCommand (rawRange 1 1 1 3) EmptyString);
        Some (mkReplaceCommand (rawRange 2 1 2 2) EmptyString)].
Proof.
  destruct (delete_selected_text (λ _ _ p, p) (λ offset _, offset - 1) quoteCharacter
              Other plainConfiguration (plainSimpleModel "abcd")
              [Selection.new 2 2 2 1; Selection.new 1 1 1 3] [])
    as (Hright & Hleft & _ & Hcut).
  - repeat constructor.
  - destruct Hcut as [Hcut _].
    { repeat match goal with
           | |- ForallOrdPairs _ _ => constructor
           | |- Forall _ _ => constructor
           | |- apart _ _ => first [left; reflexivity | right; reflexivity]
           end. }
    split; [exact Hright|]. split; [exact Hleft|exact Hcut].
Defined.

(** X6: the tests of [isAutoClosingPairDelete] are all there is to it: with pair
    deletion and one kind of auto-closing switched on, it holds as soon as
    every selection is a caret between the two characters of a configured
    pair whose kind of auto-closing is on, and, under the policy "auto",
    stands where a recorded auto-closed character starts. *)
Theorem isAutoClosingPairDelete_complete
    (isQuote : string -> bool) (autoClosingDelete : EditorAutoClosingEditStrategy)
    (autoClosingBrackets autoClosingQuotes : EditorAutoClosingStrategy)
    (autoClosingPairsOpen : gmap string (list StandardAutoClosingPairConditional))
    (model : ICursorSimpleModel) (selections : list Selection)
    (autoClosedCharacters : list Range) :
  autoClosingDelete <> EditNever ->
  autoClosingBrackets <> ClosingNever \/ autoClosingQuotes <> ClosingNever ->
  (forall selection, selection ∈ selections ->
     let position := Selection.getPosition selection in
     let lineText := getLineContent model (lineNumber position) in
     let character := charAt lineText (column position - 2) in
     Selection.isEmpty selection = true
     /\ 2 <= column position <= str_length lineText
     /\ (if isQuote character then autoClosingQuotes <> ClosingNever
         else autoClosingBrackets <> ClosingNever)
     /\ (exists candidates,
           autoClosingPairsOpen !! character = Some candidates
           /\ mkPair character (charAt lineText (column position - 1)) ∈ candidates)
     /\ (autoClosingDelete = EditAuto ->
         exists autoClosedCharacter,
           autoClosedCharacter ∈ autoClosedCharacters
           /\ startLineNumber autoClosedCharacter = lineNumber position
           /\ startColumn autoClosedCharacter = column position)) ->
  DeleteOperations.isAutoClosingPairDelete isQuote autoClosingDelete autoClosingBrackets
    autoClosingQuotes autoClosingPairsOpen model selections autoClosedCharacters = true.
Proof.
  intros Hdel Hstr Hall. unfold DeleteOperations.isAutoClosingPairDelete.
  assert (Hloop : forallb (DeleteOperations.isAutoClosingPairDelete_one isQuote
                             autoClosingDelete autoClosingBrackets autoClosingQuotes
                             autoClosingPairsOpen model autoClosedCharacters)
                          selections = true).
  { apply forallb_forall. intros selection Hin. apply list_elem_of_In in Hin.
    specialize (Hall selection Hin). cbv zeta in Hall.
    destruct Hall as (Hempty & Hcol & Hkind & (candidates & Hcand & Hpair) & Hauto).
    unfold DeleteOperations.isAutoClosingPairDelete_one.
    rewrite Hempty. cbn [negb].
    replace (column (Selection.getPosition selection) <? 2) with false by lia.
    rewrite Z.geb_leb.
    replace (str_length
               (getLineContent model (lineNumber (Selection.getPosition selection))) + 1
             <=? column (Selection.getPosition selection)) with false by lia.
    cbn [orb]. rewrite Hcand.
    assert (Hoff : (if isQuote (charAt (getLineContent model
                                          (lineNumber (Selection.getPosition selection)))
                                  (column (Selection.getPosition selection) - 2))
                    then match autoClosingQuotes with ClosingNever => true | _ => false end
                    else match autoClosingBrackets with ClosingNever => true | _ => false end)
                   = false).
    { destruct (isQuote _); [by destruct autoClosingQuotes|by destruct autoClosingBrackets]. }
    rewrite Hoff.
    assert (Hfound : existsb
              (λ autoClosingPairCandidate,
                 String.eqb (pair_open autoClosingPairCandidate)
                   (charAt (getLineContent model
                              (lineNumber (Selection.getPosition selection)))
                      (column (Selection.getPosition selection) - 2))
                 && String.eqb (pair_close autoClosingPairCandidate)
                      (charAt (getLineContent model
                                 (lineNumber (Selection.getPosition selection)))
                         (column (Selection.getPosition selection) - 1)))
              candidates = true).
    { apply existsb_exists. eexists. split; [apply list_elem_of_In, Hpair|].
      cbn [pair_open pair_close]. by rewrite !String.eqb_refl. }
    rewrite Hfound. cbn [negb].
    destruct autoClosingDelete; try done.
    destruct Hauto as (r & Hr & Hl & Hc); [done|].
    apply existsb_exists. exists r. split; [by apply list_elem_of_In|].
    rewrite Hl, Hc, !Z.eqb_refl. done. }
  rewrite Hloop.
  destruct autoClosingBrackets, autoClosingQuotes, autoClosingDelete; try done;
    by destruct Hstr.
Qed.

Lemma isAutoClosingPairDelete_complete_witness :
  DeleteOperations.isAutoClosingPairDelete quoteCharacter EditAuto ClosingAlways
    ClosingNever (autoClosingPairsOpenByEnd plainConfiguration) (plainSimpleModel "()")
    [Selection.new 1 2 1 2] [rawRange 1 2 1 3] = true.
Proof.
  apply isAutoClosingPairDelete_complete; [done|by left|].
  intros selection ->%list_elem_of_singleton. cbv zeta.
  split; [reflexivity|]. split; [by vm_compute|]. split; [by vm_compute|].
  split.
  - eexists. split; [reflexivity|]. apply list_elem_of_here.
  - intros _. exists (rawRange 1 2 1 3). split; [apply list_elem_of_here|done].
Defined.

(** X7: with the clipboard of empty selections switched off, [cut] gives a caret
    no command and deletes every other selection as it is, in the order in
    which it takes the selections: the order of their positions when no two
    of them overlap; [cut] is never grouped with the edits around it. *)
Theorem cut_without_emptySelectionClipboard (config : CursorConfiguration)
    (model : ICursorSimpleModel) (selections : list Selection) :
  emptySelectionClipboard config = false ->
  let command (selection : Selection) : option ICommand :=
    if Selection.isEmpty selection then None
    else Some (mkReplaceCommand (Selection.toRange selection) EmptyString) in
  let result := DeleteOperations.cut config model selections in
  type result = Other
  /\ shouldPushStackElementBefore result = true
  /\ shouldPushStackElementAfter result = true
  /\ commands result ≡ₚ command <$> selections
  /\ (ForallOrdPairs apart selections ->
      commands result = command <$> DeleteOperations.cut_sort selections
      /\ StronglySorted endsBefore (DeleteOperations.cut_sort selections)).
Proof.
  intros Hoff command result.
  assert (Hcut : commands result = command <$> DeleteOperations.cut_sort selections).
  { subst result command. unfold DeleteOperations.cut. cbn [commands].
    generalize (DeleteOperations.cut_sort selections) (@None Range).
    intros l. induction l as [|selection rest IH]; intros lastCutRange; simpl; [done|].
    rewrite Hoff. destruct (Selection.isEmpty selection); by rewrite IH. }
  split; [done|]. split; [done|]. split; [done|]. split.
  - rewrite Hcut. apply fmap_Permutation. apply sort_perm.
  - intros Hapart. split; [exact Hcut|].
    apply cut_foldl_sorted; [constructor|done|].
    apply Forall_forall. intros; constructor.
Qed.

Lemma cut_without_emptySelectionClipboard_witness :
  commands
    (DeleteOperations.cut
       (mkCursorConfiguration true 4 false true EditAlways ClosingAlways ClosingAlways ∅
          (λ _ p, column p - 1) (λ _ _ visibleColumn, visibleColumn + 1))
       (plainSimpleModel "abcd") [Selection.new 2 1 2 1; Selection.new 1 1 1 3])
  = [Some (mkReplaceCommand (rawRange 1 1 1 3) EmptyString); None].
Proof.
  destruct (cut_without_emptySelectionClipboard
              (mkCursorConfiguration true 4 false true EditAlways ClosingAlways
                 ClosingAlways ∅ (λ _ p, column p - 1)
                 (λ _ _ visibleColumn, visibleColumn + 1))
              (plainSimpleModel "abcd") [Selection.new 2 1 2 1; Selection.new 1 1 1 3])
    as (_ & _ & _ & _ & Hcut); [reflexivity|].
  destruct Hcut as [Hcut _]; [|exact Hcut].
  repeat match goal with
           | |- ForallOrdPairs _ _ => constructor
           | |- Forall _ _ => constructor
           | |- apart _ _ => first [left; reflexivity | right; reflexivity]
           end.
Defined.

Lemma cut_loop_line_before_last (config : CursorConfiguration)
    (model : ICursorSimpleModel) (selections : list Selection)
    (lastCutRange : option Range) (i : nat) (selection : Selection) :
  emptySelectionClipboard config = true ->
  selections !! i = Some selection ->
  Selection.isEmpty selection = true ->
  positionLineNumber selection < getLineCount model ->
  DeleteOperations.cut_loop config model selections lastCutRange !! i
  = Some (Some (mkReplaceCommand
                  (rawRange (positionLineNumber selection) 1
                            (positionLineNumber selection + 1) 1) EmptyString)).
Proof.
  intros Hon Hi Hempty Hline. revert lastCutRange i Hi.
  induction selections as [|s rest IH]; intros lastCutRange i Hi; [done|].
  destruct i as [|i]; cbn [DeleteOperations.cut_loop].
  - injection Hi as ->. rewrite Hempty, Hon.
    cbn [Selection.getPosition lineNumber].
    replace (positionLineNumber selection <? getLineCount model) with true by lia.
    cbn [lookup list_lookup]. unfold Range.new, Range.isEmpty.
    replace (positionLineNumber selection >? positionLineNumber selection + 1)
      with false by lia.
    replace (positionLineNumber selection =? positionLineNumber selection + 1)
      with false by lia.
    cbn. replace (positionLineNumber selection =? positionLineNumber selection + 1)
      with false by lia. done.
  - cbn [lookup list_lookup] in Hi.
    destruct (Selection.isEmpty s); [|by apply IH].
    destruct (emptySelectionClipboard config); [|by apply IH].
    destruct (if lineNumber (Selection.getPosition s) <? getLineCount model
              then _ else _) as [[[? ?] ?] ?].
    by apply IH.
Qed.

(** X8: with the clipboard of empty selections switched on, [cut] gives every
    caret on a line before the last one the command that deletes the whole
    line with its line break, from column 1 to column 1 of the next line,
    whatever the other selections are; when no two selections overlap, the
    command stands where the caret stands in the order of the positions. *)
Theorem cut_line_before_last (config : CursorConfiguration)
    (model : ICursorSimpleModel) (selections : list Selection) (selection : Selection) :
  emptySelectionClipboard config = true ->
  selection ∈ selections ->
  Selection.isEmpty selection = true ->
  positionLineNumber selection < getLineCount model ->
  let command : option ICommand :=
    Some (mkReplaceCommand
            (rawRange (positionLineNumber selection) 1
                      (positionLineNumber selection + 1) 1) EmptyString) in
  command ∈ commands (DeleteOperations.cut config model selections)
  /\ (ForallOrdPairs apart selections ->
      StronglySorted endsBefore (DeleteOperations.cut_sort selections)
      /\ forall i, DeleteOperations.cut_sort selections !! i = Some selection ->
           commands (DeleteOperations.cut config model selections) !! i = Some command).
Proof.
  intros Hon Hin Hempty Hline command.
  assert (Hat : forall i, DeleteOperations.cut_sort selections !! i = Some selection ->
                  commands (DeleteOperations.cut config model selections) !! i
                  = Some command).
  { intros i Hi. unfold DeleteOperations.cut. cbn [commands].
    by apply cut_loop_line_before_last. }
  split.
  - assert (Hsorted : selection ∈ DeleteOperations.cut_sort selections).
    { unfold DeleteOperations.cut_sort. by rewrite sort_perm. }
    apply list_elem_of_lookup in Hsorted as [i Hi].
    eapply list_elem_of_lookup_2. by apply Hat.
  - intros Hapart. split; [|exact Hat].
    apply cut_foldl_sorted; [constructor|done|].
    apply Forall_forall. intros; constructor.
Qed.

Lemma cut_line_before_last_witness :
  Some (mkReplaceCommand (rawRange 1 1 (1 + 1) 1) EmptyString)
  ∈ commands (DeleteOperations.cut plainConfiguration (plainSimpleModel "abcd")
                [Selection.new 2 1 2 3; Selection.new 1 3 1 3])
  /\ commands (DeleteOperations.cut plainConfiguration (plainSimpleModel "abcd")
                 [Selection.new 2 1 2 3; Selection.new 1 3 1 3]) !! 0%nat
     = Some (Some (mkReplaceCommand (rawRange 1 1 (1 + 1) 1) EmptyString)).
Proof.
  destruct (cut_line_before_last plainConfiguration (plainSimpleModel "abcd")
              [Selection.new 2 1 2 3; Selection.new 1 3 1 3] (Selection.new 1 3 1 3))
    as [Hin Hat]; [reflexivity|apply list_elem_of_further, list_elem_of_here
                  |reflexivity|reflexivity|].
  split; [exact Hin|].
  destruct Hat as [_ Hat]; [|by apply (Hat 0%nat)].
  repeat match goal with
           | |- ForallOrdPairs _ _ => constructor
           | |- Forall _ _ => constructor
           | |- apart _ _ => first [left; reflexivity | right; reflexivity]
           end.
Defined.

Lemma Selection_ends_caret (line col : Z) :
  Selection.getStartPosition (Selection.new line col line col) = mkPosition line col
  /\ Selection.getEndPosition (Selection.new line col line col) = mkPosition line col.
Proof.
  unfold Selection.getStartPosition, Selection.getEndPosition.
  by rewrite Selection_toRange_caret.
Qed.

Lemma cut_sort_two_carets (line col1 col2 : Z) :
  DeleteOperations.cut_sort
    [Selection.new (line - 1) col1 (line - 1) col1; Selection.new line col2 line col2]
  = [Selection.new (line - 1) col1 (line - 1) col1; Selection.new line col2 line col2]
  /\ DeleteOperations.cut_sort
       [Selection.new line col2 line col2; Selection.new (line - 1) col1 (line - 1) col1]
     = [Selection.new (line - 1) col1 (line - 1) col1; Selection.new line col2 line col2].
Proof.
  unfold DeleteOperations.cut_sort, Array.sort, DeleteOperations.cut_compare.
  cbn [foldl Array.sort_insert].
  destruct (Selection_ends_caret (line - 1) col1) as [-> ->].
  destruct (Selection_ends_caret line col2) as [-> ->].
  unfold Position.compare. cbn [lineNumber column].
  replace (line =? line - 1) with false by lia.
  replace (line - 1 =? line) with false by lia.
  replace (line - (line - 1) <? 0) with false by lia.
  replace (line - 1 - line <? 0) with true by lia. done.
Qed.

(** X9: [cut] on the last lines of a document, with the clipboard of empty
    selections switched on.  A caret alone on the last line takes the line
    break before the line with it.  When a caret on the line before is cut as
    well, in whichever order the two are given, that cut already ends on the
    last line, and the caret on the last line only takes the content of its
    line: the two deleted ranges meet at the start of the last line and do not
    overlap. *)
Theorem cut_last_lines (config : CursorConfiguration) (model : ICursorSimpleModel)
    (col1 col2 : Z) :
  emptySelectionClipboard config = true ->
  1 < getLineCount model ->
  let line := getLineCount model in
  let before := Selection.new (line - 1) col1 (line - 1) col1 in
  let last := Selection.new line col2 line col2 in
  commands (DeleteOperations.cut config model [last])
  = [Some (mkReplaceCommand
             (rawRange (line - 1) (getLineMaxColumn model (line - 1))
                       line (getLineMaxColumn model line)) EmptyString)]
  /\ commands (DeleteOperations.cut config model [before; last])
     = [Some (mkReplaceCommand (rawRange (line - 1) 1 line 1) EmptyString);
        commandOf (Range.new line 1 line (getLineMaxColumn model line))]
  /\ commands (DeleteOperations.cut config model [last; before])
     = commands (DeleteOperations.cut config model [before; last]).
Proof.
  intros Hon Hlines line before last.
  destruct (cut_sort_two_carets line col1 col2) as [Hs1 Hs2]. fold before last in Hs1, Hs2.
  unfold DeleteOperations.cut. cbn [commands]. rewrite Hs1, Hs2.
  split; [|split; [|done]].
  - change (DeleteOperations.cut_sort [last]) with [last].
    cbn [DeleteOperations.cut_loop]. subst last.
    rewrite Selection_isEmpty_caret, Hon.
    cbn [Selection.getPosition Selection.new positionLineNumber positionColumn lineNumber].
    fold line. replace (line <? line) with false by lia.
    replace (line >? 1) with true by lia. cbn [andb negb].
    unfold Range.new, Range.isEmpty.
    replace (line - 1 >? line) with false by lia.
    replace (line - 1 =? line) with false by lia. cbn.
    by replace (line - 1 =? line) with false by lia.
  - cbn [DeleteOperations.cut_loop]. subst before last.
    rewrite !Selection_isEmpty_caret, Hon.
    cbn [Selection.getPosition Selection.new positionLineNumber positionColumn lineNumber].
    fold line. replace (line - 1 <? line) with true by lia.
    replace (line <? line) with false by lia.
    replace (line - 1 + 1) with line by lia.
    assert (Hr : Range.new (line - 1) 1 line 1 = rawRange (line - 1) 1 line 1).
    { unfold Range.new. replace (line - 1 >? line) with false by lia.
      by replace (line - 1 =? line) with false by lia. }
    rewrite Hr. cbn [endLineNumber]. rewrite Z.eqb_refl.
    replace (line >? 1) with true by lia. cbn [andb negb].
    unfold Range.isEmpty at 1. cbn [startLineNumber endLineNumber].
    replace (line - 1 =? line) with false by lia. cbn [andb negb].
    unfold commandOf. by destruct (Range.isEmpty _).
Qed.

Lemma cut_last_lines_witness :
  commands (DeleteOperations.cut plainConfiguration (plainSimpleModel "abcd")
              [Selection.new 3 2 3 2])
  = [Some (mkReplaceCommand (rawRange 2 5 3 5) EmptyString)]
  /\ commands (DeleteOperations.cut plainConfiguration (plainSimpleModel "abcd")
                 [Selection.new 3 2 3 2; Selection.new 2 4 2 4])
     = [Some (mkReplaceCommand (rawRange 2 1 3 1) EmptyString);
        Some (mkReplaceCommand (rawRange 3 1 3 5) EmptyString)].
Proof.
  destruct (cut_last_lines plainConfiguration (plainSimpleModel "abcd") 4 2)
    as (Hone & Htwo & Hswap); [reflexivity|reflexivity|].
  split; [exact Hone|]. etransitivity; [exact Hswap|exact Htwo].
Defined.

(** The span [deleteLeft] gives a selection crosses a line break in two cases
    only: the selection does, or it is a caret at the start of a line below
    the first. *)
Lemma getDeleteRange_lines
    (strings_getLeftDeleteOffset : Z -> string -> Z) (selection : Selection)
    (model : ICursorSimpleModel) (config : CursorConfiguration) :
  let deleteRange :=
    DeleteOperations.getDeleteRange strings_getLeftDeleteOffset selection model config in
  (startLineNumber deleteRange =? endLineNumber deleteRange)
  = if Selection.isEmpty selection
    then (positionColumn selection >? 1) || negb (positionLineNumber selection >? 1)
    else startLineNumber (Selection.toRange selection)
         =? endLineNumber (Selection.toRange selection).
Proof.
  unfold DeleteOperations.getDeleteRange.
  destruct (Selection.isEmpty selection); cbn [negb]; [|done].
  unfold DeleteOperations.getPositionAfterDeleteLeft, Selection.getPosition.
  cbn [lineNumber column].
  destruct (Z.gtb_spec (positionColumn selection) 1) as [Hcol|Hcol]; cbn [orb].
  - assert (Hone : forall c,
              (startLineNumber (Range.new (positionLineNumber selection) c
                                  (positionLineNumber selection) (positionColumn selection))
               =? endLineNumber (Range.new (positionLineNumber selection) c
                                   (positionLineNumber selection)
                                   (positionColumn selection)))
              = true).
    { intros c. unfold Range.new. destruct (_ || _); cbn; apply Z.eqb_refl. }
    destruct (useTabStops config); cbn [andb]; [destruct (_ <=? _)|];
      unfold Range.fromPositions, Position.with_column; cbn [lineNumber column];
      apply Hone.
  - rewrite andb_false_r. unfold Range.fromPositions.
    destruct (Z.gtb_spec (positionLineNumber selection) 1) as [Hline|Hline];
      cbn [lineNumber column negb]; unfold Range.new.
    + replace (positionLineNumber selection - 1 >? positionLineNumber selection)
        with false by lia.
      replace (positionLineNumber selection - 1 =? positionLineNumber selection)
        with false by lia.
      cbn. lia.
    + destruct (_ || _); cbn; apply Z.eqb_refl.
Qed.

(** X10: backspace starts a new undo stop exactly when the previous operation was
    not a backspace, or a selection over more than one line is deleted, or a
    caret at the start of a line below the first takes the line break before
    it away (pair deletion apart, which always starts one). *)
Theorem deleteLeft_undo_stop
    (strings_getLeftDeleteOffset : Z -> string -> Z) (isQuote : string -> bool)
    (prevEditOperationType : EditOperationType) (config : CursorConfiguration)
    (model : ICursorSimpleModel) (selections : list Selection)
    (autoClosedCharacters : list Range) :
  DeleteOperations.isAutoClosingPairDelete isQuote (autoClosingDelete config)
    (autoClosingBrackets config) (autoClosingQuotes config)
    (autoClosingPairsOpenByEnd config) model selections autoClosedCharacters = false ->
  (DeleteOperations.deleteLeft strings_getLeftDeleteOffset isQuote prevEditOperationType
     config model selections autoClosedCharacters).1 = true
  <-> prevEditOperationType <> DeletingLeft
      \/ exists selection,
           selection ∈ selections
           /\ (Selection.isEmpty selection = false
               /\ startLineNumber (Selection.toRange selection)
                  <> endLineNumber (Selection.toRange selection)
               \/ Selection.isEmpty selection = true
                  /\ positionColumn selection <= 1 /\ 1 < positionLineNumber selection).
Proof.
  intros Hpair. unfold DeleteOperations.deleteLeft. rewrite Hpair.
  rewrite delete_loop_flag, orb_true_iff, negb_true_iff, existsb_exists.
  assert (Hline : forall selection,
            negb (startLineNumber
                    (DeleteOperations.getDeleteRange strings_getLeftDeleteOffset
                       selection model config)
                  =? endLineNumber
                       (DeleteOperations.getDeleteRange strings_getLeftDeleteOffset
                          selection model config)) = true
            <-> (Selection.isEmpty selection = false
                 /\ startLineNumber (Selection.toRange selection)
                    <> endLineNumber (Selection.toRange selection)
                 \/ Selection.isEmpty selection = true
                    /\ positionColumn selection <= 1 /\ 1 < positionLineNumber selection)).
  { intros selection.
    pose proof (getDeleteRange_lines strings_getLeftDeleteOffset selection model config)
      as Hlines.
    cbv zeta in Hlines. rewrite Hlines, negb_true_iff.
    destruct (Selection.isEmpty selection).
    - destruct (Z.gtb_spec (positionColumn selection) 1),
               (Z.gtb_spec (positionLineNumber selection) 1); cbn; split;
        try done; try (intros [[? ?]|(_ & ? & ?)]; try done; lia);
        intros _; right; split; [done|lia].
    - rewrite Z.eqb_neq. split; [by left|]. by intros [[_ ?]|[? _]]. }
  split.
  - intros [Hprev|(selection & Hin & Hsel)].
    + left. by destruct prevEditOperationType.
    + right. exists selection. split; [by apply list_elem_of_In|by apply Hline].
  - intros [Hprev|(selection & Hin & Hsel)].
    + left. by destruct prevEditOperationType.
    + right. exists selection. split; [by apply list_elem_of_In|by apply Hline].
Qed.

Lemma deleteLeft_undo_stop_witness :
  (DeleteOperations.deleteLeft (λ offset _, offset - 1) quoteCharacter DeletingLeft
     plainConfiguration (plainSimpleModel "ab") [Selection.new 2 1 2 1] []).1 = true.
Proof.
  apply deleteLeft_undo_stop; [reflexivity|].
  right. exists (Selection.new 2 1 2 1). split; [apply list_elem_of_here|].
  right. split; [reflexivity|]. cbn. lia.
Defined.

(** ** One cursor, further *)

(** X11: view-state validation settles at once when the view model's
    normalization does: validating a validated view state changes nothing,
    neither the positions nor the leftover columns. *)
Theorem validateViewState_idempotent (viewModel : ICursorSimpleModel)
    (viewState : SingleCursorState) :
  (forall p, normalizePosition viewModel (normalizePosition viewModel p AffinityNone)
               AffinityNone
             = normalizePosition viewModel p AffinityNone) ->
  Cursor._validateViewState viewModel (Cursor._validateViewState viewModel viewState)
  = Cursor._validateViewState viewModel viewState.
Proof.
  intros Hidem. rewrite !validateViewState_direct_eq.
  set (p := normalizePosition viewModel (position viewState) AffinityNone).
  set (a := normalizePosition viewModel
              (Range.getStartPosition (selectionStart viewState)) AffinityNone).
  set (b := normalizePosition viewModel
              (Range.getEndPosition (selectionStart viewState)) AffinityNone).
  assert (Hp : normalizePosition viewModel p AffinityNone = p) by apply Hidem.
  assert (Ha : normalizePosition viewModel a AffinityNone = a) by apply Hidem.
  assert (Hb : normalizePosition viewModel b AffinityNone = b) by apply Hidem.
  destruct (Position.equals (position viewState) p
            && Position.equals (Range.getStartPosition (selectionStart viewState)) a
            && Position.equals (Range.getEndPosition (selectionStart viewState)) b)
    eqn:Hfast.
  - assert (Hsame : _validateViewState_direct viewModel viewState = viewState).
    { unfold _validateViewState_direct. fold p a b. by rewrite Hfast. }
    by rewrite !Hsame.
  - assert (Hnew : _validateViewState_direct viewModel viewState
                   = SingleCursorState.new (Range.fromPositions a b)
                       (selectionStartKind viewState)
                       (selectionStartLeftoverVisibleColumns viewState
                        + column (Range.getStartPosition (selectionStart viewState))
                        - column a)
                       p
                       (leftoverVisibleColumns viewState + column (position viewState)
                        - column p)).
    { unfold _validateViewState_direct. fold p a b. by rewrite Hfast. }
    rewrite Hnew. unfold _validateViewState_direct, SingleCursorState.new.
    cbn [position selectionStart selectionStartKind leftoverVisibleColumns
         selectionStartLeftoverVisibleColumns].
    unfold Range.fromPositions.
    destruct (Range_new_ends a b) as [[-> ->]|[-> ->]];
      by rewrite Hp, Ha, Hb, !Position_equals_refl.
Qed.

Lemma validateViewState_idempotent_witness :
  Cursor._validateViewState clampingSimpleModel
    (Cursor._validateViewState clampingSimpleModel (caretState 1 10 3))
  = Cursor._validateViewState clampingSimpleModel (caretState 1 10 3).
Proof.
  apply validateViewState_idempotent.
  intros [line col]. cbn. destruct (Z.gtb_spec col 5); cbn; [done|].
  by replace (col >? 5) with false by lia.
Defined.

Lemma computeStates_settles (context : CursorContext)
    (modelState viewState : option SingleCursorState) (m v : SingleCursorState) :
  (forall p, validatePosition (model context) (validatePosition (model context) p)
             = validatePosition (model context) p) ->
  (forall r, validateRange (model context) (validateRange (model context) r)
             = validateRange (model context) r) ->
  Cursor._computeStates context modelState viewState = Some (m, v) ->
  settled context m.
Proof.
  intros HP HR H. unfold Cursor._computeStates in H.
  destruct modelState as [ms|], viewState as [vs|]; cbn in H; try done;
    injection H as <- _; split; cbn; done.
Qed.

Lemma computeStates_settled (context : CursorContext) (m : SingleCursorState)
    (viewState : option SingleCursorState) :
  settled context m ->
  exists v, Cursor._computeStates context (Some m) viewState = Some (m, v).
Proof.
  intros [HR HP]. unfold Cursor._computeStates.
  destruct viewState as [vs|]; cbn; rewrite HR, HP, Position_equals_refl;
    replace (Range.equalsRange (selectionStart m) (selectionStart m)) with true
      by (symmetry; by apply Range_equalsRange_eq);
    eexists; by destruct m.
Qed.

(** X12: once [setState] has run, [ensureValidState] on an unchanged document
    keeps the document state of the cursor, leftover columns included,
    provided validating twice against the document is the same as validating
    once. *)
Theorem ensureValidState_keeps_modelState (context : CursorContext) (s s1 : Store)
    (this : nat) (modelState' viewState' : option SingleCursorState) :
  (forall p, validatePosition (model context) (validatePosition (model context) p)
             = validatePosition (model context) p) ->
  (forall r, validateRange (model context) (validateRange (model context) r)
             = validateRange (model context) r) ->
  is_Some (Cursor._computeStates context modelState' viewState') ->
  Cursor.setState context s this modelState' viewState' = Some s1 ->
  exists s2,
    Cursor.ensureValidState context s1 this = Some s2
    /\ modelState <$> heap s2 !! this = modelState <$> heap s1 !! this.
Proof.
  intros HP HR [[m v] Hmv] Hset.
  unfold Cursor.setState, Cursor._setState in Hset.
  destruct (heap s !! this) as [o|] eqn:Ho;
    [|unfold Cursor.on_cursor in Hset; by rewrite Ho in Hset].
  rewrite (on_cursor_eq _ _ _ _ Ho) in Hset. injection Hset as <-.
  assert (Hlt : (this < length (heap s))%nat) by by eapply lookup_lt_Some.
  set (o1 := (Cursor._setState_obj context (tracked s) o modelState' viewState').2).
  assert (Hm1 : modelState o1 = m).
  { subst o1. unfold Cursor._setState_obj. rewrite Hmv.
    unfold Cursor._updateTrackedRange. cbn [_trackSelection _selTrackedRange].
    destruct (negb _); [done|]. by destruct (_setTrackedRange _ _ _ _). }
  unfold Cursor.ensureValidState.
  erewrite on_cursor_eq; [|cbn [heap]; by apply list_lookup_insert_eq].
  eexists. split; [reflexivity|]. cbn [heap].
  rewrite list_insert_insert_eq, !list_lookup_insert_eq by done.
  cbn [fmap option_fmap option_map]. f_equal.
  destruct (computeStates_settled context m (Some (viewState o1)))
    as [v1 Hv1]; [by eapply computeStates_settles|].
  rewrite Hm1. unfold Cursor._setState_obj. rewrite Hv1.
  unfold Cursor._updateTrackedRange. cbn [_trackSelection _selTrackedRange].
  destruct (negb _); [done|]. by destruct (_setTrackedRange _ _ _ _).
Qed.

Lemma ensureValidState_keeps_modelState_witness :
  exists s2,
    Cursor.ensureValidState plainContext
      (mkStore (<[0%nat := cursorAt (Selection.new 1 1 1 5) 0]> (heap overlappingPair.1))
         (tracked overlappingPair.1) []) 0 = Some s2
    /\ modelState <$> heap s2 !! 0%nat
       = modelState
           <$> heap (mkStore (<[0%nat := cursorAt (Selection.new 1 1 1 5) 0]>
                                (heap overlappingPair.1))
                       (tracked overlappingPair.1) []) !! 0%nat.
Proof.
  apply (ensureValidState_keeps_modelState plainContext overlappingPair.1 _ 0
           (p_modelState (CursorState.fromModelSelection (Selection.new 1 1 1 5)))
           (p_viewState (CursorState.fromModelSelection (Selection.new 1 1 1 5))));
    done.
Defined.

(** ** Tracked selections *)

Lemma Selection_fromRange_toRange (s : Selection) :
  Selection.fromRange (Selection.toRange s) (Selection.getDirection s) = s.
Proof.
  destruct s as [a b c d]. unfold Selection.getDirection, Selection.toRange, Range.new.
  cbn [selectionStartLineNumber selectionStartColumn positionLineNumber positionColumn].
  destruct (Z.gtb_spec a c), (Z.eqb_spec a c), (Z.gtb_spec b d); cbn; try lia;
    repeat match goal with
      | |- context [?x =? ?y] => destruct (Z.eqb_spec x y)
      end; cbn; unfold Selection.new; try done; try lia; f_equal; lia.
Qed.

Lemma setTrackedRange_registers (t : TrackedRanges) (id : option nat) (r : Range)
    (stickiness : TrackedRangeStickiness) :
  exists i,
    (_setTrackedRange t id (Some r) stickiness).2 = Some i
    /\ tr_table (_setTrackedRange t id (Some r) stickiness).1 !! i = Some r.
Proof.
  unfold _setTrackedRange.
  destruct (id ≫= _) as [i|]; eexists; (split; [reflexivity|]); cbn;
    apply lookup_insert_eq.
Qed.

(** X13: the selection survives the trip through the document's tracked ranges:
    right after [setState] has given a tracking cursor its states,
    [readSelectionFromMarkers] answers the selection of the document state,
    direction included. *)
Theorem readSelectionFromMarkers_after_setState (context : CursorContext) (s : Store)
    (this : nat) (o : Cursor) (modelState' viewState' : option SingleCursorState)
    (m v : SingleCursorState) :
  heap s !! this = Some o ->
  _trackSelection o = true ->
  Cursor._computeStates context modelState' viewState' = Some (m, v) ->
  exists s',
    Cursor.setState context s this modelState' viewState' = Some s'
    /\ Cursor.readSelectionFromMarkers context s' this
       = Some (SingleCursorState.selection m).
Proof.
  intros Ho Htrack Hmv. unfold Cursor.setState, Cursor._setState.
  rewrite (on_cursor_eq _ _ _ _ Ho). eexists. split; [reflexivity|].
  assert (Hlt : (this < length (heap s))%nat) by by eapply lookup_lt_Some.
  unfold Cursor.readSelectionFromMarkers. cbn [heap tracked].
  rewrite list_lookup_insert_eq by done. cbn [mbind option_bind].
  unfold Cursor._setState_obj. rewrite Hmv. unfold Cursor._updateTrackedRange.
  cbn [_trackSelection _selTrackedRange modelState]. rewrite Htrack. cbn [negb].
  destruct (setTrackedRange_registers (tracked s) (_selTrackedRange o)
              (Selection.toRange (SingleCursorState.selection m))
              AlwaysGrowsWhenTypingAtEdges) as (i & Hid & Hlook).
  destruct (_setTrackedRange _ _ _ _) as [t' id']. cbn [fst snd] in *. subst id'.
  cbn [_selTrackedRange mbind option_bind modelState]. unfold _getTrackedRange.
  rewrite Hlook. cbn [mbind option_bind].
  unfold Selection.isEmpty. rewrite andb_negb_r.
  by rewrite Selection_fromRange_toRange.
Qed.

Lemma readSelectionFromMarkers_after_setState_witness :
  exists s',
    Cursor.setState plainContext overlappingPair.1 1
      (p_modelState (CursorState.fromModelSelection (Selection.new 2 4 2 1)))
      (p_viewState (CursorState.fromModelSelection (Selection.new 2 4 2 1))) = Some s'
    /\ Cursor.readSelectionFromMarkers plainContext s' 1
       = Some (SingleCursorState.selection
                 (SingleCursorState.new (rawRange 2 4 2 4) Simple 0 (mkPosition 2 1) 0)).
Proof.
  eapply (readSelectionFromMarkers_after_setState plainContext overlappingPair.1 1
            (cursorAt (Selection.new 1 3 1 8) 1)); reflexivity.
Defined.

(** X14: recovering from markers never turns a caret into a selection: when the
    document state of the cursor selects nothing, [readSelectionFromMarkers]
    answers the caret at the end of the tracked range, however far the range
    has grown. *)
Theorem readSelectionFromMarkers_caret (context : CursorContext) (s : Store)
    (this : nat) (o : Cursor) (id : nat) (range : Range) :
  heap s !! this = Some o ->
  _selTrackedRange o = Some id ->
  _getTrackedRange (tracked s) id = Some range ->
  Selection.isEmpty (SingleCursorState.selection (modelState o)) = true ->
  Cursor.readSelectionFromMarkers context s this
  = Some (Selection.new (endLineNumber range) (endColumn range)
                        (endLineNumber range) (endColumn range)).
Proof.
  intros Ho Hid Hrange Hempty. unfold Cursor.readSelectionFromMarkers.
  rewrite Ho. cbn [mbind option_bind]. rewrite Hid. cbn [mbind option_bind].
  rewrite Hrange. cbn [mbind option_bind]. rewrite Hempty. cbn [andb].
  destruct (Range.isEmpty range) eqn:He; cbn [negb].
  - unfold Range.isEmpty in He. apply andb_true_iff in He as [Hl Hc].
    apply Z.eqb_eq in Hl, Hc.
    destruct range as [sl sc el ec]. cbn in *. subst.
    by destruct (Selection.getDirection _).
  - unfold Range.collapseToEnd. rewrite Range_new_point.
    by destruct (Selection.getDirection _).
Qed.

Lemma readSelectionFromMarkers_caret_witness :
  Cursor.readSelectionFromMarkers plainContext
    (mkStore [cursorAt (Selection.new 1 3 1 3) 0]
       (mkTrackedRanges {[ 0%nat := rawRange 1 3 1 6 ]} 1) []) 0
  = Some (Selection.new 1 6 1 6).
Proof.
  apply (readSelectionFromMarkers_caret plainContext _ 0
           (cursorAt (Selection.new 1 3 1 3) 0) 0 (rawRange 1 3 1 6)); reflexivity.
Defined.

(** X15: a cursor that stopped tracking holds no tracked range: from then on
    [setState] leaves the document's tracked ranges alone, and
    [readSelectionFromMarkers] has nothing to read. *)
Theorem stopTrackingSelection_releases (context : CursorContext) (s : Store)
    (this : nat) (o : Cursor) :
  heap s !! this = Some o ->
  exists s1,
    Cursor.stopTrackingSelection context s this = Some s1
    /\ (forall id, _selTrackedRange o = Some id -> tr_table (tracked s1) !! id = None)
    /\ Cursor.readSelectionFromMarkers context s1 this = None
    /\ forall modelState' viewState' s2,
         Cursor.setState context s1 this modelState' viewState' = Some s2 ->
         tracked s2 = tracked s1
         /\ Cursor.readSelectionFromMarkers context s2 this = None.
Proof.
  intros Ho. unfold Cursor.stopTrackingSelection.
  rewrite (on_cursor_eq _ _ _ _ Ho). eexists. split; [reflexivity|].
  assert (Hlt : (this < length (heap s))%nat) by by eapply lookup_lt_Some.
  unfold Cursor._removeTrackedRange. cbn [_selTrackedRange modelState viewState].
  assert (Hrel : exists t',
            _setTrackedRange (tracked s) (_selTrackedRange o) None
              AlwaysGrowsWhenTypingAtEdges = (t', None)
            /\ forall id, _selTrackedRange o = Some id -> tr_table t' !! id = None).
  { unfold _setTrackedRange. destruct (_selTrackedRange o) as [i|]; cbn.
    - destruct (tr_table (tracked s) !! i) eqn:Hi; cbn.
      + eexists. split; [reflexivity|]. intros id [= <-]. cbn. apply lookup_delete_eq.
      + eexists. split; [reflexivity|]. by intros id [= <-].
    - eexists. split; [reflexivity|]. done. }
  destruct Hrel as (t' & -> & Hgone). cbn [fst snd tracked heap].
  split; [exact Hgone|]. split.
  - unfold Cursor.readSelectionFromMarkers. cbn [heap].
    by rewrite list_lookup_insert_eq by done.
  - intros modelState' viewState' s2 Hset.
    unfold Cursor.setState, Cursor._setState in Hset.
    erewrite on_cursor_eq in Hset; [|cbn [heap]; by apply list_lookup_insert_eq].
    injection Hset as <-. cbn [tracked heap].
    assert (Hobj : forall c, _trackSelection c = false -> _selTrackedRange c = None ->
              (Cursor._setState_obj context t' c modelState' viewState').1 = t'
              /\ _selTrackedRange
                   (Cursor._setState_obj context t' c modelState' viewState').2 = None).
    { intros c Hc1 Hc2. unfold Cursor._setState_obj.
      destruct (Cursor._computeStates _ _ _) as [[m v]|]; [|done].
      unfold Cursor._updateTrackedRange. cbn [_trackSelection]. by rewrite Hc1. }
    match goal with
    | |- context [Cursor._setState_obj context t' ?c modelState' viewState'] =>
        destruct (Hobj c) as [H1 H2]; [done|done|]
    end.
    split; [exact H1|].
    unfold Cursor.readSelectionFromMarkers. cbn [heap].
    rewrite list_lookup_insert_eq by (rewrite length_insert; done).
    cbn [mbind option_bind]. by rewrite H2.
Qed.

Lemma stopTrackingSelection_releases_witness :
  exists s1,
    Cursor.stopTrackingSelection plainContext overlappingPair.1 0 = Some s1
    /\ (forall id, _selTrackedRange (cursorAt (Selection.new 1 1 1 5) 0) = Some id ->
                   tr_table (tracked s1) !! id = None)
    /\ Cursor.readSelectionFromMarkers plainContext s1 0 = None
    /\ forall modelState' viewState' s2,
         Cursor.setState plainContext s1 0 modelState' viewState' = Some s2 ->
         tracked s2 = tracked s1
         /\ Cursor.readSelectionFromMarkers plainContext s2 0 = None.
Proof.
  apply (stopTrackingSelection_releases plainContext overlappingPair.1 0). reflexivity.
Defined.

(** X16: a cursor that starts tracking its selection can read it back from the
    document at once, direction included. *)
Theorem startTrackingSelection_tracks (context : CursorContext) (s : Store)
    (this : nat) (o : Cursor) :
  heap s !! this = Some o ->
  exists s',
    Cursor.startTrackingSelection context s this = Some s'
    /\ Cursor.readSelectionFromMarkers context s' this
       = Some (SingleCursorState.selection (modelState o))
    /\ (_trackSelection <$> heap s' !! this) = Some true.
Proof.
  intros Ho. unfold Cursor.startTrackingSelection.
  rewrite (on_cursor_eq _ _ _ _ Ho). eexists. split; [reflexivity|].
  assert (Hlt : (this < length (heap s))%nat) by by eapply lookup_lt_Some.
  unfold Cursor.readSelectionFromMarkers. cbn [heap tracked].
  rewrite list_lookup_insert_eq by done. cbn [mbind option_bind fmap option_fmap option_map].
  unfold Cursor._updateTrackedRange. cbn [_trackSelection _selTrackedRange modelState negb].
  destruct (setTrackedRange_registers (tracked s) (_selTrackedRange o)
              (Selection.toRange (SingleCursorState.selection (modelState o)))
              AlwaysGrowsWhenTypingAtEdges) as (i & Hid & Hlook).
  destruct (_setTrackedRange _ _ _ _) as [t' id']. cbn [fst snd] in *. subst id'.
  cbn [_selTrackedRange mbind option_bind modelState _trackSelection].
  unfold _getTrackedRange. rewrite Hlook. cbn [mbind option_bind].
  unfold Selection.isEmpty. rewrite andb_negb_r.
  by rewrite Selection_fromRange_toRange.
Qed.

Lemma startTrackingSelection_tracks_witness :
  exists s',
    Cursor.startTrackingSelection plainContext overlappingPair.1 1 = Some s'
    /\ Cursor.readSelectionFromMarkers plainContext s' 1
       = Some (SingleCursorState.selection
                 (modelState (cursorAt (Selection.new 1 3 1 8) 1)))
    /\ (_trackSelection <$> heap s' !! 1%nat) = Some true.
Proof.
  apply (startTrackingSelection_tracks plainContext overlappingPair.1 1). reflexivity.
Defined.

(** ** The states of the cursors of a collection *)

Lemma setState_obj_states (context : CursorContext) (t : TrackedRanges) (o : Cursor)
    (modelState' viewState' : option SingleCursorState) :
  let o' := (Cursor._setState_obj context t o modelState' viewState').2 in
  match Cursor._computeStates context modelState' viewState' with
  | Some states => (modelState o', viewState o') = states
  | None => o' = o
  end.
Proof.
  unfold Cursor._setState_obj.
  destruct (Cursor._computeStates _ _ _) as [[m v]|]; [|done].
  unfold Cursor._updateTrackedRange. cbn [_trackSelection _selTrackedRange modelState].
  destruct (negb _); [done|]. by destruct (_setTrackedRange _ _ _ _).
Qed.

Lemma removeTrackedRange_states (t : TrackedRanges) (o : Cursor) :
  modelState (Cursor._removeTrackedRange t o).2 = modelState o
  /\ viewState (Cursor._removeTrackedRange t o).2 = viewState o.
Proof.
  unfold Cursor._removeTrackedRange. by destruct (_setTrackedRange _ _ _ _).
Qed.

(** A method of one cursor leaves the states of every other cursor alone. *)
Lemma on_cursor_statesAt_ne (f : TrackedRanges -> Cursor -> TrackedRanges * Cursor)
    (s s' : Store) (this c : nat) :
  Cursor.on_cursor f s this = Some s' -> c <> this -> statesAt s' c = statesAt s c.
Proof.
  unfold Cursor.on_cursor. destruct (heap s !! this) as [o|]; [|done]. cbn.
  destruct (f (tracked s) o) as [t' o']. intros [= <-] Hne.
  unfold statesAt. cbn [heap]. by rewrite list_lookup_insert_ne.
Qed.

Lemma on_cursor_statesAt_keep (f : TrackedRanges -> Cursor -> TrackedRanges * Cursor)
    (s s' : Store) (this c : nat) :
  (forall t o, modelState (f t o).2 = modelState o /\ viewState (f t o).2 = viewState o) ->
  Cursor.on_cursor f s this = Some s' -> statesAt s' c = statesAt s c.
Proof.
  intros Hkeep Hon. destruct (decide (c = this)) as [->|Hne];
    [|by eapply on_cursor_statesAt_ne].
  unfold Cursor.on_cursor in Hon. destruct (heap s !! this) as [o|] eqn:Ho; [|done].
  cbn in Hon. specialize (Hkeep (tracked s) o).
  destruct (f (tracked s) o) as [t' o']. injection Hon as <-.
  unfold statesAt. cbn [heap].
  rewrite list_lookup_insert_eq by by eapply lookup_lt_Some.
  rewrite Ho. cbn in *. destruct Hkeep as [-> ->]. done.
Qed.

Lemma setState_assigned (context : CursorContext) (s s' : Store) (this : nat)
    (state : PartialCursorState) :
  is_Some (Cursor._computeStates context (p_modelState state) (p_viewState state)) ->
  Cursor.setState context s this (p_modelState state) (p_viewState state) = Some s' ->
  assigned context s' this state.
Proof.
  intros [states Hstates] Hset. unfold Cursor.setState, Cursor._setState in Hset.
  unfold Cursor.on_cursor in Hset. destruct (heap s !! this) as [o|] eqn:Ho; [|done].
  cbn in Hset.
  pose proof (setState_obj_states context (tracked s) o (p_modelState state)
                (p_viewState state)) as Hobj.
  cbv zeta in Hobj. rewrite Hstates in Hobj.
  destruct (Cursor._setState_obj _ _ _ _ _) as [t' o']. injection Hset as <-.
  unfold assigned, statesAt. cbn [heap snd] in *.
  rewrite list_lookup_insert_eq by by eapply lookup_lt_Some.
  cbn. by rewrite Hobj, Hstates.
Qed.

Lemma keepsStates_refl (st : Store * CursorCollection) : keepsStates st st.
Proof. by repeat split. Qed.

Lemma keepsStates_trans (st1 st2 st3 : Store * CursorCollection) :
  keepsStates st1 st2 -> keepsStates st2 st3 -> keepsStates st1 st3.
Proof.
  intros (Hl1 & Hc1 & H1) (Hl2 & Hc2 & H2). split; [lia|]. split; [congruence|].
  intros c Hc. rewrite H2 by lia. by apply H1.
Qed.

Lemma addSecondaryCursor_keepsStates (st : Store * CursorCollection) :
  keepsStates st (CursorCollection._addSecondaryCursor st).
Proof.
  destruct st as [s this]. unfold CursorCollection._addSecondaryCursor, Cursor.new.
  destruct (Cursor._setState_obj _ _ _ _ _) as [t' c]. cbn [fst snd].
  split; [|split]; cbn [heap fst].
  - rewrite length_app. lia.
  - done.
  - intros c' Hc'. unfold statesAt. cbn [heap]. by rewrite lookup_app_l.
Qed.

Lemma removeSecondaryCursor_keepsStates (st st' : Store * CursorCollection)
    (removeIndex : Z) :
  CursorCollection._removeSecondaryCursor st removeIndex = Some st' ->
  keepsStates st st'.
Proof.
  destruct st as [s this]. unfold CursorCollection._removeSecondaryCursor.
  destruct (Array.get (cursors this) (removeIndex + 1)) as [c|]; [|done]. cbn.
  unfold Cursor.dispose.
  destruct (Cursor.on_cursor Cursor._removeTrackedRange s c) as [s1|] eqn:Hs1; [|done].
  cbn. intros [= <-]. split; [|split]; cbn [fst heap].
  - apply on_cursor_inv in Hs1 as (_ & -> & _). lia.
  - done.
  - intros c' _.
    change (statesAt (mkStore (heap s1) (tracked s1) (removed s1 ++ [(removeIndex + 1, c)])) c')
      with (statesAt s1 c').
    eapply on_cursor_statesAt_keep; [|exact Hs1]. intros. apply removeTrackedRange_states.
Qed.

Lemma repeatM_keepsStates (n : nat)
    (body : Store * CursorCollection -> option (Store * CursorCollection))
    (st st' : Store * CursorCollection) :
  (forall st1 st2, body st1 = Some st2 -> keepsStates st1 st2) ->
  repeatM n body st = Some st' -> keepsStates st st'.
Proof.
  intros Hbody. revert st. induction n as [|n IH]; intros st; cbn.
  - intros [= <-]. apply keepsStates_refl.
  - destruct (body st) as [st1|] eqn:H1; [|done]. cbn. intros Hrest.
    eapply keepsStates_trans; [by apply Hbody|by apply IH].
Qed.

Lemma computeStates_is_Some (context : CursorContext)
    (modelState viewState : option SingleCursorState) :
  modelState <> None \/ viewState <> None ->
  is_Some (Cursor._computeStates context modelState viewState).
Proof.
  unfold Cursor._computeStates.
  destruct modelState, viewState; cbn; intros [?|?]; try done; by eexists.
Qed.

Lemma assigned_statesAt (context : CursorContext) (s s' : Store) (c : nat)
    (state : PartialCursorState) :
  statesAt s' c = statesAt s c -> assigned context s c state ->
  assigned context s' c state.
Proof. unfold assigned. by intros ->. Qed.

Lemma setSecondaryStates_assign_assigns (secondaryStates : list PartialCursorState)
    (s s' : Store) (this : CursorCollection) (i : Z) :
  NoDup (cursors this) ->
  0 <= i ->
  Forall hasSide secondaryStates ->
  CursorCollection._setSecondaryStates_assign s this i secondaryStates = Some s' ->
  (forall j c, cursors this !! j = Some c -> Z.of_nat j <= i ->
               statesAt s' c = statesAt s c)
  /\ (forall k state, secondaryStates !! k = Some state ->
        exists c, cursors this !! (Z.to_nat (i + 1) + k)%nat = Some c
                  /\ assigned (context this) s' c state).
Proof.
  intros Hnd. revert s i.
  induction secondaryStates as [|state rest IH]; intros s i Hi Hsides Hassign.
  { injection Hassign as <-. split; [done|]. by intros k state Hk. }
  apply Forall_cons in Hsides as [Hside Hsides].
  cbn [CursorCollection._setSecondaryStates_assign] in Hassign.
  destruct (Array.get (cursors this) (i + 1)) as [c|] eqn:Hc; [|done].
  apply Array_get_inv in Hc as [Hrange Hc]. cbn [mbind option_bind] in Hassign.
  destruct (Cursor.setState (context this) s c (p_modelState state) (p_viewState state))
    as [s1|] eqn:Hs1; [|done].
  cbn [mbind option_bind] in Hassign.
  destruct (IH s1 (i + 1)) as [Hframe Hrest]; [lia|done|done|].
  assert (Hc_s' : statesAt s' c = statesAt s1 c).
  { apply (Hframe (Z.to_nat (i + 1))); [done|lia]. }
  split.
  - intros j c' Hj Hji. rewrite (Hframe j c' Hj) by lia.
    unfold Cursor.setState, Cursor._setState in Hs1.
    apply (on_cursor_statesAt_ne _ _ _ _ _ Hs1).
    intros ->. rewrite NoDup_alt in Hnd. specialize (Hnd _ _ _ Hj Hc). lia.
  - intros [|k] state' Hk.
    + injection Hk as <-. exists c. rewrite Nat.add_0_r. split; [done|].
      eapply assigned_statesAt; [exact Hc_s'|].
      eapply setState_assigned; [|exact Hs1]. by apply computeStates_is_Some.
    + destruct (Hrest k state' Hk) as (c' & Hc' & Ha). exists c'. split; [|done].
      by replace (Z.to_nat (i + 1) + S k)%nat with (Z.to_nat (i + 1 + 1) + k)%nat by lia.
Qed.

Lemma setSecondaryStates_inv (st st' : Store * CursorCollection)
    (secondaryStates : list PartialCursorState) :
  wf st ->
  CursorCollection._setSecondaryStates st secondaryStates = Some st' ->
  exists st1,
    wf st1 /\ keepsPrimary st st1 /\ keepsStates st st1
    /\ length (cursors st1.2) = S (length secondaryStates)
    /\ CursorCollection._setSecondaryStates_assign st1.1 st1.2 0 secondaryStates
       = Some st'.1
    /\ st'.2 = st1.2.
Proof.
  intros Hwf. unfold CursorCollection._setSecondaryStates.
  assert (Hne : (1 <= length (cursors st.2))%nat).
  { destruct Hwf as (Hne & _). destruct (cursors st.2); [done|simpl; lia]. }
  set (loops := if _ <? _ then _ else _).
  destruct loops as [st1|] eqn:Hloops; [|done]. cbn [mbind option_bind].
  destruct (CursorCollection._setSecondaryStates_assign st1.1 st1.2 0 secondaryStates)
    as [s'|] eqn:Hassign; [|done].
  cbn [mbind option_bind]. intros [= <-]. exists st1. cbn [fst snd].
  subst loops.
  destruct (Z.ltb_spec (Z.of_nat (length (cursors st.2)) - 1)
              (Z.of_nat (length secondaryStates))) as [Hlt|Hge].
  - destruct (repeat_addSecondaryCursor_spec
                (Z.to_nat (Z.of_nat (length secondaryStates)
                           - (Z.of_nat (length (cursors st.2)) - 1))) st Hwf)
      as (st1' & H1 & Hwf1 & Hk1 & Hlen1).
    pose proof (repeatM_keepsStates _ _ _ _
                  (λ st1 st2 (H : Some (CursorCollection._addSecondaryCursor st1) = Some st2),
                     eq_ind _ (keepsStates st1)
                       (addSecondaryCursor_keepsStates st1) _
                       (f_equal (default st1) H)) Hloops) as Hkeep.
    rewrite H1 in Hloops. injection Hloops as ->.
    repeat split; try done; try apply Hwf1; try apply Hk1; try apply Hkeep. lia.
  - destruct (Z.gtb_spec (Z.of_nat (length (cursors st.2)) - 1)
                (Z.of_nat (length secondaryStates))) as [Hgt|Hle].
    + destruct (repeat_removeSecondaryCursor_spec
                  (Z.to_nat (Z.of_nat (length (cursors st.2)) - 1
                             - Z.of_nat (length secondaryStates))) st Hwf)
        as (st1' & H1 & Hwf1 & Hk1 & Hlen1); [lia|].
      pose proof (repeatM_keepsStates _ _ _ _
                    (λ st1 st2, removeSecondaryCursor_keepsStates st1 st2 _) Hloops)
        as Hkeep.
      rewrite H1 in Hloops. injection Hloops as ->.
      repeat split; try done; try apply Hwf1; try apply Hk1; try apply Hkeep. lia.
    + injection Hloops as <-.
      repeat split; try done; try apply Hwf; try lia.
      all: apply keepsPrimary_refl, Hwf.
Qed.

(** ** What [setStates] leaves in the collection *)

(** [setStates] gives the collection one cursor per state, in the order of
    the states, and every cursor holds the two states [_setState] computes
    from the state at its index. *)
Lemma setStates_assigns_aux (st st' : Store * CursorCollection)
    (states : list PartialCursorState) :
  wf st ->
  Forall hasSide states ->
  CursorCollection.setStates st (Some states) = Some st' ->
  length (cursors st'.2) = length states
  /\ forall k state, states !! k = Some state ->
       exists c, cursors st'.2 !! k = Some c
                 /\ assigned (context st.2) st'.1 c state.
Proof.
  intros Hwf Hsides. destruct st as [s this]. unfold CursorCollection.setStates.
  cbn [fst snd].
  destruct (Array.get (cursors this) 0) as [c0|] eqn:Hc0; [|done].
  apply Array_get_inv in Hc0 as [_ Hc0]. change (Z.to_nat 0) with 0%nat in Hc0.
  cbn [mbind option_bind].
  destruct states as [|state0 rest]; [done|].
  change (Array.get (state0 :: rest) 0) with (Some state0).
  cbn [mbind option_bind drop]. change (drop 0 rest) with rest.
  apply Forall_cons in Hsides as [Hside0 Hsides].
  destruct (Cursor.setState (context this) s c0 (p_modelState state0)
              (p_viewState state0)) as [s1|] eqn:Hs1; [|done].
  cbn [mbind option_bind]. intros Hsec.
  pose proof Hs1 as Hs1'. unfold Cursor.setState, Cursor._setState in Hs1'.
  apply on_cursor_inv in Hs1' as (Hc0heap & Hlen1 & Hr1).
  assert (Hwf1 : wf (s1, this)) by by eapply wf_store_change.
  destruct (setSecondaryStates_inv _ _ _ Hwf1 Hsec)
    as (st1 & Hwfst1 & Hk1 & (Hheap1 & Hctx1 & Hkeep1) & Hlenst1 & Hassign & Hthis').
  cbn [fst snd] in *.
  destruct (setSecondaryStates_assign_assigns rest st1.1 st'.1 st1.2 0)
    as [Hframe Hrest]; [apply Hwfst1|lia|done|done|].
  rewrite Hthis'. split; [by rewrite Hlenst1|].
  intros [|k] state Hk.
  - injection Hk as <-. exists c0. destruct Hk1 as (_ & Hprimary & _).
    cbn [fst snd] in Hprimary. rewrite Hprimary. split; [done|].
    eapply assigned_statesAt.
    { rewrite (Hframe 0%nat c0); [|by rewrite Hprimary|lia].
      apply Hkeep1. lia. }
    eapply setState_assigned; [|exact Hs1]. by apply computeStates_is_Some.
  - destruct (Hrest k state Hk) as (c & Hc & Ha). exists c.
    change (Z.to_nat (0 + 1) + k)%nat with (S k) in Hc. split; [done|].
    by rewrite Hctx1 in Ha.
Qed.

Lemma Range_fromPositions_point (p : Position) :
  Range.fromPositions p p = rawRange (lineNumber p) (column p) (lineNumber p) (column p).
Proof. unfold Range.fromPositions. apply Range_new_point. Qed.

(** The selection of the model state [_setState] computes from a selection
    the document accepts as it is. *)
Lemma computeStates_fromModelSelection (context : CursorContext) (sel : Selection) :
  validatePosition (model context) (Selection.getPosition sel) = Selection.getPosition sel ->
  validateRange (model context)
    (Range.fromPositions (Selection.getSelectionStart sel) (Selection.getSelectionStart sel))
  = Range.fromPositions (Selection.getSelectionStart sel) (Selection.getSelectionStart sel) ->
  exists m v,
    Cursor._computeStates context
      (p_modelState (CursorState.fromModelSelection sel))
      (p_viewState (CursorState.fromModelSelection sel)) = Some (m, v)
    /\ SingleCursorState.selection m = sel.
Proof.
  intros Hpos Hrange. unfold Cursor._computeStates, CursorState.fromModelSelection,
    CursorState.fromModelState, SingleCursorState.new.
  cbn [p_modelState p_viewState fmap option_fmap option_map selectionStart position].
  rewrite Hpos, Hrange. eexists _, _. split; [reflexivity|].
  unfold SingleCursorState.selection. cbn [selectionStart position].
  rewrite Range_fromPositions_point. unfold Range.isEmpty.
  cbn [startLineNumber endLineNumber startColumn endColumn].
  rewrite !Z.eqb_refl. cbn [andb orb].
  by destruct sel.
Qed.

(** X17: what is set is what is read: after [setSelections] with selections the
    document accepts as they are, [getSelections] answers these selections,
    in their order. *)
Theorem setSelections_getSelections (st st' : Store * CursorCollection)
    (selections : list Selection) :
  wf st ->
  Forall (λ sel,
    validatePosition (model (context st.2)) (Selection.getPosition sel)
    = Selection.getPosition sel
    /\ validateRange (model (context st.2))
         (Range.fromPositions (Selection.getSelectionStart sel)
            (Selection.getSelectionStart sel))
       = Range.fromPositions (Selection.getSelectionStart sel)
           (Selection.getSelectionStart sel)) selections ->
  CursorCollection.setSelections st selections = Some st' ->
  CursorCollection.getSelections st'.1 st'.2 = Some selections.
Proof.
  intros Hwf Hvalid Hset. unfold CursorCollection.setSelections in Hset.
  destruct (setStates_assigns_aux st st' (CursorState.fromModelSelections selections))
    as [Hlen Hall]; [done| |done|].
  { unfold CursorState.fromModelSelections. apply Forall_fmap.
    eapply Forall_impl; [exact Hvalid|]. intros sel _. by left. }
  unfold CursorState.fromModelSelections in *. rewrite length_fmap in Hlen.
  unfold CursorCollection.getSelections. apply mapM_Some.
  apply Forall2_same_length_lookup_2; [done|].
  intros k c sel Hc Hsel.
  destruct (Hall k (CursorState.fromModelSelection sel)) as (c' & Hc' & Ha).
  { by rewrite list_lookup_fmap, Hsel. }
  assert (c' = c) by congruence. subst c'.
  rewrite Forall_forall in Hvalid.
  destruct (Hvalid sel) as [Hpos Hrange]; [by eapply list_elem_of_lookup_2|].
  destruct (computeStates_fromModelSelection _ _ Hpos Hrange) as (m & v & Hmv & Hm).
  unfold assigned, statesAt in Ha. rewrite Hmv in Ha.
  destruct (heap st'.1 !! c) as [o|]; [|done]. injection Ha as Hmo _.
  cbn. by rewrite Hmo, Hm.
Qed.

Lemma setSelections_getSelections_witness :
  exists st',
    CursorCollection.setSelections overlappingPair
      [Selection.new 3 1 3 4; Selection.new 5 2 4 1; Selection.new 7 1 7 1] = Some st'
    /\ CursorCollection.getSelections st'.1 st'.2
       = Some [Selection.new 3 1 3 4; Selection.new 5 2 4 1; Selection.new 7 1 7 1].
Proof.
  eexists. split; [vm_compute; reflexivity|].
  apply (setSelections_getSelections overlappingPair);
    [exact overlappingPair_wf| |vm_compute; reflexivity].
  repeat constructor.
Defined.

(** ** A new collection, and a collection cut back to its primary cursor *)

Lemma statesAt_asCursorState (s s' : Store) (c c' : nat) :
  statesAt s' c' = statesAt s c ->
  Cursor.asCursorState <$> heap s' !! c' = Cursor.asCursorState <$> heap s !! c.
Proof.
  unfold statesAt. intros H.
  destruct (heap s' !! c') as [o'|], (heap s !! c) as [o|]; try done.
  cbn in *. injection H as Hm Hv. unfold Cursor.asCursorState. by rewrite Hm, Hv.
Qed.

(** X18: a collection starts with one cursor, the caret at the start of the
    document (if the document accepts that position as it is), and the
    document tracks it from the start. *)
Theorem new_collection (ctx : CursorContext) (s : Store) :
  validatePosition (model ctx) (mkPosition 1 1) = mkPosition 1 1 ->
  validateRange (model ctx) (rawRange 1 1 1 1) = rawRange 1 1 1 1 ->
  let st := CursorCollection.new ctx s in
  CursorCollection.getSelections st.1 st.2 = Some [Selection.new 1 1 1 1]
  /\ CursorCollection.readSelectionFromMarkers st = Some [Selection.new 1 1 1 1]
  /\ CursorCollection.getLastAddedCursorIndex st.2 = 0.
Proof.
  intros Hpos Hrange. unfold CursorCollection.new, Cursor.new, Cursor._setState_obj.
  unfold Cursor._computeStates, SingleCursorState.new.
  cbn [fmap option_fmap option_map selectionStart position selectionStartKind
       selectionStartLeftoverVisibleColumns leftoverVisibleColumns].
  change (Range.new 1 1 1 1) with (rawRange 1 1 1 1). rewrite Hpos, Hrange.
  unfold Cursor._updateTrackedRange. cbn [_trackSelection negb _selTrackedRange modelState].
  unfold _setTrackedRange. cbn [mbind option_bind].
  cbv zeta. cbn [fst snd cursors heap tracked].
  unfold CursorCollection.getSelections, CursorCollection.readSelectionFromMarkers,
    Cursor.readSelectionFromMarkers.
  cbn [fst snd cursors heap tracked context mapM].
  rewrite lookup_app_r by lia. rewrite Nat.sub_diag.
  cbn [lookup list_lookup fmap option_fmap option_map mbind option_bind modelState
       _selTrackedRange].
  unfold _getTrackedRange. cbn [tr_table]. rewrite lookup_insert_eq.
  split; [done|]. split; done.
Qed.

Lemma new_collection_witness :
  CursorCollection.getSelections (CursorCollection.new plainContext overlappingPair.1).1
    (CursorCollection.new plainContext overlappingPair.1).2 = Some [Selection.new 1 1 1 1]
  /\ CursorCollection.readSelectionFromMarkers
       (CursorCollection.new plainContext overlappingPair.1)
     = Some [Selection.new 1 1 1 1]
  /\ CursorCollection.getLastAddedCursorIndex
       (CursorCollection.new plainContext overlappingPair.1).2 = 0.
Proof.
  apply (new_collection plainContext overlappingPair.1); reflexivity.
Defined.

(** X19: [killSecondaryCursors] leaves the primary cursor alone in the collection,
    in the state it had. *)
Theorem killSecondaryCursors_keeps_primary (st : Store * CursorCollection) :
  wf st ->
  exists st',
    CursorCollection.killSecondaryCursors st = Some st'
    /\ length (cursors st'.2) = 1%nat
    /\ cursors st'.2 = take 1 (cursors st.2)
    /\ CursorCollection.getPrimaryCursor st'.1 st'.2
       = CursorCollection.getPrimaryCursor st.1 st.2
    /\ CursorCollection.getLastAddedCursorIndex st'.2 = 0.
Proof.
  intros Hwf. unfold CursorCollection.killSecondaryCursors.
  destruct (setSecondaryStates_spec st [] Hwf) as (st' & Hkill & _ & _ & Hlen).
  exists st'. split; [done|]. split; [done|].
  destruct (setSecondaryStates_inv _ _ _ Hwf Hkill)
    as (st1 & Hwf1 & (_ & Hprimary & _) & (_ & _ & Hkeep) & _ & Hassign & Hthis').
  injection Hassign as Hs'. rewrite Hthis' in *. rewrite <- Hs'.
  destruct (cursors st.2) as [|c0 cs] eqn:Hcs; [by destruct Hwf|].
  destruct (cursors st1.2) as [|c0' [|? ?]] eqn:Hcs1; try done.
  cbn in Hprimary. injection Hprimary as ->.
  split; [done|]. split.
  - unfold CursorCollection.getPrimaryCursor. rewrite Hcs, Hcs1.
    change (Array.get [c0] 0) with (Some c0).
    change (Array.get (c0 :: cs) 0) with (Some c0). cbn [mbind option_bind].
    apply statesAt_asCursorState, Hkeep.
    destruct Hwf as (_ & _ & Hheap). rewrite Hcs in Hheap.
    by apply Forall_cons in Hheap as [? _].
  - unfold CursorCollection.getLastAddedCursorIndex. by rewrite Hcs1.
Qed.

Lemma killSecondaryCursors_keeps_primary_witness :
  exists st',
    CursorCollection.killSecondaryCursors overlappingPair = Some st'
    /\ length (cursors st'.2) = 1%nat
    /\ cursors st'.2 = take 1 (cursors overlappingPair.2)
    /\ CursorCollection.getPrimaryCursor st'.1 st'.2
       = CursorCollection.getPrimaryCursor overlappingPair.1 overlappingPair.2
    /\ CursorCollection.getLastAddedCursorIndex st'.2 = 0.
Proof. exact (killSecondaryCursors_keeps_primary overlappingPair overlappingPair_wf). Defined.

(** ** What the loop of [normalize] keeps *)

Lemma normalize_start_NInv (s : Store) (this : CursorCollection) (l : list SortedCursor) :
  wf (s, this) ->
  CursorCollection.snapshot s 0 (cursors this) = Some l ->
  let sorted :=
    Array.sort (compareBy (λ s, Selection.toRange (selection s))
                  Range.compareRangesUsingStarts) l in
  NInv (s, this) (mkNormalizeState s this (cursors this) sorted 0)
  /\ length sorted = length (cursors this).
Proof.
  intros Hwf Hsnap sorted.
  destruct (snapshot_spec s (cursors this) 0) as (l' & Hl' & Hl); [apply Hwf|].
  rewrite Hsnap in Hl'. injection Hl' as <-.
  assert (Hperm : index <$> sorted ≡ₚ seqZ 0 (Z.of_nat (length (cursors this)))).
  { rewrite <- Hl. apply fmap_Permutation. apply sort_perm. }
  split.
  - unfold NInv. cbn [n_cursors n_this n_store n_sortedCursors n_sortedCursorIndex].
    split; [done|]. split; [done|]. split; [apply keepsPrimary_refl, Hwf|].
    split; [|split; [|done]].
    + rewrite Hperm. apply Forall_forall. intros i Hi.
      apply elem_of_seqZ in Hi. lia.
    + rewrite Hperm. apply NoDup_seqZ.
  - rewrite <- (length_fmap index), Hperm, length_seqZ. lia.
Qed.

(** A property of the variables of the loop that every round keeps is kept
    by the loop. *)
Lemma normalize_loop_keeps (st0 : Store * CursorCollection) (P : NormalizeState -> Prop) :
  (forall n n',
     NInv st0 n -> P n ->
     n_sortedCursorIndex n < Z.of_nat (length (n_sortedCursors n)) - 1 ->
     CursorCollection.normalize_step n = Some n' -> P n') ->
  forall fuel n n',
    NInv st0 n -> P n ->
    CursorCollection.normalize_loop fuel n = Some n' -> P n'.
Proof.
  intros Hstep fuel. induction fuel as [|fuel IH]; intros n n' HInv HP Hloop.
  - cbn in Hloop. destruct (_ <? _); [done|]. by injection Hloop as <-.
  - destruct (Z.lt_decidable (n_sortedCursorIndex n)
               (Z.of_nat (length (n_sortedCursors n)) - 1)) as [Hlt|Hge].
    + rewrite normalize_loop_S in Hloop by done.
      destruct (normalize_step_spec st0 n HInv Hlt)
        as (current & next & n1 & _ & _ & Hn1 & HInv1 & _).
      rewrite Hn1 in Hloop. cbn [mbind option_bind] in Hloop.
      eapply IH; [exact HInv1| |exact Hloop]. exact (Hstep n n1 HInv HP Hlt Hn1).
    + rewrite normalize_loop_done in Hloop by done. by injection Hloop as <-.
Qed.

(** X20: [normalize] only ever removes cursors: the collection it leaves has at
    most as many cursors as before. *)
Theorem normalize_never_adds (st st' : Store * CursorCollection) :
  wf st ->
  CursorCollection.normalize st = Some st' ->
  (length (cursors st'.2) <= length (cursors st.2))%nat.
Proof.
  intros Hwf. destruct st as [s this]. unfold CursorCollection.normalize.
  destruct (Z.eqb_spec (Z.of_nat (length (cursors this))) 1); [by intros [= <-]|].
  destruct (CursorCollection.snapshot s 0 (cursors this)) as [l|] eqn:Hsnap; [|done].
  cbn [mbind option_bind].
  destruct (normalize_start_NInv s this l Hwf Hsnap) as [HInv _].
  destruct (CursorCollection.normalize_loop _ _) as [n'|] eqn:Hloop; [|done].
  cbn [mbind option_bind]. intros [= <-]. cbn [fst snd].
  refine (normalize_loop_keeps (s, this)
            (λ n, (length (cursors (n_this n)) <= length (cursors this))%nat)
            _ _ _ _ HInv _ Hloop); [|cbn; lia].
  intros m m1 HInv1 HP Hlt Hstep.
  destruct (normalize_step_spec (s, this) m HInv1 Hlt)
    as (current & next & n1' & _ & _ & Hn1 & _ & Hcase).
  rewrite Hstep in Hn1. injection Hn1 as <-.
  destruct (_ && _).
  - destruct Hcase as (_ & Hlen & _). lia.
  - destruct Hcase as (_ & Heq & _). injection Heq as _ ->. done.
Qed.

Lemma normalize_never_adds_witness :
  exists st',
    CursorCollection.normalize overlappingPair = Some st'
    /\ (length (cursors st'.2) <= length (cursors overlappingPair.2))%nat.
Proof.
  eexists. split; [vm_compute; reflexivity|].
  apply (normalize_never_adds overlappingPair);
    [exact overlappingPair_wf|vm_compute; reflexivity].
Defined.

Lemma normalize_loop_nothing_to_merge (s : Store) (this : CursorCollection)
    (sorted : list SortedCursor) (fuel : nat) (n' : NormalizeState) :
  NInv (s, this) (mkNormalizeState s this (cursors this) sorted 0) ->
  multiCursorMergeOverlapping (cursorConfig (context this)) = false
  \/ neighboursApart sorted ->
  CursorCollection.normalize_loop fuel (mkNormalizeState s this (cursors this) sorted 0)
  = Some n' ->
  n_store n' = s /\ n_this n' = this.
Proof.
  intros HInv Hcase Hloop.
  assert (HP : n_store n' = s /\ n_this n' = this /\ n_sortedCursors n' = sorted).
  { refine (normalize_loop_keeps (s, this)
              (λ n, n_store n = s /\ n_this n = this /\ n_sortedCursors n = sorted)
              _ _ _ _ HInv _ Hloop); [|done].
    intros m m1 HInv1 (Hs & Hthis & Hsorted) Hlt Hstep.
    destruct (normalize_step_spec (s, this) m HInv1 Hlt)
      as (current & next & n1' & Hcur & Hnext & Hn1 & _ & Hres).
    rewrite Hstep in Hn1. injection Hn1 as <-.
    assert (Hoff : multiCursorMergeOverlapping (cursorConfig (context (n_this m)))
                   && CursorCollection.shouldMergeCursors (selection current)
                        (selection next) = false).
    { rewrite Hthis. destruct Hcase as [->|Hapart]; [done|].
      rewrite (Hapart (Z.to_nat (n_sortedCursorIndex m)) current next).
      - apply andb_false_r.
      - by rewrite <- Hsorted.
      - rewrite <- Hsorted. destruct HInv1 as (_ & _ & _ & _ & _ & Hidx & _).
        by replace (S (Z.to_nat (n_sortedCursorIndex m)))
             with (Z.to_nat (n_sortedCursorIndex m + 1)) by lia. }
    rewrite Hoff in Hres. destruct Hres as (Hsame & Heq & _).
    injection Heq as -> ->. by rewrite Hsame. }
  by destruct HP as (-> & -> & _).
Qed.

(** X21: [normalize] changes nothing when merging is switched off in the
    configuration, or when no two neighbours of the sorted snapshot touch in
    the way the loop merges. *)
Theorem normalize_nothing_to_merge (st : Store * CursorCollection)
    (l : list SortedCursor) :
  wf st ->
  CursorCollection.snapshot st.1 0 (cursors st.2) = Some l ->
  multiCursorMergeOverlapping (cursorConfig (context st.2)) = false
  \/ neighboursApart
       (Array.sort (compareBy (λ s, Selection.toRange (selection s))
                      Range.compareRangesUsingStarts) l) ->
  CursorCollection.normalize st = Some st.
Proof.
  intros Hwf Hsnap Hcase. destruct st as [s this]. cbn [fst snd] in *.
  destruct (normalize_spec (s, this) Hwf) as (st' & Hnorm & _).
  rewrite Hnorm. f_equal. revert Hnorm. unfold CursorCollection.normalize.
  destruct (Z.eqb_spec (Z.of_nat (length (cursors this))) 1); [by intros [= <-]|].
  rewrite Hsnap. cbn [mbind option_bind].
  destruct (normalize_start_NInv s this l Hwf Hsnap) as [HInv _].
  destruct (CursorCollection.normalize_loop _ _) as [n'|] eqn:Hloop; [|done].
  cbn [mbind option_bind]. intros [= <-].
  by destruct (normalize_loop_nothing_to_merge _ _ _ _ _ HInv Hcase Hloop) as [-> ->].
Qed.

Lemma normalize_nothing_to_merge_witness :
  CursorCollection.normalize
    (mkStore [cursorAt (Selection.new 1 1 1 5) 0; cursorAt (Selection.new 1 5 1 8) 1]
       (mkTrackedRanges {[ 0%nat := rawRange 1 1 1 5; 1%nat := rawRange 1 5 1 8 ]} 2) [],
     mkCursorCollection plainContext [0%nat; 1%nat] 1)
  = Some
      (mkStore [cursorAt (Selection.new 1 1 1 5) 0; cursorAt (Selection.new 1 5 1 8) 1]
         (mkTrackedRanges {[ 0%nat := rawRange 1 1 1 5; 1%nat := rawRange 1 5 1 8 ]} 2) [],
       mkCursorCollection plainContext [0%nat; 1%nat] 1).
Proof.
  eapply normalize_nothing_to_merge; [| reflexivity |].
  - unfold wf. cbn [fst snd cursors heap length].
    split; [done|]. split; [|repeat constructor; lia].
    apply NoDup_cons. split; [by intros ?%list_elem_of_singleton|apply NoDup_singleton].
  - right. intros [|[|i]] current next; try done. by intros [= <-] [= <-].
Defined.

(** ** The index of the last added cursor *)

Lemma addSecondaryCursor_lastAdded (st : Store * CursorCollection) :
  lastAddedInRange (CursorCollection._addSecondaryCursor st).2.
Proof.
  destruct st as [s this]. unfold CursorCollection._addSecondaryCursor.
  destruct (Cursor.new (context this) s) as [s' c]. unfold lastAddedInRange.
  cbn [snd cursors lastAddedCursorIndex]. rewrite length_app. cbn [length]. lia.
Qed.

Lemma removeSecondaryCursor_lastAdded (st st' : Store * CursorCollection)
    (removeIndex : Z) :
  lastAddedInRange st.2 ->
  0 <= removeIndex ->
  CursorCollection._removeSecondaryCursor st removeIndex = Some st' ->
  lastAddedInRange st'.2.
Proof.
  destruct st as [s this]. unfold lastAddedInRange, CursorCollection._removeSecondaryCursor.
  cbn [snd]. intros Hlast Hidx.
  destruct (Array.get (cursors this) (removeIndex + 1)) as [c|] eqn:Hc; [|done].
  apply Array_get_inv in Hc as [Hrange Hc]. cbn [mbind option_bind].
  destruct (Cursor.dispose _ _ _) as [s1|]; [|done]. cbn [mbind option_bind].
  intros [= <-]. cbn [snd cursors lastAddedCursorIndex].
  rewrite Array_splice1_in_range by done. rewrite length_delete by (by eexists).
  rewrite Z.geb_leb.
  destruct (Z.leb_spec (removeIndex + 1) (lastAddedCursorIndex this)); lia.
Qed.

Lemma repeat_addSecondaryCursor_lastAdded (n : nat) (st st' : Store * CursorCollection) :
  lastAddedInRange st.2 ->
  repeatM n (λ st, Some (CursorCollection._addSecondaryCursor st)) st = Some st' ->
  lastAddedInRange st'.2.
Proof.
  revert st. induction n as [|n IH]; intros st Hlast; cbn [repeatM mbind option_bind].
  - by intros [= <-].
  - apply IH, addSecondaryCursor_lastAdded.
Qed.

Lemma repeat_removeSecondaryCursor_lastAdded (n : nat) (st st' : Store * CursorCollection) :
  wf st ->
  (n < length (cursors st.2))%nat ->
  lastAddedInRange st.2 ->
  repeatM n
    (λ st, CursorCollection._removeSecondaryCursor st
             (Z.of_nat (length (cursors st.2)) - 2)) st = Some st' ->
  lastAddedInRange st'.2.
Proof.
  revert st. induction n as [|n IH]; intros st Hwf Hn Hlast; cbn [repeatM].
  - by intros [= <-].
  - destruct (removeSecondaryCursor_spec st (Z.of_nat (length (cursors st.2)) - 2))
      as (st1 & Hst1 & Hwf1 & _ & Hc1 & _); [done|lia|lia|].
    rewrite Hst1. cbn [mbind option_bind].
    assert (Hlen1 : length (cursors st1.2) = (length (cursors st.2) - 1)%nat).
    { rewrite Hc1. apply delete_length_lt. lia. }
    apply IH; [done|lia|].
    eapply removeSecondaryCursor_lastAdded; [exact Hlast| |exact Hst1]. lia.
Qed.

Lemma setSecondaryStates_lastAdded (st st' : Store * CursorCollection)
    (secondaryStates : list PartialCursorState) :
  wf st ->
  lastAddedInRange st.2 ->
  CursorCollection._setSecondaryStates st secondaryStates = Some st' ->
  lastAddedInRange st'.2.
Proof.
  intros Hwf Hlast. unfold CursorCollection._setSecondaryStates.
  assert (Hne : (1 <= length (cursors st.2))%nat).
  { destruct Hwf as (Hne & _). destruct (cursors st.2); [done|simpl; lia]. }
  set (loops := if _ <? _ then _ else _).
  destruct loops as [st1|] eqn:Hloops; [|done]. cbn [mbind option_bind].
  destruct (CursorCollection._setSecondaryStates_assign _ _ _ _) as [s'|]; [|done].
  cbn [mbind option_bind]. intros [= <-]. cbn [snd]. subst loops.
  destruct (_ <? _).
  - by eapply repeat_addSecondaryCursor_lastAdded.
  - destruct (Z.gtb_spec (Z.of_nat (length (cursors st.2)) - 1)
                (Z.of_nat (length secondaryStates))).
    + eapply repeat_removeSecondaryCursor_lastAdded; [exact Hwf| |exact Hlast|exact Hloops].
      lia.
    + by injection Hloops as <-.
Qed.

(** X22: [setStates] keeps [lastAddedCursorIndex] an index of the array of
    cursors, whether it adds cursors, removes some or neither. *)
Theorem setStates_lastAddedCursorIndex (st st' : Store * CursorCollection)
    (states : option (list PartialCursorState)) :
  wf st ->
  lastAddedInRange st.2 ->
  CursorCollection.setStates st states = Some st' ->
  lastAddedInRange st'.2
  /\ 0 <= CursorCollection.getLastAddedCursorIndex st'.2
       < Z.of_nat (length (cursors st'.2)).
Proof.
  intros Hwf Hlast Hset.
  assert (Hlast' : lastAddedInRange st'.2).
  { destruct states as [states|]; [|by injection Hset as <-].
    destruct st as [s this]. unfold CursorCollection.setStates in Hset.
    cbn [fst snd] in *.
    destruct (Array.get (cursors this) 0) as [c0|]; [|done].
    cbn [mbind option_bind] in Hset.
    destruct (Array.get states 0) as [state0|]; [|done].
    cbn [mbind option_bind] in Hset.
    destruct (Cursor.setState _ _ _ _ _) as [s1|] eqn:Hs1; [|done].
    cbn [mbind option_bind] in Hset.
    unfold Cursor.setState, Cursor._setState in Hs1.
    apply on_cursor_inv in Hs1 as (_ & Hlen1 & _).
    apply (setSecondaryStates_lastAdded (s1, this) st' (drop 1 states));
      [by eapply wf_store_change|exact Hlast|exact Hset]. }
  split; [done|]. unfold CursorCollection.getLastAddedCursorIndex.
  unfold lastAddedInRange in Hlast'. destruct (_ || _); lia.
Qed.

Lemma setStates_lastAddedCursorIndex_witness :
  exists st',
    CursorCollection.setStates overlappingPair
      (Some (CursorState.fromModelSelections [Selection.new 3 1 3 4])) = Some st'
    /\ lastAddedInRange st'.2
    /\ 0 <= CursorCollection.getLastAddedCursorIndex st'.2
         < Z.of_nat (length (cursors st'.2)).
Proof.
  eexists. split; [vm_compute; reflexivity|].
  apply (setStates_lastAddedCursorIndex overlappingPair _
           (Some (CursorState.fromModelSelections [Selection.new 3 1 3 4])));
    [exact overlappingPair_wf|unfold lastAddedInRange; cbn; lia|vm_compute; reflexivity].
Defined.

Lemma merge_selections_lastAdded (n n1 : NormalizeState) (looserIndex winnerIndex winnerSortedCursorIndex : Z)
    (looserSelection winnerSelection : Selection) :
  n_cursors n = cursors (n_this n) ->
  0 <= winnerIndex < Z.of_nat (length (n_cursors n)) ->
  lastAddedInRange (n_this n) ->
  CursorCollection.merge_selections n looserIndex winnerIndex winnerSortedCursorIndex
    looserSelection winnerSelection = Some n1 ->
  lastAddedInRange (n_this n1).
Proof.
  intros Hcopy Hw Hlast. unfold CursorCollection.merge_selections.
  destruct (looserIndex =? lastAddedCursorIndex (n_this n));
    destruct (Array.get (n_cursors n) winnerIndex) as [c|]; try done;
    cbn [mbind option_bind];
    destruct (Cursor.setState _ _ _ _ _) as [s'|]; try done;
    cbn [mbind option_bind]; intros [= <-]; unfold lastAddedInRange in *;
    cbn [n_this cursors lastAddedCursorIndex]; [|done].
  by rewrite <- Hcopy.
Qed.

Lemma normalize_merge_lastAdded (st0 : Store * CursorCollection)
    (n n' : NormalizeState) (winnerSortedCursorIndex looserSortedCursorIndex : Z)
    (winner looser : SortedCursor) :
  NInv st0 n ->
  n_sortedCursors n !! Z.to_nat winnerSortedCursorIndex = Some winner ->
  n_sortedCursors n !! Z.to_nat looserSortedCursorIndex = Some looser ->
  0 <= winnerSortedCursorIndex ->
  0 <= looserSortedCursorIndex ->
  index winner < index looser ->
  lastAddedInRange (n_this n) ->
  CursorCollection.normalize_merge n winnerSortedCursorIndex looserSortedCursorIndex
  = Some n' ->
  lastAddedInRange (n_this n').
Proof.
  intros HInv Hw Hl Hw0 Hl0 Hlt Hlast. unfold CursorCollection.normalize_merge.
  pose proof HInv as (Hcopy & _ & _ & Hrange & _).
  unfold Array.get at 1 2.
  replace (looserSortedCursorIndex <? 0) with false by lia.
  replace (winnerSortedCursorIndex <? 0) with false by lia.
  rewrite Hw, Hl. cbn [mbind option_bind].
  assert (Hwrange : 0 <= index winner < Z.of_nat (length (n_cursors n))).
  { rewrite Forall_forall in Hrange. apply Hrange.
    apply list_elem_of_fmap. exists winner. split; [done|].
    by eapply list_elem_of_lookup_2. }
  set (merged := if negb _ then _ else _).
  destruct merged as [n1|] eqn:Hmerged; [|done]. cbn [mbind option_bind].
  assert (Hlast1 : lastAddedInRange (n_this n1)).
  { subst merged. destruct (negb _).
    - by eapply merge_selections_lastAdded.
    - by injection Hmerged as <-. }
  destruct (CursorCollection._removeSecondaryCursor _ _) as [[s' this']|] eqn:Hrem;
    [|done].
  cbn [mbind option_bind]. intros [= <-]. cbn [n_this].
  apply (removeSecondaryCursor_lastAdded (n_store n1, n_this n1) (s', this')
           (index looser - 1) Hlast1); [lia|exact Hrem].
Qed.

Lemma normalize_step_lastAdded (st0 : Store * CursorCollection) (n n' : NormalizeState) :
  NInv st0 n ->
  lastAddedInRange (n_this n) ->
  n_sortedCursorIndex n < Z.of_nat (length (n_sortedCursors n)) - 1 ->
  CursorCollection.normalize_step n = Some n' ->
  lastAddedInRange (n_this n').
Proof.
  intros HInv Hlast Hguard. pose proof HInv as (_ & _ & _ & _ & Hnd & Hidx & _).
  unfold CursorCollection.normalize_step.
  destruct (Array_get_Some (n_sortedCursors n) (n_sortedCursorIndex n))
    as (current & -> & Hcur); [lia|].
  destruct (Array_get_Some (n_sortedCursors n) (n_sortedCursorIndex n + 1))
    as (next & -> & Hnext); [lia|].
  cbn [mbind option_bind].
  destruct (negb _); [by intros [= <-]|].
  destruct (CursorCollection.shouldMergeCursors _ _); [|by intros [= <-]].
  assert (Hne : index current <> index next).
  { intros Heq. rewrite NoDup_alt in Hnd.
    assert (Z.to_nat (n_sortedCursorIndex n) = Z.to_nat (n_sortedCursorIndex n + 1)); [|lia].
    apply (Hnd _ _ (index current)); rewrite list_lookup_fmap.
    - by rewrite Hcur.
    - by rewrite Hnext, Heq. }
  destruct (Z.ltb_spec (index current) (index next)) as [Hcn|Hcn]; intros Hmerge.
  - eapply (normalize_merge_lastAdded st0 n n' _ _ current next); try done; lia.
  - eapply (normalize_merge_lastAdded st0 n n' _ _ next current); try done; lia.
Qed.

(** X23: [normalize] keeps [lastAddedCursorIndex] an index of the array of
    cursors, through every merge. *)
Theorem normalize_lastAddedCursorIndex (st st' : Store * CursorCollection) :
  wf st ->
  lastAddedInRange st.2 ->
  CursorCollection.normalize st = Some st' ->
  lastAddedInRange st'.2
  /\ 0 <= CursorCollection.getLastAddedCursorIndex st'.2
       < Z.of_nat (length (cursors st'.2)).
Proof.
  intros Hwf Hlast Hnorm.
  assert (Hlast' : lastAddedInRange st'.2).
  { destruct st as [s this]. unfold CursorCollection.normalize in Hnorm.
    destruct (Z.eqb_spec (Z.of_nat (length (cursors this))) 1);
      [by injection Hnorm as <-|].
    destruct (CursorCollection.snapshot s 0 (cursors this)) as [l|] eqn:Hsnap; [|done].
    cbn [mbind option_bind] in Hnorm.
    destruct (normalize_start_NInv s this l Hwf Hsnap) as [HInv _].
    destruct (CursorCollection.normalize_loop _ _) as [n'|] eqn:Hloop; [|done].
    cbn [mbind option_bind] in Hnorm. injection Hnorm as <-. cbn [snd].
    refine (normalize_loop_keeps (s, this) (λ m, lastAddedInRange (n_this m))
              _ _ _ _ HInv Hlast Hloop).
    intros m m1 HInv1 HP Hlt Hstep. by eapply normalize_step_lastAdded. }
  split; [done|]. unfold CursorCollection.getLastAddedCursorIndex.
  unfold lastAddedInRange in Hlast'. destruct (_ || _); lia.
Qed.

Lemma normalize_lastAddedCursorIndex_witness :
  exists st',
    CursorCollection.normalize overlappingPair = Some st'
    /\ lastAddedInRange st'.2
    /\ 0 <= CursorCollection.getLastAddedCursorIndex st'.2
         < Z.of_nat (length (cursors st'.2)).
Proof.
  eexists. split; [vm_compute; reflexivity|].
  apply (normalize_lastAddedCursorIndex overlappingPair);
    [exact overlappingPair_wf|unfold lastAddedInRange; cbn; lia|vm_compute; reflexivity].
Defined.

(** ** The loops over the cursors of a collection *)

Lemma mapM_pointwise {A B} (f g : A -> option B) (l : list A) :
  (forall x, x ∈ l -> f x = g x) -> mapM f l = mapM g l.
Proof.
  induction l as [|x l IH]; intros Hfg; [done|]. cbn.
  rewrite (Hfg x) by apply list_elem_of_here. rewrite IH; [done|].
  intros y Hy. apply Hfg. by apply list_elem_of_further.
Qed.

Lemma forEachCursor_states (f : TrackedRanges -> Cursor -> TrackedRanges * Cursor)
    (cs : list nat) (s : Store) :
  (forall t o, modelState (f t o).2 = modelState o /\ viewState (f t o).2 = viewState o) ->
  Forall (λ c, (c < length (heap s))%nat) cs ->
  exists s',
    CursorCollection.forEachCursor (Cursor.on_cursor f) s cs = Some s'
    /\ length (heap s') = length (heap s)
    /\ forall c, statesAt s' c = statesAt s c.
Proof.
  intros Hkeep. revert s. induction cs as [|c cs IH]; intros s Hheap.
  - by exists s.
  - apply Forall_cons in Hheap as [Hc Hheap]. cbn [CursorCollection.forEachCursor].
    destruct (on_cursor_Some f s c Hc) as [s1 Hs1]. rewrite Hs1.
    cbn [mbind option_bind].
    pose proof (on_cursor_inv _ _ _ _ Hs1) as (_ & Hlen1 & _).
    destruct (IH s1) as (s' & Hs' & Hlen' & Hstates'); [by rewrite Hlen1|].
    exists s'. split; [done|]. split; [congruence|].
    intros c'. rewrite Hstates'. by eapply on_cursor_statesAt_keep.
Qed.

Lemma removeTrackedRange_releasing : releasing Cursor._removeTrackedRange.
Proof.
  intros t o. unfold Cursor._removeTrackedRange, _setTrackedRange.
  destruct (_selTrackedRange o) as [i|]; cbn [mbind option_bind].
  - destruct (tr_table t !! i) eqn:Hi; cbn.
    + split; [done|]. split.
      * intros id [= <-]. apply lookup_delete_eq.
      * intros id Hid. apply lookup_delete_None. by right.
    + split; [done|]. split; [by intros id [= <-]|done].
  - cbn. by repeat split.
Qed.

Lemma forEachCursor_releases (f : TrackedRanges -> Cursor -> TrackedRanges * Cursor)
    (cs : list nat) (s s' : Store) :
  releasing f ->
  NoDup cs ->
  CursorCollection.forEachCursor (Cursor.on_cursor f) s cs = Some s' ->
  (forall c, c ∉ cs -> heap s' !! c = heap s !! c)
  /\ (forall id, tr_table (tracked s) !! id = None -> tr_table (tracked s') !! id = None)
  /\ forall c o, c ∈ cs -> heap s !! c = Some o ->
       (forall id, _selTrackedRange o = Some id -> tr_table (tracked s') !! id = None)
       /\ _selTrackedRange <$> heap s' !! c = Some None.
Proof.
  intros Hf. revert s. induction cs as [|c cs IH]; intros s Hnd Hloop.
  - injection Hloop as <-. split; [done|]. split; [done|].
    by intros c o ?%elem_of_nil.
  - apply NoDup_cons in Hnd as [Hc Hnd]. cbn [CursorCollection.forEachCursor] in Hloop.
    destruct (Cursor.on_cursor f s c) as [s1|] eqn:Hs1; [|done].
    cbn [mbind option_bind] in Hloop.
    destruct (IH s1 Hnd Hloop) as (Hframe & Hshrink & Hrel).
    unfold Cursor.on_cursor in Hs1. destruct (heap s !! c) as [o|] eqn:Ho; [|done].
    cbn [mbind option_bind] in Hs1. destruct (Hf (tracked s) o) as (Hnone & Hgone & Hless).
    destruct (f (tracked s) o) as [t1 o1]. injection Hs1 as <-.
    cbn [fst snd heap tracked] in *.
    assert (Hlt : (c < length (heap s))%nat) by by eapply lookup_lt_Some.
    split; [|split].
    + intros c' Hc'. rewrite not_elem_of_cons in Hc'. destruct Hc' as [Hne Hc'].
      rewrite Hframe by done. by rewrite list_lookup_insert_ne.
    + intros id Hid. by apply Hshrink, Hless.
    + intros c' o' Hc' Ho'. apply elem_of_cons in Hc' as [->|Hc'].
      * rewrite Ho in Ho'. injection Ho' as <-. split.
        -- intros id Hid. by apply Hshrink, Hgone.
        -- rewrite Hframe by done. rewrite list_lookup_insert_eq by done.
           cbn. by rewrite Hnone.
      * apply (Hrel c' o' Hc').
        rewrite list_lookup_insert_ne; [done|]. by intros ->.
Qed.

Lemma forEachCursor_released (f : TrackedRanges -> Cursor -> TrackedRanges * Cursor)
    (st : Store * CursorCollection) :
  (forall t o, modelState (f t o).2 = modelState o /\ viewState (f t o).2 = viewState o) ->
  releasing f ->
  wf st ->
  exists s1,
    CursorCollection.forEachCursor (Cursor.on_cursor f) st.1 (cursors st.2) = Some s1
    /\ released st s1.
Proof.
  intros Hkeep Hf (_ & Hnd & Hheap).
  destruct (forEachCursor_states f (cursors st.2) st.1 Hkeep Hheap)
    as (s1 & Hs1 & _ & Hstates).
  exists s1. split; [done|].
  destruct (forEachCursor_releases f _ _ _ Hf Hnd Hs1) as (_ & _ & Hrel).
  split.
  - unfold CursorCollection.getAll. apply mapM_pointwise. intros c _.
    apply statesAt_asCursorState, Hstates.
  - intros c o Hc Ho. destruct (Hrel c o Hc Ho) as [Hgone Hnone]. split; [done|].
    unfold Cursor.readSelectionFromMarkers.
    destruct (heap s1 !! c) as [o1|]; [|done]. cbn in Hnone. injection Hnone as Hnone.
    cbn [mbind option_bind]. by rewrite Hnone.
Qed.

(** X24: [dispose] and [stopTrackingSelections] release the tracked range of every
    cursor of the collection and change no cursor state;
    [startTrackingSelections] changes no cursor state either. *)
Theorem collection_tracking (st : Store * CursorCollection) :
  wf st ->
  exists s1 s2 s3,
    CursorCollection.dispose st = Some s1 /\ released st s1
    /\ CursorCollection.stopTrackingSelections st = Some s2 /\ released st s2
    /\ CursorCollection.startTrackingSelections st = Some s3
    /\ CursorCollection.getAll s3 st.2 = CursorCollection.getAll st.1 st.2.
Proof.
  intros Hwf.
  destruct (forEachCursor_released Cursor._removeTrackedRange st) as (s1 & Hs1 & Hr1);
    [apply removeTrackedRange_states|apply removeTrackedRange_releasing|done|].
  destruct (forEachCursor_released
              (λ t c, Cursor._removeTrackedRange t
                        (mkCursor (modelState c) (viewState c) (_selTrackedRange c) false))
              st) as (s2 & Hs2 & Hr2); [| |done|].
  { intros t o. apply (removeTrackedRange_states t (mkCursor _ _ _ _)). }
  { intros t o. apply (removeTrackedRange_releasing t (mkCursor _ _ _ _)). }
  destruct (forEachCursor_states
              (λ t c, Cursor._updateTrackedRange t
                        (mkCursor (modelState c) (viewState c) (_selTrackedRange c) true))
              (cursors st.2) st.1) as (s3 & Hs3 & _ & Hstates3); [|apply Hwf|].
  { intros t o. unfold Cursor._updateTrackedRange. cbn [_trackSelection negb].
    by destruct (_setTrackedRange _ _ _ _). }
  exists s1, s2, s3. do 5 (split; [done|]).
  unfold CursorCollection.getAll. apply mapM_pointwise. intros c _.
  apply statesAt_asCursorState, Hstates3.
Qed.

Lemma collection_tracking_witness :
  exists s1 s2 s3,
    CursorCollection.dispose overlappingPair = Some s1 /\ released overlappingPair s1
    /\ CursorCollection.stopTrackingSelections overlappingPair = Some s2
    /\ released overlappingPair s2
    /\ CursorCollection.startTrackingSelections overlappingPair = Some s3
    /\ CursorCollection.getAll s3 overlappingPair.2
       = CursorCollection.getAll overlappingPair.1 overlappingPair.2.
Proof. exact (collection_tracking overlappingPair overlappingPair_wf). Defined.

(** ** The selections [normalize] merges *)

(** The smallest range that covers two ranges, in coordinates: it runs from
    the earlier of the two starts to the later of the two ends. *)
Lemma Range_plusRange_raw (a b : Range) :
  Range.ordered a -> Range.ordered b ->
  exists sl sc el ec,
    Range.plusRange a b = rawRange sl sc el ec
    /\ atOrBefore (mkPosition sl sc) (Range.getStartPosition a)
    /\ atOrBefore (mkPosition sl sc) (Range.getStartPosition b)
    /\ (mkPosition sl sc = Range.getStartPosition a
        \/ mkPosition sl sc = Range.getStartPosition b)
    /\ atOrBefore (Range.getEndPosition a) (mkPosition el ec)
    /\ atOrBefore (Range.getEndPosition b) (mkPosition el ec)
    /\ (mkPosition el ec = Range.getEndPosition a
        \/ mkPosition el ec = Range.getEndPosition b).
Proof.
  unfold Range.ordered. rewrite !isBeforeOrEqual_atOrBefore.
  destruct a as [a1 a2 a3 a4], b as [b1 b2 b3 b4].
  unfold Range.plusRange, Range.getStartPosition, Range.getEndPosition, atOrBefore.
  cbn [startLineNumber startColumn endLineNumber endColumn lineNumber column].
  intros Ha Hb.
  destruct (if b1 <? a1 then (b1, b2)
            else if b1 =? a1 then (b1, Z.min b2 a2) else (a1, a2)) as [sl sc] eqn:Hs.
  assert (Hstart : (sl < a1 \/ sl = a1 /\ sc <= a2) /\ (sl < b1 \/ sl = b1 /\ sc <= b2)
                   /\ ((sl = a1 /\ sc = a2) \/ (sl = b1 /\ sc = b2))).
  { destruct (Z.ltb_spec b1 a1); [injection Hs as <- <-; lia|].
    destruct (Z.eqb_spec b1 a1); injection Hs as <- <-; lia. }
  clear Hs.
  destruct (if b3 >? a3 then (b3, b4)
            else if b3 =? a3 then (b3, Z.max b4 a4) else (a3, a4)) as [el ec] eqn:He.
  assert (Hend : (a3 < el \/ a3 = el /\ a4 <= ec) /\ (b3 < el \/ b3 = el /\ b4 <= ec)
                 /\ ((el = a3 /\ ec = a4) \/ (el = b3 /\ ec = b4))).
  { destruct (Z.gtb_spec b3 a3); [injection He as <- <-; lia|].
    destruct (Z.eqb_spec b3 a3); injection He as <- <-; lia. }
  clear He.
  exists sl, sc, el, ec. split.
  - apply (Range_new_ordered (rawRange sl sc el ec)).
    unfold Range.ordered. rewrite isBeforeOrEqual_atOrBefore. unfold atOrBefore.
    cbn [Range.getStartPosition Range.getEndPosition startLineNumber startColumn
         endLineNumber endColumn lineNumber column]. lia.
  - destruct Hstart as (Hs1 & Hs2 & Hs3), Hend as (He1 & He2 & He3).
    split; [exact Hs1|]. split; [exact Hs2|]. split.
    { destruct Hs3 as [[-> ->]|[-> ->]]; [by left|by right]. }
    split; [exact He1|]. split; [exact He2|].
    destruct He3 as [[-> ->]|[-> ->]]; [by left|by right].
Qed.

Lemma Range_plusRange_raw_ordered (a b : Selection) :
  Range.ordered (Selection.plusRange a b).
Proof.
  unfold Selection.plusRange.
  destruct (Range_plusRange_raw (Selection.toRange a) (Selection.toRange b))
    as (sl & sc & el & ec & -> & H1 & H2 & H3 & H4 & H5 & H6);
    [apply Range_new_is_ordered|apply Range_new_is_ordered|].
  pose proof (Selection_start_before_end a) as Ha.
  unfold Selection.getStartPosition, Selection.getEndPosition in Ha.
  apply isBeforeOrEqual_atOrBefore in Ha.
  unfold Range.ordered. rewrite isBeforeOrEqual_atOrBefore.
  destruct (Selection.toRange a) as [a1 a2 a3 a4].
  unfold atOrBefore, Range.getStartPosition, Range.getEndPosition in *.
  cbn [startLineNumber startColumn endLineNumber endColumn lineNumber column] in *. lia.
Qed.

(** The selection [normalize] gives the winner of a merge covers exactly the
    smallest range that covers the two selections, in either direction. *)
Lemma merged_selection_toRange (ltr : bool) (r : Range) :
  Range.ordered r ->
  Selection.toRange
    (if ltr
     then Selection.new (startLineNumber r) (startColumn r) (endLineNumber r) (endColumn r)
     else Selection.new (endLineNumber r) (endColumn r) (startLineNumber r) (startColumn r))
  = r.
Proof.
  intros Hr. destruct ltr; unfold Selection.toRange, Selection.new;
    cbn [selectionStartLineNumber selectionStartColumn positionLineNumber positionColumn].
  - by apply Range_new_ordered.
  - rewrite Range_new_swap. by apply Range_new_ordered.
Qed.

Lemma Range_isEmpty_ends (r : Range) :
  Range.isEmpty r = true <-> Range.getStartPosition r = Range.getEndPosition r.
Proof.
  destruct r as [sl sc el ec]. unfold Range.isEmpty, Range.getStartPosition,
    Range.getEndPosition. cbn. rewrite andb_true_iff, !Z.eqb_eq.
  split; [by intros [-> ->]|by intros [= -> ->]].
Qed.

(** What the loop of [normalize] uses of the merged selection [merged] of the
    neighbours [current] and [next], sorted by start: it starts where
    [current] starts, and it is a caret only if [current] is one. *)
Lemma merged_selection_spec (current next merged : Selection) :
  Position.isBeforeOrEqual (Selection.getStartPosition current)
                           (Selection.getStartPosition next) = true ->
  Selection.toRange merged = Selection.plusRange current next
  \/ Selection.toRange merged = Selection.plusRange next current ->
  Selection.getStartPosition merged = Selection.getStartPosition current
  /\ (Selection.isEmpty merged = true -> Selection.isEmpty current = true).
Proof.
  intros Hsorted Hmerged. unfold Selection.getStartPosition, Selection.isEmpty in *.
  rewrite !Range_isEmpty_ends.
  apply isBeforeOrEqual_atOrBefore in Hsorted.
  pose proof (Selection_start_before_end current) as Hc.
  pose proof (Selection_start_before_end next) as Hn.
  unfold Selection.getStartPosition, Selection.getEndPosition in Hc, Hn.
  apply isBeforeOrEqual_atOrBefore in Hc, Hn.
  assert (Hraw : exists sl sc el ec,
            Selection.toRange merged = rawRange sl sc el ec
            /\ atOrBefore (mkPosition sl sc)
                 (Range.getStartPosition (Selection.toRange current))
            /\ (mkPosition sl sc = Range.getStartPosition (Selection.toRange current)
                \/ mkPosition sl sc = Range.getStartPosition (Selection.toRange next))
            /\ atOrBefore (Range.getEndPosition (Selection.toRange current))
                 (mkPosition el ec)).
  { destruct Hmerged as [->| ->]; unfold Selection.plusRange.
    - destruct (Range_plusRange_raw (Selection.toRange current) (Selection.toRange next))
        as (sl & sc & el & ec & -> & H1 & H2 & H3 & H4 & H5 & H6);
        [apply Range_new_is_ordered|apply Range_new_is_ordered|].
      exists sl, sc, el, ec. by repeat split.
    - destruct (Range_plusRange_raw (Selection.toRange next) (Selection.toRange current))
        as (sl & sc & el & ec & -> & H1 & H2 & H3 & H4 & H5 & H6);
        [apply Range_new_is_ordered|apply Range_new_is_ordered|].
      exists sl, sc, el, ec. split; [done|]. split; [done|]. split; [|done].
      destruct H3; [by right|by left]. }
  destruct Hraw as (sl & sc & el & ec & -> & Hs1 & Hs2 & He).
  destruct (Selection.toRange current) as [c1 c2 c3 c4],
           (Selection.toRange next) as [n1 n2 n3 n4].
  unfold Range.getStartPosition, Range.getEndPosition, atOrBefore in *.
  cbn [startLineNumber startColumn endLineNumber endColumn lineNumber column] in *.
  split.
  - destruct Hs2 as [Hs2|Hs2]; [done|]. injection Hs2 as -> ->. f_equal; lia.
  - intros [= -> ->]. f_equal; lia.
Qed.

(** The merge condition only looks at where the later selection starts and
    at whether it is a caret. *)
Lemma shouldMergeCursors_same_start (previous current merged : Selection) :
  CursorCollection.shouldMergeCursors previous current = false ->
  Selection.getStartPosition merged = Selection.getStartPosition current ->
  (Selection.isEmpty merged = true -> Selection.isEmpty current = true) ->
  CursorCollection.shouldMergeCursors previous merged = false.
Proof.
  unfold CursorCollection.shouldMergeCursors. intros Hapart -> Hempty.
  destruct (Selection.isEmpty merged); [rewrite Hempty in Hapart by done; done|].
  destruct (Selection.isEmpty current), (Selection.isEmpty previous);
    cbn [orb] in *; try done.
  all: destruct (Selection.getStartPosition current) as [l1 c1],
                (Selection.getEndPosition previous) as [l2 c2];
       unfold Position.isBeforeOrEqual, Position.isBefore in *;
       cbn [lineNumber column] in *;
       destruct (Z.ltb_spec l1 l2); [done|]; destruct (Z.ltb_spec l2 l1); [done|];
       destruct (Z.leb_spec c1 c2); [done|]; destruct (Z.ltb_spec c1 c2); [lia|done].
Qed.

(** ** The snapshot of [normalize] is sorted *)

Lemma sort_insert_sorted {A} (compareFn : A -> A -> Z) (x : A) (sorted : list A) :
  (forall x y, ~ compareFn x y < 0 -> compareFn y x <= 0) ->
  (forall x y z, compareFn x y <= 0 -> compareFn y z <= 0 -> compareFn x z <= 0) ->
  StronglySorted (λ a b, compareFn a b <= 0) sorted ->
  StronglySorted (λ a b, compareFn a b <= 0) (Array.sort_insert compareFn x sorted).
Proof.
  intros Htotal Htrans. induction sorted as [|y rest IH]; intros Hsorted; simpl.
  - repeat constructor.
  - apply StronglySorted_inv in Hsorted as [Hrest Hy].
    destruct (Z.ltb_spec (compareFn x y) 0) as [Hlt|Hge].
    + constructor; [by constructor|]. constructor; [lia|].
      eapply Forall_impl; [exact Hy|]. intros z Hz. simpl in *.
      apply (Htrans x y z); [lia|done].
    + constructor; [by apply IH|].
      rewrite sort_insert_perm. constructor; [|done]. apply Htotal. lia.
Qed.

Lemma sort_sorted {A} (compareFn : A -> A -> Z) (l : list A) :
  (forall x y, ~ compareFn x y < 0 -> compareFn y x <= 0) ->
  (forall x y z, compareFn x y <= 0 -> compareFn y z <= 0 -> compareFn x z <= 0) ->
  StronglySorted (λ a b, compareFn a b <= 0) (Array.sort compareFn l).
Proof.
  intros Htotal Htrans. unfold Array.sort.
  assert (H : forall sorted,
             StronglySorted (λ a b, compareFn a b <= 0) sorted ->
             StronglySorted (λ a b, compareFn a b <= 0)
               (foldl (λ sorted x, Array.sort_insert compareFn x sorted) sorted l)).
  { induction l as [|x l IH]; intros sorted Hsorted; simpl; [done|].
    apply IH. by apply sort_insert_sorted. }
  apply H. constructor.
Qed.

Lemma compareRangesUsingStarts_total (a b : Range) :
  ~ Range.compareRangesUsingStarts a b < 0 -> Range.compareRangesUsingStarts b a <= 0.
Proof.
  destruct a as [a1 a2 a3 a4], b as [b1 b2 b3 b4]. unfold Range.compareRangesUsingStarts.
  cbn [startLineNumber startColumn endLineNumber endColumn].
  destruct (Z.eqb_spec a1 b1), (Z.eqb_spec b1 a1); try lia.
  destruct (Z.eqb_spec a2 b2), (Z.eqb_spec b2 a2); try lia.
  destruct (Z.eqb_spec a3 b3), (Z.eqb_spec b3 a3); lia.
Qed.

Lemma compareRangesUsingStarts_trans (a b c : Range) :
  Range.compareRangesUsingStarts a b <= 0 -> Range.compareRangesUsingStarts b c <= 0 ->
  Range.compareRangesUsingStarts a c <= 0.
Proof.
  destruct a as [a1 a2 a3 a4], b as [b1 b2 b3 b4], c as [c1 c2 c3 c4].
  unfold Range.compareRangesUsingStarts.
  cbn [startLineNumber startColumn endLineNumber endColumn].
  destruct (Z.eqb_spec a1 b1), (Z.eqb_spec b1 c1), (Z.eqb_spec a1 c1); try lia.
  destruct (Z.eqb_spec a2 b2), (Z.eqb_spec b2 c2), (Z.eqb_spec a2 c2); try lia.
  destruct (Z.eqb_spec a3 b3), (Z.eqb_spec b3 c3), (Z.eqb_spec a3 c3); lia.
Qed.

Lemma compareRangesUsingStarts_starts (a b : Range) :
  Range.compareRangesUsingStarts a b <= 0 ->
  Position.isBeforeOrEqual (Range.getStartPosition a) (Range.getStartPosition b) = true.
Proof.
  destruct a as [a1 a2 a3 a4], b as [b1 b2 b3 b4].
  unfold Range.compareRangesUsingStarts, Position.isBeforeOrEqual, Range.getStartPosition.
  cbn [startLineNumber startColumn endLineNumber endColumn lineNumber column].
  destruct (Z.eqb_spec a1 b1), (Z.ltb_spec a1 b1), (Z.ltb_spec b1 a1); try lia; try done.
  destruct (Z.eqb_spec a2 b2), (Z.leb_spec a2 b2); try lia; done.
Qed.

Lemma StronglySorted_neighbours {A} (R : A -> A -> Prop) (l : list A) (i : nat) (a b : A) :
  StronglySorted R l -> l !! i = Some a -> l !! S i = Some b -> R a b.
Proof.
  intros Hsorted. revert i. induction Hsorted as [|x l Hl IH Hx]; intros i Ha Hb; [done|].
  destruct i as [|i].
  - injection Ha as <-. rewrite Forall_forall in Hx. apply Hx.
    by eapply list_elem_of_lookup_2.
  - by apply (IH i).
Qed.

(** The snapshot [normalize] works on is sorted by start. *)
Lemma normalize_sort_startSorted (l : list SortedCursor) :
  startSorted
    (Array.sort (compareBy (λ s, Selection.toRange (selection s))
                   Range.compareRangesUsingStarts) l).
Proof.
  intros i current next Hcur Hnext.
  apply compareRangesUsingStarts_starts.
  eapply (StronglySorted_neighbours
            (λ a b, compareBy (λ s, Selection.toRange (selection s))
                      Range.compareRangesUsingStarts a b <= 0));
    [|exact Hcur|exact Hnext].
  apply sort_sorted; unfold compareBy; intros.
  - by apply compareRangesUsingStarts_total.
  - by eapply compareRangesUsingStarts_trans.
Qed.

(** ** One merge of [normalize], in detail *)

Lemma delete_insert_next {A} (l : list A) (i : nat) (x : A) :
  (S i < length l)%nat ->
  delete (S i) (<[i := x]> l) = take i l ++ x :: drop (S (S i)) l.
Proof.
  revert l. induction i as [|i IH]; intros [|y [|z l]] Hlen; simpl in *; try lia.
  - done.
  - f_equal. apply (IH (z :: l)). simpl. lia.
Qed.

Lemma delete_insert_previous {A} (l : list A) (i : nat) (x : A) :
  (S i < length l)%nat ->
  delete i (<[S i := x]> l) = take i l ++ x :: drop (S (S i)) l.
Proof.
  revert l. induction i as [|i IH]; intros [|y [|z l]] Hlen; simpl in *; try lia.
  - done.
  - f_equal. apply (IH (z :: l)). simpl. lia.
Qed.

Lemma merged_lookup {A} (l : list A) (i k : nat) (x : A) :
  (S i < length l)%nat ->
  (take i l ++ x :: drop (S (S i)) l) !! k
  = if decide (k < i)%nat then l !! k
    else if decide (k = i) then Some x else l !! S k.
Proof.
  intros Hlen. destruct (decide (k < i)%nat) as [Hlt|Hge].
  - rewrite lookup_app_l by (rewrite length_take; lia). by rewrite lookup_take_lt.
  - rewrite lookup_app_r by (rewrite length_take; lia).
    rewrite length_take, Nat.min_l by lia.
    destruct (decide (k = i)) as [->|Hne]; [by rewrite Nat.sub_diag|].
    destruct (k - i)%nat as [|d] eqn:Hd; [lia|].
    change ((x :: drop (S (S i)) l) !! S d) with (drop (S (S i)) l !! d).
    rewrite lookup_drop. f_equal. lia.
Qed.

Lemma Selection_equalsSelection_eq (a b : Selection) :
  Selection.equalsSelection a b = true -> a = b.
Proof.
  destruct a, b. unfold Selection.equalsSelection. cbn.
  rewrite !andb_true_iff, !Z.eqb_eq. by intros [[[-> ->] ->] ->].
Qed.

Lemma merge_selections_inv (n n1 : NormalizeState)
    (looserIndex winnerIndex winnerSortedCursorIndex : Z)
    (looserSelection winnerSelection : Selection) :
  CursorCollection.merge_selections n looserIndex winnerIndex winnerSortedCursorIndex
    looserSelection winnerSelection = Some n1 ->
  exists (merged : Selection) c,
    Selection.toRange merged = Selection.plusRange looserSelection winnerSelection
    /\ Array.get (n_cursors n) winnerIndex = Some c
    /\ Cursor.setState (context (n_this n)) (n_store n) c
         (p_modelState (CursorState.fromModelSelection merged))
         (p_viewState (CursorState.fromModelSelection merged)) = Some (n_store n1)
    /\ cursors (n_this n1) = cursors (n_this n)
    /\ context (n_this n1) = context (n_this n)
    /\ n_cursors n1 = n_cursors n
    /\ n_sortedCursors n1
       = Array.set (n_sortedCursors n) winnerSortedCursorIndex
           (mkSortedCursor winnerIndex merged)
    /\ n_sortedCursorIndex n1 = n_sortedCursorIndex n.
Proof.
  unfold CursorCollection.merge_selections.
  set (resultingRange := Selection.plusRange looserSelection winnerSelection).
  assert (Hordered : Range.ordered resultingRange).
  { apply Range_plusRange_raw_ordered. }
  destruct (if looserIndex =? lastAddedCursorIndex (n_this n) then _ else _)
    as [resultingSelectionIsLTR lastAddedCursorIndex'].
  set (resultingSelection := if resultingSelectionIsLTR then _ else _).
  destruct (Array.get (n_cursors n) winnerIndex) as [c|] eqn:Hc; [|done].
  cbn [mbind option_bind].
  destruct (Cursor.setState _ _ _ _ _) as [s1|] eqn:Hs1; [|done].
  cbn [mbind option_bind]. intros [= <-].
  exists resultingSelection, c. split; [by apply merged_selection_toRange|].
  by repeat split.
Qed.

Lemma removeSecondaryCursor_inv (s s' : Store) (this this' : CursorCollection)
    (removeIndex : Z) :
  CursorCollection._removeSecondaryCursor (s, this) removeIndex = Some (s', this') ->
  0 <= removeIndex + 1 < Z.of_nat (length (cursors this))
  /\ cursors this' = delete (Z.to_nat (removeIndex + 1)) (cursors this)
  /\ context this' = context this
  /\ forall c, statesAt s' c = statesAt s c.
Proof.
  unfold CursorCollection._removeSecondaryCursor.
  destruct (Array.get (cursors this) (removeIndex + 1)) as [c|] eqn:Hc; [|done].
  apply Array_get_inv in Hc as [Hrange Hc]. cbn [mbind option_bind].
  unfold Cursor.dispose.
  destruct (Cursor.on_cursor Cursor._removeTrackedRange s c) as [s1|] eqn:Hs1; [|done].
  cbn [mbind option_bind]. intros [= <- <-]. cbn [cursors context].
  split; [done|]. split; [by apply Array_splice1_in_range|]. split; [done|].
  intros c'.
  change (statesAt (mkStore (heap s1) (tracked s1) (removed s1 ++ [(removeIndex + 1, c)])) c')
    with (statesAt s1 c').
  eapply on_cursor_statesAt_keep; [|exact Hs1]. intros. apply removeTrackedRange_states.
Qed.

(** A merge of [normalize], read back: the cursor of the winner is assigned
    the selection of the new entry [W] (unless the two selections are equal),
    every other cursor keeps its states, the looser's cursor leaves the
    array, the looser's entry leaves the snapshot and the larger indices are
    lowered. *)
Lemma normalize_merge_round (st0 : Store * CursorCollection) (n n' : NormalizeState)
    (w l : Z) (winner looser : SortedCursor) :
  NInv st0 n ->
  0 <= w -> 0 <= l ->
  n_sortedCursors n !! Z.to_nat w = Some winner ->
  n_sortedCursors n !! Z.to_nat l = Some looser ->
  CursorCollection.normalize_merge n w l = Some n' ->
  exists W cw,
    n_cursors n !! Z.to_nat (index winner) = Some cw
    /\ index W = index winner
    /\ (if Selection.equalsSelection (selection looser) (selection winner)
        then W = winner /\ statesAt (n_store n') cw = statesAt (n_store n) cw
        else Selection.toRange (selection W)
             = Selection.plusRange (selection looser) (selection winner)
             /\ assigned (context (n_this n)) (n_store n') cw
                  (CursorState.fromModelSelection (selection W)))
    /\ (forall c, c <> cw -> statesAt (n_store n') c = statesAt (n_store n) c)
    /\ cursors (n_this n') = delete (Z.to_nat (index looser)) (cursors (n_this n))
    /\ n_cursors n' = cursors (n_this n')
    /\ n_sortedCursors n'
       = delete (Z.to_nat l)
           ((λ sortedCursor,
               if index sortedCursor >? index looser
               then mkSortedCursor (index sortedCursor - 1) (selection sortedCursor)
               else sortedCursor) <$> <[Z.to_nat w := W]> (n_sortedCursors n))
    /\ n_sortedCursorIndex n' = n_sortedCursorIndex n - 1 + 1.
Proof.
  intros HInv Hw0 Hl0 Hw Hl.
  pose proof HInv as (Hcopy & Hwf & _ & Hidxrange & Hidxnd & _ & Hctx).
  assert (Hllen : (Z.to_nat l < length (n_sortedCursors n))%nat)
    by by eapply lookup_lt_Some.
  assert (Hwlen : (Z.to_nat w < length (n_sortedCursors n))%nat)
    by by eapply lookup_lt_Some.
  assert (Hlrange : 0 <= index looser < Z.of_nat (length (n_cursors n))).
  { rewrite Forall_forall in Hidxrange. apply Hidxrange.
    apply list_elem_of_fmap. exists looser. split; [done|].
    by eapply list_elem_of_lookup_2. }
  assert (Hwrange : 0 <= index winner < Z.of_nat (length (n_cursors n))).
  { rewrite Forall_forall in Hidxrange. apply Hidxrange.
    apply list_elem_of_fmap. exists winner. split; [done|].
    by eapply list_elem_of_lookup_2. }
  destruct (lookup_lt_is_Some_2 (n_cursors n) (Z.to_nat (index winner))) as [cw Hcw];
    [lia|].
  unfold CursorCollection.normalize_merge. unfold Array.get at 1 2.
  replace (l <? 0) with false by lia. replace (w <? 0) with false by lia.
  rewrite Hw, Hl. cbn [mbind option_bind].
  set (merged := if negb _ then _ else _).
  destruct merged as [n1|] eqn:Hmerged; [|done]. cbn [mbind option_bind].
  destruct (CursorCollection._removeSecondaryCursor _ _) as [[s' this']|] eqn:Hrem;
    [|done].
  cbn [mbind option_bind]. intros [= <-].
  cbn [n_sortedCursors n_cursors n_sortedCursorIndex n_store n_this].
  apply removeSecondaryCursor_inv in Hrem as (Hrrange & Hcursors' & Hctx' & Hkeep).
  replace (index looser - 1 + 1) with (index looser) in Hcursors', Hrrange by lia.
  subst merged.
  destruct (Selection.equalsSelection (selection looser) (selection winner)) eqn:Heq;
    cbn [negb] in Hmerged.
  - (* the two selections are the same: nothing is assigned *)
    injection Hmerged as <-. exists winner, cw.
    split; [done|]. split; [done|]. split; [split; [done|apply Hkeep]|].
    split; [intros c _; apply Hkeep|]. split; [done|].
    rewrite (list_insert_id _ _ _ Hw).
    rewrite !Array_splice1_in_range by (rewrite ?length_fmap; lia).
    split; [by rewrite Hcursors', Hcopy|]. by split.
  - (* the winner is given the merged selection *)
    apply merge_selections_inv in Hmerged
      as (M & cw' & HM & Hcw' & Hset & Hcs1 & Hctx1 & Hncs1 & Hsorted1 & Hidx1).
    apply Array_get_inv in Hcw' as [_ Hcw'].
    assert (cw' = cw) as -> by congruence.
    exists (mkSortedCursor (index winner) M), cw. cbn [index selection].
    split; [done|]. split; [done|]. split.
    { split; [done|]. eapply assigned_statesAt; [apply Hkeep|].
      eapply setState_assigned; [|exact Hset].
      apply computeStates_is_Some. by left. }
    split.
    { intros c Hc. rewrite Hkeep.
      unfold Cursor.setState, Cursor._setState in Hset.
      by apply (on_cursor_statesAt_ne _ _ _ _ _ Hset). }
    rewrite Hsorted1, Hncs1, Array_set_in_range by done.
    rewrite !Array_splice1_in_range by (rewrite ?length_fmap, ?length_insert; lia).
    split; [by rewrite Hcursors', Hcs1|].
    split; [by rewrite Hcursors', Hcs1, Hcopy|]. by split.
Qed.

Lemma Selection_anchor_ends (s : Selection) :
  (Selection.getSelectionStart s = Selection.getStartPosition s
   /\ Selection.getPosition s = Selection.getEndPosition s)
  \/ (Selection.getSelectionStart s = Selection.getEndPosition s
      /\ Selection.getPosition s = Selection.getStartPosition s).
Proof.
  destruct (Range_new_ends (Selection.getSelectionStart s) (Selection.getPosition s))
    as [[H1 H2]|[H1 H2]]; [left|right]; split; symmetry;
    first [exact H1|exact H2].
Qed.

(** The states [setState] gives a cursor for a selection whose ends the
    document accepts select that selection. *)
Lemma computeStates_accepted (context : CursorContext) (sel : Selection) :
  acceptsSelection context sel ->
  exists m v,
    Cursor._computeStates context
      (p_modelState (CursorState.fromModelSelection sel))
      (p_viewState (CursorState.fromModelSelection sel)) = Some (m, v)
    /\ SingleCursorState.selection m = sel.
Proof.
  intros [[Hs1 Hs2] [He1 He2]].
  apply computeStates_fromModelSelection.
  - destruct (Selection_anchor_ends sel) as [[_ ->]|[_ ->]]; done.
  - destruct (Selection_anchor_ends sel) as [[-> _]|[-> _]]; done.
Qed.

(** The smallest range that covers two selections ends where they end. *)
Lemma acceptsSelection_merged (context : CursorContext) (a b merged : Selection) :
  acceptsSelection context a ->
  acceptsSelection context b ->
  Selection.toRange merged = Selection.plusRange a b ->
  acceptsSelection context merged.
Proof.
  intros [Has Hae] [Hbs Hbe] Hmerged.
  unfold acceptsSelection, Selection.getStartPosition, Selection.getEndPosition in *.
  rewrite Hmerged. unfold Selection.plusRange.
  destruct (Range_plusRange_raw (Selection.toRange a) (Selection.toRange b))
    as (sl & sc & el & ec & -> & _ & _ & Hstart & _ & _ & Hend);
    [apply Range_new_is_ordered|apply Range_new_is_ordered|].
  change (Range.getStartPosition (rawRange sl sc el ec)) with (mkPosition sl sc).
  change (Range.getEndPosition (rawRange sl sc el ec)) with (mkPosition el ec).
  split.
  - destruct Hstart as [Hs|Hs]; rewrite Hs; done.
  - destruct Hend as [He|He]; rewrite He; done.
Qed.

(** After a merge the entries agree with the cursors again, when the
    document accepts the ends of their selections. *)
Lemma normalize_merge_held (context : CursorContext) (n n' : NormalizeState)
    (w : nat) (winner looser W : SortedCursor) (cw : nat) :
  NoDup (n_cursors n) ->
  NoDup (index <$> n_sortedCursors n) ->
  Forall (λ i, 0 <= i) (index <$> n_sortedCursors n) ->
  NHeld context n ->
  n_sortedCursors n !! w = Some winner ->
  looser ∈ n_sortedCursors n ->
  n_cursors n !! Z.to_nat (index winner) = Some cw ->
  index W = index winner ->
  (if Selection.equalsSelection (selection looser) (selection winner)
   then W = winner /\ statesAt (n_store n') cw = statesAt (n_store n) cw
   else Selection.toRange (selection W)
        = Selection.plusRange (selection looser) (selection winner)
        /\ assigned context (n_store n') cw
             (CursorState.fromModelSelection (selection W))) ->
  (forall c, c <> cw -> statesAt (n_store n') c = statesAt (n_store n) c) ->
  Forall (held (n_store n') (n_cursors n)) (<[w := W]> (n_sortedCursors n))
  /\ Forall (λ sortedCursor, acceptsSelection context (selection sortedCursor))
       (<[w := W]> (n_sortedCursors n)).
Proof.
  intros Hnd Hidxnd Hidxpos [Hheld Haccepts] Hw Hlooser Hcw HWi HW Hframe.
  assert (Hwinner : held (n_store n) (n_cursors n) winner
                    /\ acceptsSelection context (selection winner)).
  { rewrite Forall_forall in Hheld. rewrite Forall_forall in Haccepts.
    split; [apply Hheld|apply Haccepts]; by eapply list_elem_of_lookup_2. }
  assert (HWfacts : held (n_store n') (n_cursors n) W
                    /\ acceptsSelection context (selection W)).
  { destruct (Selection.equalsSelection (selection looser) (selection winner)).
    - destruct HW as [-> Hsame]. split; [|apply Hwinner].
      destruct Hwinner as [(c & m & v & Hc & Hs & Hsel) _].
      assert (c = cw) as -> by congruence.
      exists cw, m, v. split; [done|]. split; [by rewrite Hsame|done].
    - destruct HW as [Hrange Hassigned].
      assert (Hacc : acceptsSelection context (selection W)).
      { apply (acceptsSelection_merged context (selection looser) (selection winner));
          [|apply Hwinner|done].
        rewrite Forall_forall in Haccepts. by apply Haccepts. }
      split; [|done].
      destruct (computeStates_accepted context (selection W) Hacc)
        as (m & v & Hmv & Hm).
      exists cw, m, v. rewrite HWi. split; [done|]. split; [|done].
      unfold assigned in Hassigned. by rewrite Hassigned. }
  split.
  - apply Forall_lookup. intros k sc Hk.
    destruct (decide (k = w)) as [->|Hkw].
    + rewrite list_lookup_insert_eq in Hk by by eapply lookup_lt_Some.
      injection Hk as <-. apply HWfacts.
    + rewrite list_lookup_insert_ne in Hk by done.
      rewrite Forall_lookup in Hheld.
      destruct (Hheld k sc Hk) as (c & m & v & Hc & Hs & Hsel).
      exists c, m, v. split; [done|]. split; [|done].
      rewrite Hframe; [done|]. intros ->.
      rewrite NoDup_alt in Hnd. pose proof (Hnd _ _ _ Hc Hcw) as Hsame.
      rewrite Forall_forall in Hidxpos.
      assert (Hsck : 0 <= index sc).
      { apply Hidxpos. apply list_elem_of_fmap. exists sc. split; [done|].
        by eapply list_elem_of_lookup_2. }
      assert (Hwk : 0 <= index winner).
      { apply Hidxpos. apply list_elem_of_fmap. exists winner. split; [done|].
        by eapply list_elem_of_lookup_2. }
      assert (index sc = index winner) by lia.
      rewrite NoDup_alt in Hidxnd. apply Hkw.
      apply (Hidxnd k w (index sc)); rewrite list_lookup_fmap.
      * by rewrite Hk.
      * rewrite Hw. cbn. by f_equal.
  - apply Forall_insert; [done|apply HWfacts].
Qed.

(** ** The loop of [normalize] leaves nothing to merge *)

Lemma startSorted_fmap (f : SortedCursor -> SortedCursor) (l : list SortedCursor) :
  (forall x, selection (f x) = selection x) ->
  startSorted l -> startSorted (f <$> l).
Proof.
  intros Hf Hl i current next. rewrite !list_lookup_fmap.
  destruct (l !! i) as [a|] eqn:Ha; [|done].
  destruct (l !! S i) as [b|] eqn:Hb; [|done].
  cbn. intros [= <-] [= <-]. rewrite !Hf. by apply (Hl i).
Qed.

Lemma apartBefore_fmap (f : SortedCursor -> SortedCursor) (k : Z) (l : list SortedCursor) :
  (forall x, selection (f x) = selection x) ->
  apartBefore k l -> apartBefore k (f <$> l).
Proof.
  intros Hf Hl j current next Hj. rewrite !list_lookup_fmap.
  destruct (l !! j) as [a|] eqn:Ha; [|done].
  destruct (l !! S j) as [b|] eqn:Hb; [|done].
  cbn. intros [= <-] [= <-]. rewrite !Hf. by apply (Hl j).
Qed.

(** The snapshot after the neighbours at [i] and [i + 1] are merged into the
    entry [W], which starts where the entry at [i] started and is a caret only
    if that one was: it is still sorted by start, and the neighbours before
    [i], the one that now meets [W] included, are still not to be merged. *)
Lemma merged_neighbours (sortedCursors : list SortedCursor) (i : nat)
    (current next W : SortedCursor) :
  sortedCursors !! i = Some current ->
  sortedCursors !! S i = Some next ->
  startSorted sortedCursors ->
  apartBefore (Z.of_nat i) sortedCursors ->
  Selection.getStartPosition (selection W) = Selection.getStartPosition (selection current) ->
  (Selection.isEmpty (selection W) = true -> Selection.isEmpty (selection current) = true) ->
  startSorted (take i sortedCursors ++ W :: drop (S (S i)) sortedCursors)
  /\ apartBefore (Z.of_nat i) (take i sortedCursors ++ W :: drop (S (S i)) sortedCursors).
Proof.
  intros Hcur Hnext Hsorted Hapart Hstart Hempty.
  assert (Hlen : (S i < length sortedCursors)%nat) by by eapply lookup_lt_Some.
  split.
  - intros k a b. rewrite !merged_lookup by done.
    destruct (decide (k < i)%nat) as [Hki|Hki].
    + destruct (decide (S k < i)%nat) as [Hski|Hski]; [by apply Hsorted|].
      destruct (decide (S k = i)) as [Heq|]; [|lia].
      intros Ha [= <-]. rewrite Hstart. apply (Hsorted k); [done|]. by rewrite Heq.
    + destruct (decide (S k < i)%nat); [lia|].
      destruct (decide (k = i)) as [->|Hne].
      * destruct (decide (S i = i)); [lia|]. intros [= <-] Hb. rewrite Hstart.
        eapply isBeforeOrEqual_trans; [by apply (Hsorted i)|by apply (Hsorted (S i))].
      * destruct (decide (S k = i)); [lia|]. apply (Hsorted (S k)).
  - intros k a b Hk. rewrite !merged_lookup by done.
    destruct (decide (k < i)%nat) as [Hki|]; [|lia].
    destruct (decide (S k < i)%nat) as [Hski|Hski]; [by apply Hapart|].
    destruct (decide (S k = i)) as [Heq|]; [|lia].
    intros Ha [= <-].
    apply (shouldMergeCursors_same_start (selection a) (selection current));
      [|done|done].
    apply (Hapart k); [done|done|]. by rewrite Heq.
Qed.

(** Taking the looser out of the snapshot and out of the array of cursors,
    and lowering the larger indices, keeps the entries in agreement with the
    cursors. *)
Lemma held_renumbered (s : Store) (cursors : list nat) (sortedCursors : list SortedCursor)
    (l : nat) (looser : SortedCursor) :
  NoDup (index <$> sortedCursors) ->
  Forall (λ i, 0 <= i) (index <$> sortedCursors) ->
  sortedCursors !! l = Some looser ->
  Forall (held s cursors) sortedCursors ->
  Forall (held s (delete (Z.to_nat (index looser)) cursors))
    (delete l
       ((λ sortedCursor,
           if index sortedCursor >? index looser
           then mkSortedCursor (index sortedCursor - 1) (selection sortedCursor)
           else sortedCursor) <$> sortedCursors)).
Proof.
  intros Hnd Hpos Hl Hheld. rewrite <- list_fmap_delete. apply Forall_fmap.
  apply Forall_lookup. intros k x Hk.
  assert (Hx : exists k', k' <> l /\ sortedCursors !! k' = Some x).
  { destruct (decide (k < l)%nat).
    - exists k. split; [lia|]. by rewrite list_lookup_delete_lt in Hk.
    - exists (S k). split; [lia|]. by rewrite list_lookup_delete_ge in Hk by lia. }
  destruct Hx as (k' & Hk'l & Hk').
  assert (Hne : index x <> index looser).
  { intros Heq. rewrite NoDup_alt in Hnd. apply Hk'l.
    apply (Hnd k' l (index x)); rewrite list_lookup_fmap.
    - by rewrite Hk'.
    - rewrite Hl. cbn. by f_equal. }
  assert (Hx0 : 0 <= index x).
  { rewrite Forall_forall in Hpos. apply Hpos. apply list_elem_of_fmap.
    exists x. split; [done|]. by eapply list_elem_of_lookup_2. }
  assert (Hl0 : 0 <= index looser).
  { rewrite Forall_forall in Hpos. apply Hpos. apply list_elem_of_fmap.
    exists looser. split; [done|]. by eapply list_elem_of_lookup_2. }
  rewrite Forall_lookup in Hheld.
  destruct (Hheld k' x Hk') as (c & m & v & Hc & Hs & Hsel).
  cbn. destruct (Z.gtb_spec (index x) (index looser)) as [Hgt|Hle].
  - exists c, m, v. cbn [index selection]. split; [|done].
    rewrite list_lookup_delete_ge by lia. rewrite <- Hc. f_equal. lia.
  - exists c, m, v. split; [|done]. by rewrite list_lookup_delete_lt by lia.
Qed.

(** ** The rounds of the loop of [normalize] *)

(** A round of the loop with merging switched on: the two neighbours at the
    loop index are merged when [shouldMergeCursors] holds, and otherwise the
    loop moves on with nothing changed. *)
Lemma normalize_step_round (st0 : Store * CursorCollection) (n : NormalizeState) :
  NInv st0 n ->
  n_sortedCursorIndex n < Z.of_nat (length (n_sortedCursors n)) - 1 ->
  multiCursorMergeOverlapping (cursorConfig (context (n_this n))) = true ->
  exists current next n',
    n_sortedCursors n !! Z.to_nat (n_sortedCursorIndex n) = Some current
    /\ n_sortedCursors n !! S (Z.to_nat (n_sortedCursorIndex n)) = Some next
    /\ CursorCollection.normalize_step n = Some n'
    /\ NInv st0 n'
    /\ if CursorCollection.shouldMergeCursors (selection current) (selection next)
       then mergedRound n n' current next
       else n' = mkNormalizeState (n_store n) (n_this n) (n_cursors n)
                   (n_sortedCursors n) (n_sortedCursorIndex n + 1).
Proof.
  intros HInv Hguard Hflag.
  pose proof HInv as (_ & _ & _ & _ & _ & Hidx & _).
  destruct (normalize_step_spec st0 n HInv Hguard)
    as (current & next & n' & Hcur & Hnext & Hstep & HInv' & _).
  exists current, next, n'.
  replace (Z.to_nat (n_sortedCursorIndex n + 1))
    with (S (Z.to_nat (n_sortedCursorIndex n))) in Hnext by lia.
  split; [done|]. split; [done|]. split; [done|]. split; [done|].
  assert (Hslen : (S (Z.to_nat (n_sortedCursorIndex n)) < length (n_sortedCursors n))%nat)
    by by eapply lookup_lt_Some.
  revert Hstep. unfold CursorCollection.normalize_step. unfold Array.get at 1 2.
  replace (n_sortedCursorIndex n <? 0) with false by lia.
  replace (n_sortedCursorIndex n + 1 <? 0) with false by lia.
  replace (Z.to_nat (n_sortedCursorIndex n + 1))
    with (S (Z.to_nat (n_sortedCursorIndex n))) by lia.
  rewrite Hcur, Hnext. cbn [mbind option_bind]. rewrite Hflag. cbn [negb].
  destruct (CursorCollection.shouldMergeCursors (selection current) (selection next));
    [|by intros [= <-]].
  unfold mergedRound.
  destruct (Z.ltb_spec (index current) (index next)) as [Hcn|Hcn]; intros Hmerge.
  - destruct (normalize_merge_round st0 n n' (n_sortedCursorIndex n)
                (n_sortedCursorIndex n + 1) current next)
      as (W & cw & Hcw & HWi & HW & Hframe & Hcursors' & Hcopy' & Hsorted' & Hidx');
      try done; try lia.
    { by replace (Z.to_nat (n_sortedCursorIndex n + 1))
        with (S (Z.to_nat (n_sortedCursorIndex n))) by lia. }
    exists W, cw. do 6 (split; [done|]). split; [|lia].
    rewrite Hsorted'.
    replace (Z.to_nat (n_sortedCursorIndex n + 1))
      with (S (Z.to_nat (n_sortedCursorIndex n))) by lia.
    by rewrite <- list_fmap_delete, delete_insert_next.
  - destruct (normalize_merge_round st0 n n' (n_sortedCursorIndex n + 1)
                (n_sortedCursorIndex n) next current)
      as (W & cw & Hcw & HWi & HW & Hframe & Hcursors' & Hcopy' & Hsorted' & Hidx');
      try done; try lia.
    { by replace (Z.to_nat (n_sortedCursorIndex n + 1))
        with (S (Z.to_nat (n_sortedCursorIndex n))) by lia. }
    exists W, cw. do 6 (split; [done|]). split; [|lia].
    rewrite Hsorted'.
    replace (Z.to_nat (n_sortedCursorIndex n + 1))
      with (S (Z.to_nat (n_sortedCursorIndex n))) by lia.
    by rewrite <- list_fmap_delete, delete_insert_previous.
Qed.

Lemma neighbours_indices (st0 : Store * CursorCollection) (n : NormalizeState)
    (current next : SortedCursor) :
  NInv st0 n ->
  n_sortedCursors n !! Z.to_nat (n_sortedCursorIndex n) = Some current ->
  n_sortedCursors n !! S (Z.to_nat (n_sortedCursorIndex n)) = Some next ->
  index current <> index next
  /\ 0 <= index current < Z.of_nat (length (n_cursors n))
  /\ 0 <= index next < Z.of_nat (length (n_cursors n)).
Proof.
  intros (_ & _ & _ & Hidxrange & Hidxnd & _) Hcur Hnext.
  rewrite Forall_forall in Hidxrange. split; [|split].
  - intros Heq. rewrite NoDup_alt in Hidxnd.
    assert (Z.to_nat (n_sortedCursorIndex n) = S (Z.to_nat (n_sortedCursorIndex n)));
      [|lia].
    apply (Hidxnd _ _ (index current)); rewrite list_lookup_fmap.
    + by rewrite Hcur.
    + by rewrite Hnext, Heq.
  - apply Hidxrange, list_elem_of_fmap. exists current. split; [done|].
    by eapply list_elem_of_lookup_2.
  - apply Hidxrange, list_elem_of_fmap. exists next. split; [done|].
    by eapply list_elem_of_lookup_2.
Qed.

(** The entry that takes the place of two merged neighbours starts where the
    first of them started, and is a caret only if that one was. *)
Lemma mergedRound_entry (current next winner looser W : SortedCursor) :
  Position.isBeforeOrEqual (Selection.getStartPosition (selection current))
                           (Selection.getStartPosition (selection next)) = true ->
  (winner = current /\ looser = next) \/ (winner = next /\ looser = current) ->
  (if Selection.equalsSelection (selection looser) (selection winner)
   then W = winner
   else Selection.toRange (selection W)
        = Selection.plusRange (selection looser) (selection winner)) ->
  Selection.getStartPosition (selection W) = Selection.getStartPosition (selection current)
  /\ (Selection.isEmpty (selection W) = true ->
      Selection.isEmpty (selection current) = true).
Proof.
  intros Hsorted Hpair HW.
  destruct (Selection.equalsSelection (selection looser) (selection winner)) eqn:Heq.
  - apply Selection_equalsSelection_eq in Heq. subst W.
    destruct Hpair as [[-> ->]|[-> ->]]; [done|by rewrite <- Heq].
  - apply (merged_selection_spec (selection current) (selection next)); [done|].
    destruct Hpair as [[-> ->]|[-> ->]]; [by right|by left].
Qed.

Lemma mergedRound_NSorted (st0 : Store * CursorCollection) (n n' : NormalizeState)
    (current next : SortedCursor) :
  NInv st0 n ->
  NSorted n ->
  n_sortedCursors n !! Z.to_nat (n_sortedCursorIndex n) = Some current ->
  n_sortedCursors n !! S (Z.to_nat (n_sortedCursorIndex n)) = Some next ->
  mergedRound n n' current next ->
  NSorted n'.
Proof.
  intros HInv (Hlen & Hsorted & Hapart) Hcur Hnext.
  pose proof HInv as (Hcopy & _ & _ & _ & _ & Hidx & _).
  destruct (neighbours_indices st0 n current next HInv Hcur Hnext)
    as (Hne & Hcrange & Hnrange).
  assert (Hslen : (S (Z.to_nat (n_sortedCursorIndex n)) < length (n_sortedCursors n))%nat)
    by by eapply lookup_lt_Some.
  unfold mergedRound. cbv zeta.
  intros (W & cw & _ & _ & HW & _ & Hcursors' & Hcopy' & Hsorted' & Hidx').
  assert (Hentry : Selection.getStartPosition (selection W)
                   = Selection.getStartPosition (selection current)
                   /\ (Selection.isEmpty (selection W) = true ->
                       Selection.isEmpty (selection current) = true)).
  { apply (mergedRound_entry current next
             (if index current <? index next then current else next)
             (if index current <? index next then next else current));
      [by apply (Hsorted (Z.to_nat (n_sortedCursorIndex n)))| |].
    - destruct (index current <? index next); [by left|by right].
    - destruct (Selection.equalsSelection _ _); apply HW. }
  destruct Hentry as [Hstart Hempty].
  destruct (merged_neighbours (n_sortedCursors n) (Z.to_nat (n_sortedCursorIndex n))
              current next W) as [Hsorted2 Hapart2]; try done.
  { by rewrite Z2Nat.id. }
  unfold NSorted. rewrite Hsorted', Hcopy', Hcursors', Hidx'.
  split; [|split].
  - rewrite length_fmap, length_app, length_take. cbn [length]. rewrite length_drop.
    rewrite delete_length_lt; [rewrite <- Hcopy; lia|].
    rewrite <- Hcopy. destruct (index current <? index next); lia.
  - apply startSorted_fmap; [|done].
    intros x. by destruct (index x >? _).
  - apply apartBefore_fmap.
    + intros x. by destruct (index x >? _).
    + by rewrite Z2Nat.id in Hapart2.
Qed.

Lemma mergedRound_NHeld (st0 : Store * CursorCollection) (n n' : NormalizeState)
    (current next : SortedCursor) :
  NInv st0 n ->
  NHeld (context (n_this n)) n ->
  n_sortedCursors n !! Z.to_nat (n_sortedCursorIndex n) = Some current ->
  n_sortedCursors n !! S (Z.to_nat (n_sortedCursorIndex n)) = Some next ->
  mergedRound n n' current next ->
  NHeld (context (n_this n)) n'.
Proof.
  intros HInv HHeld Hcur Hnext.
  pose proof HInv as (Hcopy & Hwf & _ & Hidxrange & Hidxnd & Hidx & _).
  destruct (neighbours_indices st0 n current next HInv Hcur Hnext)
    as (Hne & Hcrange & Hnrange).
  assert (Hslen : (S (Z.to_nat (n_sortedCursorIndex n)) < length (n_sortedCursors n))%nat)
    by by eapply lookup_lt_Some.
  assert (Hnd : NoDup (n_cursors n)).
  { rewrite Hcopy. apply Hwf. }
  assert (Hidxpos : Forall (λ i, 0 <= i) (index <$> n_sortedCursors n)).
  { eapply Forall_impl; [exact Hidxrange|]. cbn. lia. }
  unfold mergedRound. cbv zeta.
  intros (W & cw & Hcw & HWi & HW & Hframe & Hcursors' & Hcopy' & Hsorted' & Hidx').
  assert (Hcase : exists w l winner looser,
            winner = (if index current <? index next then current else next)
            /\ looser = (if index current <? index next then next else current)
            /\ w <> l
            /\ n_sortedCursors n !! w = Some winner
            /\ n_sortedCursors n !! l = Some looser
            /\ take (Z.to_nat (n_sortedCursorIndex n)) (n_sortedCursors n)
               ++ W :: drop (S (S (Z.to_nat (n_sortedCursorIndex n)))) (n_sortedCursors n)
               = delete l (<[w := W]> (n_sortedCursors n))).
  { destruct (index current <? index next).
    - exists (Z.to_nat (n_sortedCursorIndex n)), (S (Z.to_nat (n_sortedCursorIndex n))),
        current, next.
      do 2 (split; [done|]). split; [lia|]. do 2 (split; [done|]).
      by rewrite delete_insert_next.
    - exists (S (Z.to_nat (n_sortedCursorIndex n))), (Z.to_nat (n_sortedCursorIndex n)),
        next, current.
      do 2 (split; [done|]). split; [lia|]. do 2 (split; [done|]).
      by rewrite delete_insert_previous. }
  destruct Hcase as (w & l & winner & looser & Hwinner & Hlooser & Hwl & Hw & Hl & Hlist).
  rewrite <- Hwinner, <- Hlooser in *.
  destruct (normalize_merge_held (context (n_this n)) n n' w winner looser W cw)
    as [Hheld' Haccepts']; try done.
  { by eapply list_elem_of_lookup_2. }
  assert (Hindices : index <$> <[w := W]> (n_sortedCursors n)
                     = index <$> n_sortedCursors n).
  { rewrite list_fmap_insert, HWi. apply list_insert_id.
    by rewrite list_lookup_fmap, Hw. }
  unfold NHeld. rewrite Hsorted', Hcopy', Hcursors', Hlist, <- Hcopy.
  split.
  - rewrite list_fmap_delete.
    apply held_renumbered; [by rewrite Hindices|by rewrite Hindices| |done].
    by rewrite list_lookup_insert_ne.
  - apply Forall_fmap. apply Forall_delete.
    eapply Forall_impl; [exact Haccepts'|]. intros x Hx. cbn.
    by destruct (index x >? index looser).
Qed.

Lemma snapshot_lookup (s : Store) (cs : list nat) (i : Z) (l : list SortedCursor)
    (k c : nat) (o : Cursor) :
  CursorCollection.snapshot s i cs = Some l ->
  cs !! k = Some c -> heap s !! c = Some o ->
  l !! k = Some (mkSortedCursor (i + Z.of_nat k)
                   (SingleCursorState.selection (modelState o))).
Proof.
  revert i l k. induction cs as [|c' cs IH]; intros i l k; [done|].
  cbn [CursorCollection.snapshot].
  destruct (heap s !! c') as [o'|] eqn:Ho'; [|done]. cbn [mbind option_bind].
  destruct (CursorCollection.snapshot s (i + 1) cs) as [tail|] eqn:Htail; [|done].
  cbn [mbind option_bind]. intros [= <-] Hk Ho. destruct k as [|k].
  - injection Hk as ->. rewrite Ho in Ho'. injection Ho' as <-. cbn.
    by rewrite Z.add_0_r.
  - change ((c' :: cs) !! S k) with (cs !! k) in Hk.
    change ((mkSortedCursor i (SingleCursorState.selection (modelState o')) :: tail)
              !! S k) with (tail !! k).
    rewrite (IH (i + 1) tail k Htail Hk Ho). do 2 f_equal. lia.
Qed.

(** Every entry of the snapshot [normalize] takes is the selection of the
    cursor at the index of the entry. *)
Lemma snapshot_entry (s : Store) (this : CursorCollection) (l : list SortedCursor)
    (x : SortedCursor) :
  wf (s, this) ->
  CursorCollection.snapshot s 0 (cursors this) = Some l ->
  x ∈ l ->
  exists c o,
    cursors this !! Z.to_nat (index x) = Some c
    /\ heap s !! c = Some o
    /\ selection x = SingleCursorState.selection (modelState o).
Proof.
  intros Hwf Hsnap Hxl.
  apply list_elem_of_lookup in Hxl as [k Hk].
  destruct (lookup_lt_is_Some_2 (cursors this) k) as [c Hc].
  { apply lookup_lt_Some in Hk.
    destruct (snapshot_spec s (cursors this) 0) as (l' & Hl' & Hindices);
      [apply Hwf|].
    rewrite Hsnap in Hl'. injection Hl' as <-.
    rewrite <- (length_fmap index l), Hindices, length_seqZ in Hk. lia. }
  destruct (lookup_lt_is_Some_2 (heap s) c) as [o Ho].
  { destruct Hwf as (_ & _ & Hheap). cbn [fst snd] in Hheap.
    rewrite Forall_forall in Hheap. apply Hheap. by eapply list_elem_of_lookup_2. }
  rewrite (snapshot_lookup s (cursors this) 0 l k c o Hsnap Hc Ho) in Hk.
  injection Hk as <-. exists c, o. cbn [index selection].
  by rewrite Z.add_0_l, Nat2Z.id.
Qed.

(** A list of entries that agree with the cursors, one for each index, is the
    snapshot of the collection in another order. *)
Lemma held_snapshot (s : Store) (cs : list nat) (sortedCursors : list SortedCursor) :
  Forall (λ c, (c < length (heap s))%nat) cs ->
  length sortedCursors = length cs ->
  NoDup (index <$> sortedCursors) ->
  Forall (λ i, 0 <= i) (index <$> sortedCursors) ->
  Forall (held s cs) sortedCursors ->
  exists l, CursorCollection.snapshot s 0 cs = Some l /\ sortedCursors ≡ₚ l.
Proof.
  intros Hheap Hlen Hnd Hpos Hheld.
  destruct (snapshot_spec s cs 0 Hheap) as (l & Hl & Hindices).
  exists l. split; [done|].
  apply submseteq_length_Permutation.
  - apply NoDup_submseteq; [by eapply NoDup_fmap_1|].
    intros x Hx. rewrite Forall_forall in Hheld. rewrite Forall_forall in Hpos.
    destruct (Hheld x Hx) as (c & m & v & Hc & Hs & Hsel).
    unfold statesAt in Hs. destruct (heap s !! c) as [o|] eqn:Ho; [|done].
    cbn in Hs. injection Hs as <- _.
    pose proof (snapshot_lookup s cs 0 l _ c o Hl Hc Ho) as Hlook.
    assert (Hx0 : 0 <= index x).
    { apply Hpos. apply list_elem_of_fmap. by exists x. }
    rewrite Z2Nat.id, Z.add_0_l, Hsel in Hlook by done.
    eapply list_elem_of_lookup_2. rewrite Hlook. by destruct x.
  - rewrite Hlen, <- (length_fmap index l), Hindices, length_seqZ. lia.
Qed.

(** Every round of the loop of [normalize] on a well-formed collection, with
    merging switched on, keeps the loop invariant and finds the snapshot in
    the order of the starts, with nothing left to merge before the loop
    index. *)
Lemma normalizeRound_NSorted (st : Store * CursorCollection) (n : NormalizeState) :
  wf st ->
  multiCursorMergeOverlapping (cursorConfig (context st.2)) = true ->
  normalizeRound st n ->
  NInv st n /\ NSorted n.
Proof.
  intros Hwf Hflag Hround.
  induction Hround as [l Hmore Hsnap|n n' Hround [HInv HSorted] Hlt Hstep].
  - destruct st as [s this]. cbn [fst snd] in *.
    destruct (normalize_start_NInv s this l Hwf Hsnap) as [HInv Hlen].
    split; [done|]. split; [done|]. split; [apply normalize_sort_startSorted|].
    intros j ? ? Hj. cbn [n_sortedCursorIndex] in Hj. lia.
  - assert (Hflagn : multiCursorMergeOverlapping (cursorConfig (context (n_this n)))
                     = true).
    { destruct HInv as (_ & _ & _ & _ & _ & _ & ->). done. }
    destruct (normalize_step_round st n HInv Hlt Hflagn)
      as (current & next & n1 & Hcur & Hnext & Hstep1 & HInv1 & Hcase).
    rewrite Hstep in Hstep1. injection Hstep1 as <-. split; [done|].
    destruct (CursorCollection.shouldMergeCursors (selection current) (selection next))
      eqn:Hmerge.
    + by apply (mergedRound_NSorted st n n' current next).
    + subst n'. destruct HSorted as (Hlen & Hsorted & Hapart).
      pose proof HInv as (_ & _ & _ & _ & _ & Hidx & _).
      split; [done|]. split; [done|].
      cbn [n_sortedCursorIndex n_sortedCursors]. intros j a b Hj Ha Hb.
      destruct (decide (Z.of_nat j < n_sortedCursorIndex n)); [by apply (Hapart j)|].
      assert (j = Z.to_nat (n_sortedCursorIndex n)) as -> by lia.
      rewrite Hcur in Ha. rewrite Hnext in Hb.
      injection Ha as <-. by injection Hb as <-.
Qed.

(** In a document that accepts the selections of the cursors, every round
    finds in the snapshot the selections the cursors have. *)
Lemma normalizeRound_NHeld (st : Store * CursorCollection) (n : NormalizeState) :
  wf st ->
  multiCursorMergeOverlapping (cursorConfig (context st.2)) = true ->
  Forall (acceptsCursor (context st.2) st.1) (cursors st.2) ->
  normalizeRound st n ->
  NHeld (context st.2) n.
Proof.
  intros Hwf Hflag Haccepts Hround.
  induction Hround as [l Hmore Hsnap|n n' Hround HHeld Hlt Hstep].
  - destruct st as [s this]. cbn [fst snd] in *.
    unfold NHeld. cbn [n_sortedCursors n_cursors n_store].
    rewrite Forall_forall in Haccepts.
    split; apply Forall_forall; intros x Hx; rewrite sort_perm in Hx;
      destruct (snapshot_entry s this l x Hwf Hsnap Hx) as (c & o & Hc & Ho & Hsel).
    + exists c, (modelState o), (viewState o).
      split; [done|]. split; [|done]. unfold statesAt. by rewrite Ho.
    + cbn beta. rewrite Hsel. apply (Haccepts c); [|done].
      by eapply list_elem_of_lookup_2.
  - destruct (normalizeRound_NSorted st n Hwf Hflag Hround) as [HInv _].
    pose proof HInv as (_ & _ & _ & _ & _ & _ & Hctx).
    assert (Hflagn : multiCursorMergeOverlapping (cursorConfig (context (n_this n)))
                     = true) by by rewrite Hctx.
    destruct (normalize_step_round st n HInv Hlt Hflagn)
      as (current & next & n1 & Hcur & Hnext & Hstep1 & HInv1 & Hcase).
    rewrite Hstep in Hstep1. injection Hstep1 as <-.
    destruct (CursorCollection.shouldMergeCursors (selection current) (selection next)).
    + rewrite <- Hctx. apply (mergedRound_NHeld st n n' current next); try done.
      by rewrite Hctx.
    + by subst n'.
Qed.

(** The loop of [normalize] goes from round to round and ends with a round
    that fails the test of the loop. *)
Lemma normalize_loop_rounds (st : Store * CursorCollection) (fuel : nat)
    (n n' : NormalizeState) :
  normalizeRound st n ->
  CursorCollection.normalize_loop fuel n = Some n' ->
  normalizeRound st n'
  /\ ~ n_sortedCursorIndex n' < Z.of_nat (length (n_sortedCursors n')) - 1.
Proof.
  revert n. induction fuel as [|fuel IH]; intros n Hround;
    cbn [CursorCollection.normalize_loop].
  - destruct (Z.ltb_spec (n_sortedCursorIndex n)
                (Z.of_nat (length (n_sortedCursors n)) - 1)); [done|].
    intros [= <-]. split; [done|lia].
  - destruct (Z.ltb_spec (n_sortedCursorIndex n)
                (Z.of_nat (length (n_sortedCursors n)) - 1)) as [Hlt|];
      [|intros [= <-]; split; [done|lia]].
    destruct (CursorCollection.normalize_step n) as [n1|] eqn:Hstep; [|done].
    cbn [mbind option_bind]. apply IH. by apply (round_next st n n1).
Qed.

(** What [normalize] returns is the collection of the round its loop ends
    with. *)
Lemma normalize_rounds (st st' : Store * CursorCollection) :
  wf st ->
  length (cursors st.2) <> 1%nat ->
  CursorCollection.normalize st = Some st' ->
  exists n',
    normalizeRound st n'
    /\ ~ n_sortedCursorIndex n' < Z.of_nat (length (n_sortedCursors n')) - 1
    /\ st' = (n_store n', n_this n').
Proof.
  intros Hwf Hmore. destruct st as [s this]. cbn [fst snd] in Hmore.
  destruct (snapshot_spec s (cursors this) 0) as (l & Hsnap & Hindices); [apply Hwf|].
  pose proof (round_first (s, this) l Hmore Hsnap) as Hfirst. cbn [fst snd] in Hfirst.
  unfold CursorCollection.normalize.
  destruct (Z.eqb_spec (Z.of_nat (length (cursors this))) 1) as [Hone|_]; [lia|].
  rewrite Hsnap. cbn [mbind option_bind].
  destruct (CursorCollection.normalize_loop _ _) as [n'|] eqn:Hloop; [|done].
  cbn [mbind option_bind]. intros [= <-].
  destruct (normalize_loop_rounds (s, this) _ _ _ Hfirst Hloop) as [Hround Hexit].
  by exists n'.
Qed.

(** With exactly one cursor, [normalize] returns at once. *)
Lemma normalize_one_cursor (st : Store * CursorCollection) :
  length (cursors st.2) = 1%nat ->
  CursorCollection.normalize st = Some st.
Proof.
  intros Hone. destruct st as [s this]. cbn [fst snd] in Hone.
  unfold CursorCollection.normalize. by rewrite Hone.
Qed.

(** The snapshot the loop of [normalize] ends with is the snapshot of the
    collection it leaves, in start order, and holds no neighbours to merge. *)
Lemma normalize_reaches_apart (st st' : Store * CursorCollection) :
  wf st ->
  multiCursorMergeOverlapping (cursorConfig (context st.2)) = true ->
  Forall (acceptsCursor (context st.2) st.1) (cursors st.2) ->
  CursorCollection.normalize st = Some st' ->
  exists snapshot' sortedCursors,
    CursorCollection.snapshot st'.1 0 (cursors st'.2) = Some snapshot'
    /\ sortedCursors ≡ₚ snapshot'
    /\ startSorted sortedCursors
    /\ neighboursApart sortedCursors.
Proof.
  intros Hwf Hflag Haccepts Hnorm.
  destruct (decide (length (cursors st.2) = 1%nat)) as [Hone|Hmore].
  { rewrite (normalize_one_cursor st Hone) in Hnorm. injection Hnorm as <-.
    destruct (snapshot_spec st.1 (cursors st.2) 0) as (l & Hl & Hindices); [apply Hwf|].
    exists l, l. split; [done|]. split; [done|].
    assert (Hlen : length l = 1%nat).
    { rewrite <- (length_fmap index l), Hindices, length_seqZ. lia. }
    split; intros [|i] current next Hc Hn; apply lookup_lt_Some in Hn; lia. }
  destruct (normalize_rounds st st' Hwf Hmore Hnorm) as (n' & Hround & Hexit & ->).
  cbn [fst snd].
  destruct (normalizeRound_NSorted st n' Hwf Hflag Hround) as [HInv' HSorted'].
  destruct (normalizeRound_NHeld st n' Hwf Hflag Haccepts Hround) as [Hheld' _].
  destruct HInv' as (Hcopy' & Hwf' & _ & Hidxrange' & Hidxnd' & _).
  destruct HSorted' as (Hlen' & Hsorted' & Hapart').
  destruct (held_snapshot (n_store n') (cursors (n_this n')) (n_sortedCursors n'))
    as (l' & Hl' & Hperm'); try done.
  - apply Hwf'.
  - by rewrite <- Hcopy'.
  - eapply Forall_impl; [exact Hidxrange'|]. cbn. lia.
  - by rewrite <- Hcopy'.
  - exists l', (n_sortedCursors n'). split; [done|]. split; [done|]. split; [done|].
    intros j current next Hc Hn. apply (Hapart' j); [|done|done].
    apply lookup_lt_Some in Hn. lia.
Qed.

(** ** Selections that are not to be merged *)

Ltac selection_order :=
  unfold CursorCollection.shouldMergeCursors, Selection.isEmpty,
    Selection.getStartPosition, Selection.getEndPosition, Range.isEmpty,
    Range.getStartPosition, Range.getEndPosition, Position.isBeforeOrEqual,
    Position.isBefore, atOrBefore, strictlyBefore in *;
  cbn [startLineNumber startColumn endLineNumber endColumn lineNumber column] in *;
  repeat match goal with
    | H : context [?a <? ?b] |- _ => destruct (Z.ltb_spec a b)
    | |- context [?a <? ?b] => destruct (Z.ltb_spec a b)
    | H : context [?a <=? ?b] |- _ => destruct (Z.leb_spec a b)
    | |- context [?a <=? ?b] => destruct (Z.leb_spec a b)
    | H : context [?a =? ?b] |- _ => destruct (Z.eqb_spec a b)
    | |- context [?a =? ?b] => destruct (Z.eqb_spec a b)
    end;
  cbn [andb orb] in *; try done; try lia.

Lemma Selection_ordered (a : Selection) :
  atOrBefore (Selection.getStartPosition a) (Selection.getEndPosition a).
Proof. apply isBeforeOrEqual_atOrBefore, Selection_start_before_end. Qed.

(** Two selections the loop of [normalize] does not merge: the later one
    starts strictly after the earlier one starts, and not before it ends. *)
Lemma shouldMergeCursors_false (a b : Selection) :
  CursorCollection.shouldMergeCursors a b = false ->
  strictlyBefore (Selection.getStartPosition a) (Selection.getStartPosition b)
  /\ atOrBefore (Selection.getEndPosition a) (Selection.getStartPosition b).
Proof.
  intros H. pose proof (Selection_ordered a) as Ha.
  pose proof (Selection_ordered b) as Hb.
  destruct (Selection.toRange a) as [a1 a2 a3 a4] eqn:Era,
           (Selection.toRange b) as [b1 b2 b3 b4] eqn:Erb.
  unfold CursorCollection.shouldMergeCursors, Selection.isEmpty,
    Selection.getStartPosition, Selection.getEndPosition in *.
  rewrite Era, Erb in *. selection_order.
Qed.

Lemma shouldMergeCursors_ends (a b : Selection) :
  strictlyBefore (Selection.getEndPosition a) (Selection.getStartPosition b) ->
  CursorCollection.shouldMergeCursors a b = false.
Proof.
  intros H.
  destruct (Selection.toRange a) as [a1 a2 a3 a4] eqn:Era,
           (Selection.toRange b) as [b1 b2 b3 b4] eqn:Erb.
  unfold CursorCollection.shouldMergeCursors, Selection.isEmpty,
    Selection.getStartPosition, Selection.getEndPosition in *.
  rewrite Era, Erb in *. selection_order.
Qed.

(** In a snapshot whose neighbours are not to be merged, no two entries are:
    each starts strictly before the later ones and ends before they start. *)
Lemma neighboursApart_pairwise (sortedCursors : list SortedCursor) (d j : nat)
    (a b : SortedCursor) :
  neighboursApart sortedCursors ->
  sortedCursors !! j = Some a ->
  sortedCursors !! (j + S d)%nat = Some b ->
  strictlyBefore (Selection.getStartPosition (selection a))
                 (Selection.getStartPosition (selection b))
  /\ CursorCollection.shouldMergeCursors (selection a) (selection b) = false.
Proof.
  intros Hapart Ha. revert b. induction d as [|d IH]; intros b Hb.
  - replace (j + 1)%nat with (S j) in Hb by lia.
    pose proof (Hapart j a b Ha Hb) as Hab. split; [|done].
    by apply shouldMergeCursors_false.
  - destruct (lookup_lt_is_Some_2 sortedCursors (j + S d)) as [c Hc].
    { apply lookup_lt_Some in Hb. lia. }
    destruct (IH c Hc) as [Hac Hmac].
    replace (j + S (S d))%nat with (S (j + S d)) in Hb by lia.
    pose proof (Hapart _ c b Hc Hb) as Hcb.
    apply shouldMergeCursors_false in Hmac as [_ Hends].
    apply shouldMergeCursors_false in Hcb as [Hcb _].
    assert (Hendb : strictlyBefore (Selection.getEndPosition (selection a))
                      (Selection.getStartPosition (selection b))).
    { destruct (Selection.getEndPosition (selection a)) as [l1 c1],
               (Selection.getStartPosition (selection c)) as [l2 c2],
               (Selection.getStartPosition (selection b)) as [l3 c3].
      unfold atOrBefore, strictlyBefore in *. cbn [lineNumber column] in *. lia. }
    split; [|by apply shouldMergeCursors_ends].
    destruct (Selection.getStartPosition (selection a)) as [l1 c1],
             (Selection.getStartPosition (selection c)) as [l2 c2],
             (Selection.getStartPosition (selection b)) as [l3 c3].
    unfold atOrBefore, strictlyBefore in *. cbn [lineNumber column] in *. lia.
Qed.

(** Sorting such a snapshot by start cannot bring two entries together that
    are to be merged. *)
Lemma neighboursApart_sorted (sortedCursors other : list SortedCursor) :
  neighboursApart sortedCursors ->
  NoDup other ->
  other ≡ₚ sortedCursors ->
  startSorted other ->
  neighboursApart other.
Proof.
  intros Hapart Hnd Hperm Hsorted i x y Hx Hy.
  assert (Hxin : x ∈ sortedCursors).
  { rewrite <- Hperm. by eapply list_elem_of_lookup_2. }
  assert (Hyin : y ∈ sortedCursors).
  { rewrite <- Hperm. by eapply list_elem_of_lookup_2. }
  apply list_elem_of_lookup in Hxin as [p Hp].
  apply list_elem_of_lookup in Hyin as [q Hq].
  destruct (Nat.lt_trichotomy p q) as [Hpq|[->|Hqp]].
  - replace q with (p + S (q - p - 1))%nat in Hq by lia.
    by destruct (neighboursApart_pairwise _ _ _ _ _ Hapart Hp Hq).
  - assert (x = y) as -> by congruence.
    rewrite NoDup_alt in Hnd. pose proof (Hnd _ _ _ Hx Hy). lia.
  - replace p with (q + S (p - q - 1))%nat in Hp by lia.
    destruct (neighboursApart_pairwise _ _ _ _ _ Hapart Hq Hp) as [Hyx _].
    pose proof (Hsorted i x y Hx Hy) as Hxy.
    apply isBeforeOrEqual_atOrBefore in Hxy.
    destruct (Selection.getStartPosition (selection x)) as [l1 c1],
             (Selection.getStartPosition (selection y)) as [l2 c2].
    unfold atOrBefore, strictlyBefore in *. cbn [lineNumber column] in *. lia.
Qed.

(** ** The collection [normalize] leaves *)

Lemma scatteredCursors_wf : wf scatteredCursors.
Proof.
  unfold wf, scatteredCursors. cbn [fst snd cursors heap length].
  split; [done|]. split.
  - apply (NoDup_seq 0 3).
  - repeat constructor.
Qed.

Lemma scatteredCursors_accepted :
  Forall (acceptsCursor (context scatteredCursors.2) scatteredCursors.1)
    (cursors scatteredCursors.2).
Proof.
  unfold scatteredCursors. cbn [fst snd cursors context heap].
  repeat apply Forall_cons_2; try apply Forall_nil_2.
  all: unfold acceptsCursor; intros o Ho; injection Ho as <-.
  all: split; split; vm_compute; reflexivity.
Qed.

(** X25: [normalize] finishes the job, with merging switched on and in a document
    that accepts the two ends of the selection of every cursor as they are
    (as a document does for the positions that lie in it): the cursors it
    leaves, taken in the order of their starts, hold no two neighbours that
    meet the merge condition, and normalizing once more changes nothing. *)
Theorem normalize_leaves_nothing_to_merge (st st' : Store * CursorCollection) :
  wf st ->
  multiCursorMergeOverlapping (cursorConfig (context st.2)) = true ->
  Forall (acceptsCursor (context st.2) st.1) (cursors st.2) ->
  CursorCollection.normalize st = Some st' ->
  (exists snapshot' sortedCursors,
     CursorCollection.snapshot st'.1 0 (cursors st'.2) = Some snapshot'
     /\ sortedCursors ≡ₚ snapshot'
     /\ startSorted sortedCursors
     /\ neighboursApart sortedCursors)
  /\ CursorCollection.normalize st' = Some st'.
Proof.
  intros Hwf Hflag Haccepts Hnorm.
  pose proof (normalize_reaches_apart st st' Hwf Hflag Haccepts Hnorm) as Hfirst.
  split; [exact Hfirst|].
  destruct Hfirst as (l' & sorted' & Hl' & Hperm & _ & Hapart).
  assert (Hwf' : wf st').
  { destruct (normalize_spec st Hwf) as (st'' & Hn & Hwf'' & _).
    rewrite Hnorm in Hn. by injection Hn as <-. }
  destruct st' as [s' this']. cbn [fst snd] in *.
  destruct (normalize_spec (s', this') Hwf') as (st2 & Hnorm2 & _).
  rewrite Hnorm2. f_equal. revert Hnorm2. unfold CursorCollection.normalize.
  destruct (Z.eqb_spec (Z.of_nat (length (cursors this'))) 1); [by intros [= <-]|].
  rewrite Hl'. cbn [mbind option_bind].
  destruct (normalize_start_NInv s' this' l' Hwf' Hl') as [HInv _].
  destruct (CursorCollection.normalize_loop _ _) as [n2|] eqn:Hloop; [|done].
  cbn [mbind option_bind]. intros [= <-].
  assert (Hsorted : neighboursApart
                      (Array.sort (compareBy (λ s, Selection.toRange (selection s))
                                     Range.compareRangesUsingStarts) l')).
  { apply (neighboursApart_sorted sorted'); [done| | |apply normalize_sort_startSorted].
    - rewrite sort_perm. apply (NoDup_fmap_1 index).
      destruct (snapshot_spec s' (cursors this') 0) as (l2 & Hl2 & Hindices);
        [apply Hwf'|].
      rewrite Hl' in Hl2. injection Hl2 as <-. rewrite Hindices. apply NoDup_seqZ.
    - by rewrite sort_perm. }
  by destruct (normalize_loop_nothing_to_merge _ _ _ _ _ HInv (or_intror Hsorted) Hloop)
    as [-> ->].
Qed.

Lemma normalize_leaves_nothing_to_merge_witness :
  exists st',
    CursorCollection.normalize scatteredCursors = Some st'
    /\ length (cursors st'.2) = 2%nat
    /\ (exists snapshot' sortedCursors,
          CursorCollection.snapshot st'.1 0 (cursors st'.2) = Some snapshot'
          /\ sortedCursors ≡ₚ snapshot'
          /\ startSorted sortedCursors
          /\ neighboursApart sortedCursors)
    /\ CursorCollection.normalize st' = Some st'.
Proof.
  eexists. split; [vm_compute; reflexivity|]. split; [reflexivity|].
  apply (normalize_leaves_nothing_to_merge scatteredCursors);
    [exact scatteredCursors_wf|reflexivity|exact scatteredCursors_accepted
    |vm_compute; reflexivity].
Defined.

(** ** What [normalize] merges *)

Lemma scatteredCursors_start_round : normalizeRound scatteredCursors scatteredCursors_start.
Proof.
  assert (Hsnap : CursorCollection.snapshot scatteredCursors.1 0
                    (cursors scatteredCursors.2)
                  = Some [mkSortedCursor 0 (Selection.new 2 1 2 4);
                          mkSortedCursor 1 (Selection.new 1 3 1 8);
                          mkSortedCursor 2 (Selection.new 1 1 1 5)])
    by (vm_compute; reflexivity).
  assert (Hmore : length (cursors scatteredCursors.2) <> 1%nat) by done.
  pose proof (round_first scatteredCursors _ Hmore Hsnap) as Hround.
  replace scatteredCursors_start with
    (mkNormalizeState scatteredCursors.1 scatteredCursors.2 (cursors scatteredCursors.2)
       (Array.sort (compareBy (λ s, Selection.toRange (selection s))
                      Range.compareRangesUsingStarts)
          [mkSortedCursor 0 (Selection.new 2 1 2 4);
           mkSortedCursor 1 (Selection.new 1 3 1 8);
           mkSortedCursor 2 (Selection.new 1 1 1 5)]) 0);
    [exact Hround|vm_compute; reflexivity].
Qed.

(** C1: with merging enabled, [normalize] on a collection of one cursor
    changes nothing, and on another collection it runs through the rounds of
    its loop and returns the collection of the round that fails the test of
    the loop.  Every round finds the snapshot of the cursors in the
    order of their starts, with no pair left to merge before the loop index,
    and, in a document that accepts the ends of the selections of the cursors,
    every entry of the snapshot is the selection the cursor at its index has.
    A round that passes the test of the loop (so there are at least two
    cursors) looks at the two neighbours [current] and [next] at the loop
    index and merges them exactly when [shouldMergeCursors] holds: the one of
    the two with the smaller index takes a selection that spans the union of
    the two ranges, the other one is removed from the collection, the two
    entries become one, and the loop index stays; otherwise nothing changes
    and the loop moves to the next pair.  [shouldMergeCursors] holds exactly
    when one of the two selections is empty and the later one starts at or
    before the end of the earlier one, or both are non-empty and the later one
    starts strictly before the end of the earlier one.  Two cursors with the
    selections [1,1]-[1,5] and [1,3]-[1,8] normalize to exactly one cursor,
    whose selection is [1,1]-[1,8]; and of three cursors given as [2,1]-[2,4],
    [1,3]-[1,8] and [1,1]-[1,5], the last two are merged into [1,1]-[1,8] and
    the first one stays. *)
Theorem normalize_merges :
  (forall currentSelection nextSelection : Selection,
     CursorCollection.shouldMergeCursors currentSelection nextSelection = true
     <-> ((Selection.isEmpty currentSelection = true
           \/ Selection.isEmpty nextSelection = true)
          /\ atOrBefore (Selection.getStartPosition nextSelection)
                        (Selection.getEndPosition currentSelection))
         \/ (Selection.isEmpty currentSelection = false
             /\ Selection.isEmpty nextSelection = false
             /\ strictlyBefore (Selection.getStartPosition nextSelection)
                               (Selection.getEndPosition currentSelection)))
  /\ (forall st : Store * CursorCollection,
        wf st ->
        multiCursorMergeOverlapping (cursorConfig (context st.2)) = true ->
        (exists st',
           CursorCollection.normalize st = Some st'
           /\ (length (cursors st.2) = 1%nat -> st' = st)
           /\ (length (cursors st.2) <> 1%nat ->
               exists n',
                 normalizeRound st n'
                 /\ Z.of_nat (length (n_sortedCursors n')) - 1 <= n_sortedCursorIndex n'
                 /\ st' = (n_store n', n_this n')))
        /\ forall n : NormalizeState,
             normalizeRound st n ->
             NSorted n
             /\ (Forall (acceptsCursor (context st.2) st.1) (cursors st.2) ->
                 Forall (held (n_store n) (n_cursors n)) (n_sortedCursors n))
             /\ (n_sortedCursorIndex n < Z.of_nat (length (n_sortedCursors n)) - 1 ->
                 exists current next n',
                   n_sortedCursors n !! Z.to_nat (n_sortedCursorIndex n) = Some current
                   /\ n_sortedCursors n !! S (Z.to_nat (n_sortedCursorIndex n)) = Some next
                   /\ CursorCollection.normalize_step n = Some n'
                   /\ if CursorCollection.shouldMergeCursors (selection current)
                                                             (selection next)
                      then mergedRound n n' current next
                      else n' = mkNormalizeState (n_store n) (n_this n) (n_cursors n)
                                  (n_sortedCursors n) (n_sortedCursorIndex n + 1)))
  /\ (forall (st : Store * CursorCollection) (s1 s2 : Selection),
        wf st ->
        multiCursorMergeOverlapping (cursorConfig (context st.2)) = true ->
        validatePosition (model (context st.2)) (mkPosition 1 1) = mkPosition 1 1 ->
        validatePosition (model (context st.2)) (mkPosition 1 8) = mkPosition 1 8 ->
        validateRange (model (context st.2)) (rawRange 1 1 1 1) = rawRange 1 1 1 1 ->
        validateRange (model (context st.2)) (rawRange 1 8 1 8) = rawRange 1 8 1 8 ->
        CursorCollection.getSelections st.1 st.2 = Some [s1; s2] ->
        Selection.toRange s1 = rawRange 1 1 1 5 ->
        Selection.toRange s2 = rawRange 1 3 1 8 ->
        exists st' s,
          CursorCollection.normalize st = Some st'
          /\ CursorCollection.getSelections st'.1 st'.2 = Some [s]
          /\ Selection.toRange s = rawRange 1 1 1 8)
  /\ (exists st',
        CursorCollection.normalize scatteredCursors = Some st'
        /\ CursorCollection.getSelections st'.1 st'.2
           = Some [Selection.new 2 1 2 4; Selection.new 1 1 1 8]).
Proof.
  split; [|split; [|split]].
  - intros currentSelection nextSelection. unfold CursorCollection.shouldMergeCursors.
    rewrite <- isBeforeOrEqual_atOrBefore, <- isBefore_strictlyBefore.
    destruct (Selection.isEmpty nextSelection), (Selection.isEmpty currentSelection);
      cbn [orb]; split; intros H; auto.
    + destruct H as [[_ H]|(? & _)]; done.
    + destruct H as [[_ H]|(_ & ? & _)]; done.
    + destruct H as [[_ H]|(? & _)]; done.
    + destruct H as [[[?|?] _]|(_ & _ & H)]; done.
  - intros st Hwf Hflag. split.
    + destruct (normalize_spec st Hwf) as (st' & Hnorm & _).
      exists st'. split; [done|]. split.
      * intros Hone. rewrite (normalize_one_cursor st Hone) in Hnorm.
        by injection Hnorm as <-.
      * intros Hmore.
        destruct (normalize_rounds st st' Hwf Hmore Hnorm)
          as (n' & Hround & Hexit & Hst').
        exists n'. split; [done|]. split; [lia|done].
    + intros n Hround.
      destruct (normalizeRound_NSorted st n Hwf Hflag Hround) as [HInv HSorted].
      split; [done|]. split.
      * intros Haccepts.
        by destruct (normalizeRound_NHeld st n Hwf Hflag Haccepts Hround).
      * intros Hlt.
        assert (Hflagn : multiCursorMergeOverlapping
                           (cursorConfig (context (n_this n))) = true).
        { destruct HInv as (_ & _ & _ & _ & _ & _ & ->). done. }
        destruct (normalize_step_round st n HInv Hlt Hflagn)
          as (current & next & n' & Hcur & Hnext & Hstep & _ & Hcase).
        by exists current, next, n'.
  - apply normalize_example.
  - eexists. split; vm_compute; reflexivity.
Qed.

Lemma normalize_merges_witness :
  (exists st' n',
     CursorCollection.normalize scatteredCursors = Some st'
     /\ normalizeRound scatteredCursors n'
     /\ Z.of_nat (length (n_sortedCursors n')) - 1 <= n_sortedCursorIndex n'
     /\ st' = (n_store n', n_this n'))
  /\ (NSorted scatteredCursors_start
      /\ Forall (held (n_store scatteredCursors_start) (n_cursors scatteredCursors_start))
           (n_sortedCursors scatteredCursors_start)
      /\ exists current next n',
           n_sortedCursors scatteredCursors_start
             !! Z.to_nat (n_sortedCursorIndex scatteredCursors_start) = Some current
           /\ n_sortedCursors scatteredCursors_start
                !! S (Z.to_nat (n_sortedCursorIndex scatteredCursors_start)) = Some next
           /\ CursorCollection.normalize_step scatteredCursors_start = Some n'
           /\ if CursorCollection.shouldMergeCursors (selection current) (selection next)
              then mergedRound scatteredCursors_start n' current next
              else n' = mkNormalizeState (n_store scatteredCursors_start)
                          (n_this scatteredCursors_start)
                          (n_cursors scatteredCursors_start)
                          (n_sortedCursors scatteredCursors_start)
                          (n_sortedCursorIndex scatteredCursors_start + 1))
  /\ (exists st' s,
        CursorCollection.normalize overlappingPair = Some st'
        /\ CursorCollection.getSelections st'.1 st'.2 = Some [s]
        /\ Selection.toRange s = rawRange 1 1 1 8).
Proof.
  split; [|split].
  - destruct (proj1 (proj1 (proj2 normalize_merges) scatteredCursors
                       scatteredCursors_wf eq_refl))
      as (st' & Hnorm & _ & Hrounds).
    destruct Hrounds as (n' & Hround & Hexit & Hst'); [discriminate|].
    exists st', n'. split; [exact Hnorm|]. split; [exact Hround|].
    split; [exact Hexit|exact Hst'].
  - destruct (proj2 (proj1 (proj2 normalize_merges) scatteredCursors
                       scatteredCursors_wf eq_refl)
                scatteredCursors_start scatteredCursors_start_round)
      as (HSorted & Hheld & Hstep).
    split; [exact HSorted|]. split; [exact (Hheld scatteredCursors_accepted)|].
    apply Hstep. vm_compute. reflexivity.
  - apply (proj1 (proj2 (proj2 normalize_merges)) overlappingPair
             (Selection.new 1 1 1 5) (Selection.new 1 3 1 8));
      try reflexivity.
    apply overlappingPair_wf.
Defined.
